(** * Product extraction and hybrid retrieval: a shallow embedding

    This development embeds two modules of the RAG assistant,
    [app/extraction/product_extractor.py] and
    [app/vectorstore/hybrid_retriever.py], and proves properties of them.

    Modelling conventions.
    - A Python [str] is a [string] whose characters are the code points
      0..255 (Latin-1), one [ascii] per character, so that [len] is
      [String.length].  Source literals with accents are written through
      [L1], which decodes the two-byte UTF-8 form the proof file stores.
      [str.upper] is the full mapping ([ß] becomes [SS]); the two
      characters whose capital lies outside Latin-1 ([µ], [ÿ]) are left
      as they are.
      The character tables ([isspace], [isdigit], case, [\w]) are those
      of CPython on these code points.
    - A Python [float] is a rational [Q].  In the extractor and in the
      searches arithmetic is exact: the properties proved there leave a
      margin that rounding cannot cross ([extraction_confidence_margin])
      or do not depend on it.  In the fusion of search results, where
      the order of two results can hang on the last bit of a score, the
      arithmetic is that of binary64 ([F64]): a score is the rational
      value of a float, and a product or a sum is rounded to the nearest
      float, ties to even.
    - The [re] module is a backtracking matcher over a pattern syntax
      tree, greedy and leftmost like [re]; each pattern string of the
      source is transcribed to its tree.  Only what the patterns of the
      source use is there: classes, groups, alternation, bounded and
      unbounded repetition, [^], [$], [\b], IGNORECASE.
    - Exceptions are the [Raise] case of [result]; a [try]/[except] is a
      [match] on it.
    - The Chroma collection, the BM25 ranking, numpy's [argsort] and the
      uuid and id generators are parameters ([Backend],
      [_generate_product_id]): what is proved holds for all of them.

    Layout: characters, strings and patterns; the data model; the
    extractor; the retriever; a small backend for the examples; then the
    properties, claim by claim, and further properties of the same
    code. *)

From Stdlib Require Import Bool Arith ZArith QArith Qminmax Qround Qpower.
From Stdlib Require Import Lia Lqa.
From Stdlib Require Import List String Ascii.
From Stdlib Require Import Sorted Permutation.
Import ListNotations.

Local Open Scope string_scope.
Local Open Scope list_scope.

(** ** Characters *)

Module Chr.

Definition code (c : ascii) : nat := nat_of_ascii c.

Definition between (lo hi : nat) (c : ascii) : bool :=
  (lo <=? code c)%nat && (code c <=? hi)%nat.

(** [str.isspace] on one character, also the class [\s] of [re]. *)
Definition isspace (c : ascii) : bool :=
  between 9 13 c || between 28 32 c || (code c =? 133)%nat || (code c =? 160)%nat.

(** Decimal digits, the class [\d]. *)
Definition isdecimal (c : ascii) : bool := between 48 57 c.

(** [str.isdigit] on one character: decimals and superscript digits. *)
Definition isdigit (c : ascii) : bool :=
  isdecimal c || (code c =? 178)%nat || (code c =? 179)%nat || (code c =? 185)%nat.

Definition is_upper (c : ascii) : bool :=
  between 65 90 c || between 192 214 c || between 216 222 c.

Definition is_lower (c : ascii) : bool :=
  between 97 122 c || (code c =? 170)%nat || (code c =? 181)%nat
  || (code c =? 186)%nat || between 223 246 c || between 248 255 c.

(** Word characters, the class [\w]: alphanumeric or underscore. *)
Definition isword (c : ascii) : bool :=
  isdecimal c || between 65 90 c || between 97 122 c || (code c =? 95)%nat
  || (code c =? 170)%nat || (code c =? 178)%nat || (code c =? 179)%nat
  || (code c =? 181)%nat || (code c =? 185)%nat || (code c =? 186)%nat
  || between 188 190 c || between 192 214 c || between 216 246 c
  || between 248 255 c.

(** Simple case mappings. *)
Definition lower (c : ascii) : ascii :=
  if is_upper c then ascii_of_nat (code c + 32) else c.

Definition upper (c : ascii) : ascii :=
  if between 97 122 c || between 224 246 c || between 248 254 c
  then ascii_of_nat (code c - 32) else c.

End Chr.

(** ** Strings: the [str] methods the two modules call *)

Module Str.

Fixpoint of_list (l : list ascii) : string :=
  match l with
  | [] => EmptyString
  | c :: l' => String c (of_list l')
  end.

Definition to_list (s : string) : list ascii := list_ascii_of_string s.

(** Decoder for the accented literals of the source. *)
Fixpoint L1 (s : string) : string :=
  match s with
  | EmptyString => EmptyString
  | String c s' =>
      match s' with
      | String d s'' =>
          if (Chr.code c =? 194)%nat then String d (L1 s'')
          else if (Chr.code c =? 195)%nat
               then String (ascii_of_nat (Chr.code d + 64)) (L1 s'')
               else String c (L1 s')
      | EmptyString => String c EmptyString
      end
  end.

Fixpoint map (f : ascii -> ascii) (s : string) : string :=
  match s with
  | EmptyString => EmptyString
  | String c s' => String (f c) (map f s')
  end.

Fixpoint forallb (f : ascii -> bool) (s : string) : bool :=
  match s with
  | EmptyString => true
  | String c s' => f c && forallb f s'
  end.

Fixpoint existsb (f : ascii -> bool) (s : string) : bool :=
  match s with
  | EmptyString => false
  | String c s' => f c || existsb f s'
  end.

Fixpoint filter (f : ascii -> bool) (s : string) : string :=
  match s with
  | EmptyString => EmptyString
  | String c s' => if f c then String c (filter f s') else filter f s'
  end.

Definition lower (s : string) : string := map Chr.lower s.

(** [str.upper]: [ß] expands to [SS]. *)
Fixpoint upper (s : string) : string :=
  match s with
  | EmptyString => EmptyString
  | String c s' =>
      if (Chr.code c =? 223)%nat then String "S" (String "S" (upper s'))
      else String (Chr.upper c) (upper s')
  end.

(** [str.isupper]: no lower-case character and at least one upper-case. *)
Definition isupper (s : string) : bool :=
  negb (existsb Chr.is_lower s) && existsb Chr.is_upper s.

(** [str.isdigit]. *)
Definition isdigit (s : string) : bool :=
  negb (String.eqb s "") && forallb Chr.isdigit s.

Fixpoint lstrip (s : string) : string :=
  match s with
  | EmptyString => EmptyString
  | String c s' => if Chr.isspace c then lstrip s' else s
  end.

Fixpoint rstrip (s : string) : string :=
  match s with
  | EmptyString => EmptyString
  | String c s' =>
      match rstrip s' with
      | EmptyString => if Chr.isspace c then EmptyString else String c EmptyString
      | t => String c t
      end
  end.

(** [str.strip()]. *)
Definition strip (s : string) : string := rstrip (lstrip s).

(** [s[:n]] for a non-negative [n]. *)
Definition take (n : nat) (s : string) : string := substring 0 n s.

Fixpoint take_list (n : nat) (l : list ascii) : string :=
  match n, l with
  | S n', c :: l' => String c (take_list n' l')
  | _, _ => EmptyString
  end.

(** [s.split(sep)] for a one-character separator. *)
Fixpoint split (sep : ascii) (s : string) : list string :=
  match s with
  | EmptyString => [EmptyString]
  | String c s' =>
      if Ascii.eqb c sep then EmptyString :: split sep s'
      else match split sep s' with
           | [] => [String c EmptyString]
           | w :: ws => String c w :: ws
           end
  end.

(** [s.replace(a, b)] for one-character [a] and [b]. *)
Definition replace (a b : ascii) (s : string) : string :=
  map (fun c => if Ascii.eqb c a then b else c) s.

(** [w in s]. *)
Fixpoint contains (w s : string) : bool :=
  prefix w s ||
  match s with
  | EmptyString => false
  | String _ s' => contains w s'
  end.

Definition newline : ascii := ascii_of_nat 10.

End Str.

Definition L1 : string -> string := Str.L1.

(** ** The pattern engine: the subset of [re] the extractor uses *)

Module Re.

(** One item of a bracketed character class. *)
Inductive citem : Type :=
| CChar (c : ascii)
| CRange (lo hi : ascii)
| CSpace
| CDigit.

Inductive regex : Type :=
| REps
| RSet (neg : bool) (items : list citem)
| RSeq (r1 r2 : regex)
| RAlt (r1 r2 : regex)
| RRep (lo : nat) (hi : option nat) (r : regex)
| RGroup (n : nat) (r : regex)
| RBol
| REol
| RWordB.

(** A compiled pattern: the tree and the IGNORECASE flag, set by an
    inline [(?i)] or by [flags=re.IGNORECASE]. *)
Record pattern : Type := mkPattern { icase : bool; body : regex }.

Definition chr (c : ascii) : regex := RSet false [CChar c].
Definition cls (items : list citem) : regex := RSet false items.
Definition ncls (items : list citem) : regex := RSet true items.
Definition star (r : regex) : regex := RRep 0 None r.
Definition plus (r : regex) : regex := RRep 1 None r.
Definition opt (r : regex) : regex := RRep 0 (Some 1%nat) r.
Definition atleast (n : nat) (r : regex) : regex := RRep n None r.
Definition range (lo hi : nat) (r : regex) : regex := RRep lo (Some hi) r.

Fixpoint seqs (rs : list regex) : regex :=
  match rs with
  | [] => REps
  | [r] => r
  | r :: rs' => RSeq r (seqs rs')
  end.

Fixpoint alts (rs : list regex) : regex :=
  match rs with
  | [] => RSet false []
  | [r] => r
  | r :: rs' => RAlt r (alts rs')
  end.

(** A literal word, also the result of [re.escape]. *)
Fixpoint lit (s : string) : regex :=
  match s with
  | EmptyString => REps
  | String c EmptyString => chr c
  | String c s' => RSeq (chr c) (lit s')
  end.

Definition escape (s : string) : regex := lit s.

(** Number of capture groups, [len(match.groups())]. *)
Fixpoint ngroups (r : regex) : nat :=
  match r with
  | RSeq a b | RAlt a b => ngroups a + ngroups b
  | RRep _ _ a => ngroups a
  | RGroup _ a => S (ngroups a)
  | _ => 0
  end.

Definition item_match (it : citem) (c : ascii) : bool :=
  match it with
  | CChar d => Ascii.eqb c d
  | CRange lo hi => Chr.between (Chr.code lo) (Chr.code hi) c
  | CSpace => Chr.isspace c
  | CDigit => Chr.isdecimal c
  end.

Definition item_match_ic (ic : bool) (it : citem) (c : ascii) : bool :=
  item_match it c
  || (ic && (item_match it (Chr.lower c) || item_match it (Chr.upper c))).

Definition set_match (ic neg : bool) (items : list citem) (c : ascii) : bool :=
  xorb neg (List.existsb (fun it => item_match_ic ic it c) items).

(** A position in the subject: the character before it, what is left,
    and the offset. *)
Record cursor : Type := mkCursor {
  prev : option ascii;
  rest : list ascii;
  pos : nat
}.

Definition captures : Type := list (nat * string).

Definition word_before (cu : cursor) : bool :=
  match prev cu with Some c => Chr.isword c | None => false end.

Definition word_after (cu : cursor) : bool :=
  match rest cu with c :: _ => Chr.isword c | [] => false end.

Definition at_eol (cu : cursor) : bool :=
  match rest cu with
  | [] => true
  | [c] => Ascii.eqb c Str.newline
  | _ => false
  end.

Definition orelse {A} (x : option A) (y : option A) : option A :=
  match x with Some _ => x | None => y end.

Definition below (hi : option nat) (n : nat) : bool :=
  match hi with None => true | Some h => (n <? h)%nat end.

(** The loop of a greedy repetition [r{lo,hi}]: [step] matches [r] once;
    an iteration that consumes nothing is not taken; [fuel] bounds the
    number of iterations by the length of what is left. *)
Section Repeat.
Variable R : Type.
Variable step :
  cursor -> captures -> (cursor -> captures -> option R) -> option R.
Variable lo : nat.
Variable hi : option nat.
Variable k : cursor -> captures -> option R.

Fixpoint rep_loop (fuel count : nat) (cu0 : cursor) (cs0 : captures)
  {struct fuel} : option R :=
  let stop := if (lo <=? count)%nat then k cu0 cs0 else None in
  match fuel with
  | O => stop
  | S fuel' =>
      if below hi count
      then orelse
             (step cu0 cs0 (fun cu' cs' =>
                if (pos cu' =? pos cu0)%nat then None
                else rep_loop fuel' (S count) cu' cs'))
             stop
      else stop
  end.

End Repeat.

Section Match.
Variable ic : bool.
Variable R : Type.

(** Backtracking match of [r] at [cu], greedy, first alternative first;
    [k] is what must still match. *)
Fixpoint run (r : regex) (cu : cursor) (cs : captures)
         (k : cursor -> captures -> option R) {struct r} : option R :=
  match r with
  | REps => k cu cs
  | RSet neg items =>
      match rest cu with
      | c :: tl =>
          if set_match ic neg items c
          then k (mkCursor (Some c) tl (S (pos cu))) cs
          else None
      | [] => None
      end
  | RSeq a b => run a cu cs (fun cu' cs' => run b cu' cs' k)
  | RAlt a b => orelse (run a cu cs k) (run b cu cs k)
  | RRep lo hi a =>
      rep_loop R (run a) lo hi k (List.length (rest cu)) O cu cs
  | RGroup n a =>
      run a cu cs (fun cu' cs' =>
        k cu' ((n, Str.take_list (pos cu' - pos cu) (rest cu)) :: cs'))
  | RBol => if (pos cu =? 0)%nat then k cu cs else None
  | REol => if at_eol cu then k cu cs else None
  | RWordB => if xorb (word_before cu) (word_after cu) then k cu cs else None
  end.

End Match.

(** A match object: span, whole text and groups. *)
Record rmatch : Type := mkMatch {
  m_start : nat;
  m_end : nat;
  m_text : string;
  m_groups : captures
}.

Fixpoint lookup (n : nat) (cs : captures) : option string :=
  match cs with
  | [] => None
  | (m, s) :: cs' => if (n =? m)%nat then Some s else lookup n cs'
  end.

(** [match.group(n)] for [n >= 1]; [None] when the group took no part. *)
Definition group (n : nat) (m : rmatch) : option string := lookup n (m_groups m).

Definition match_at (p : pattern) (cu : cursor) : option rmatch :=
  run (icase p) rmatch (body p) cu []
      (fun cu' cs =>
         Some (mkMatch (pos cu) (pos cu')
                       (Str.take_list (pos cu' - pos cu) (rest cu)) cs)).

Definition start_of (s : string) : cursor := mkCursor None (Str.to_list s) 0.

Definition advance (cu : cursor) : cursor :=
  match rest cu with
  | c :: tl => mkCursor (Some c) tl (S (pos cu))
  | [] => cu
  end.

Fixpoint advance_to (fuel : nat) (n : nat) (cu : cursor) : cursor :=
  match fuel with
  | O => cu
  | S fuel' => if (n <=? pos cu)%nat then cu else advance_to fuel' n (advance cu)
  end.

(** [re.match]: only at the start. *)
Definition match_ (p : pattern) (s : string) : option rmatch :=
  match_at p (start_of s).

(** Leftmost match at or after [cu]. *)
Fixpoint search_from (fuel : nat) (p : pattern) (cu : cursor) : option rmatch :=
  match match_at p cu with
  | Some m => Some m
  | None =>
      match fuel, rest cu with
      | S fuel', _ :: _ => search_from fuel' p (advance cu)
      | _, _ => None
      end
  end.

(** [re.search]. *)
Definition search (p : pattern) (s : string) : option rmatch :=
  search_from (String.length s) p (start_of s).

(** Successive non-overlapping matches from [cu]; after an empty match
    the scan moves one character on. *)
Fixpoint finditer_from (fuel : nat) (p : pattern) (cu : cursor) : list rmatch :=
  match fuel with
  | O => []
  | S fuel' =>
      match search_from (List.length (rest cu)) p cu with
      | None => []
      | Some m =>
          let cu' := advance_to (S (List.length (rest cu))) (m_end m) cu in
          if (m_end m =? m_start m)%nat
          then match rest cu' with
               | [] => [m]
               | _ :: _ => m :: finditer_from fuel' p (advance cu')
               end
          else m :: finditer_from fuel' p cu'
      end
  end.

(** [re.finditer]. *)
Definition finditer (p : pattern) (s : string) : list rmatch :=
  finditer_from (S (String.length s)) p (start_of s).

(** [re.findall] for a pattern without groups: the matched texts. *)
Definition findall (p : pattern) (s : string) : list string :=
  List.map m_text (finditer p s).

(** The pieces of [s] between the matches [ms], read from offset [from]. *)
Fixpoint pieces (ms : list rmatch) (from : nat) (s : string) : list string :=
  match ms with
  | [] => [substring from (String.length s - from) s]
  | m :: ms' => substring from (m_start m - from) s :: pieces ms' (m_end m) s
  end.

(** [re.split] for a pattern without groups whose matches are not empty. *)
Definition split (p : pattern) (s : string) : list string :=
  pieces (finditer p s) 0 s.

(** [re.sub] with a constant replacement, same provisos. *)
Definition sub (p : pattern) (repl : string) (s : string) : string :=
  String.concat repl (split p s).

(** [binds n r]: every successful match of [r] sets group [n]. *)
Fixpoint binds (n : nat) (r : regex) : bool :=
  match r with
  | RSeq a b => binds n a || binds n b
  | RAlt a b => binds n a && binds n b
  | RRep lo _ a => (1 <=? lo)%nat && binds n a
  | RGroup m a => (n =? m)%nat || binds n a
  | _ => false
  end.

Definition bound (n : nat) (cs : captures) : Prop := lookup n cs <> None.

(** The length of what a one-character class matches at the head of
    [l], and of what a run of it matches: used to state what [search],
    [finditer] and [sub] do with such patterns. *)
Definition class_len (f : ascii -> bool) (l : list ascii) : option nat :=
  match l with
  | c :: _ => if f c then Some 1%nat else None
  | [] => None
  end.

Fixpoint span (f : ascii -> bool) (l : list ascii) : nat :=
  match l with
  | c :: tl => if f c then S (span f tl) else 0
  | [] => 0
  end.

Definition run_len (f : ascii -> bool) (l : list ascii) : option nat :=
  match span f l with
  | O => None
  | S n => Some (S n)
  end.

End Re.

(** ** Exceptions *)

Inductive result (A : Type) : Type :=
| Ok (a : A)
| Raise (e : string).

Arguments Ok {A} a.
Arguments Raise {A} e.

Definition bind {A B} (x : result A) (f : A -> result B) : result B :=
  match x with
  | Ok a => f a
  | Raise e => Raise e
  end.

Notation "x <- c1 ;; c2" := (bind c1 (fun x => c2))
  (at level 61, c1 at next level, right associativity).

(** Runs the steps in order and keeps the values produced; the first
    exception ends the run. *)
Fixpoint collect {A} (steps : list (result (option A))) : result (list A) :=
  match steps with
  | [] => Ok []
  | st :: steps' =>
      o <- st ;;
      l <- collect steps' ;;
      Ok (match o with Some a => a :: l | None => l end)
  end.

(** ** Floats as rationals *)

Definition Qltb (x y : Q) : bool := negb (Qle_bool y x).

(** [Field(ge=0.0, le=1.0)]. *)
Definition unit_interval (x : Q) : bool := Qle_bool 0 x && Qle_bool x 1.

(** ** Binary64 arithmetic

    The numbers of Python's [float], each by its rational value.  A
    product and a sum are rounded to the nearest binary64 number, ties
    to even, with gradual underflow.  A rational that is not a binary64
    number, where a float is expected, is read as the nearest one, as
    Python reads a decimal literal.  [inf], 2^1024, stands for the
    infinity that an overflow gives, and every rational at least as
    large is read as it.  What is not a number, the product of an
    infinity and zero or the sum of the two infinities, has no rational
    to stand for it: [mul_floats] and [add_floats] are total all the
    same, and the fusion, whose weights are finite and not zero, forms
    neither from finite scores.  The two zeros of binary64, which
    compare equal, are one. *)

Module F64.

(** The binade of a positive number: the [e] with 2^e <= x < 2^(e+1). *)
Definition ilog2 (x : Q) : Z :=
  let e := (Z.log2 (Qnum x) - Z.log2 (Zpos (Qden x)))%Z in
  if Qle_bool (2 ^ e) x then e else (e - 1)%Z.

(** The nearest integer, the even one of two that are as near. *)
Definition nearest_even (y : Q) : Z :=
  let f := Qfloor y in
  match Qcompare (y - inject_Z f) (1 # 2) with
  | Lt => f
  | Eq => if Z.even f then f else (f + 1)%Z
  | Gt => (f + 1)%Z
  end.

(** The exponent of the last of the 53 bits of a positive number; it
    stops at -1074, where the numbers below 2^-1022 lose precision. *)
Definition quantum (x : Q) : Z := Z.max (ilog2 x - 52) (-1074).

(** The nearest multiple of the quantum of a positive number. *)
Definition nearest (x : Q) : Q :=
  inject_Z (nearest_even (x / 2 ^ quantum x)) * 2 ^ quantum x.

(** What stands for the infinity: the first power of two that is too
    large for a binary64 number. *)
Definition inf : Q := 2 ^ 1024.

Definition cap (r : Q) : Q := if Qle_bool inf r then inf else Qred r.

(** Rounding to binary64, to nearest, ties to even; a result too large
    is an infinity. *)
Definition rnd (x : Q) : Q :=
  match Qcompare x 0 with
  | Eq => 0
  | Gt => cap (nearest x)
  | Lt => - cap (nearest (- x))
  end.

Definition infinite (x : Q) : bool := Qle_bool inf x || Qle_bool x (- inf).

(** The product and the sum of two binary64 numbers or infinities. *)
Definition mul_floats (x y : Q) : Q :=
  if infinite x || infinite y then
    match Qcompare (x * y) 0 with
    | Gt => inf
    | Lt => - inf
    | Eq => 0
    end
  else rnd (x * y).

Definition add_floats (x y : Q) : Q :=
  if infinite x then x
  else if infinite y then y
  else rnd (x + y).

(** Python's [x * y] and [x + y] on floats.  An operand that is not a
    binary64 number is read as the nearest one, as a literal is. *)
Definition mul (x y : Q) : Q := mul_floats (rnd x) (rnd y).

Definition add (x y : Q) : Q := add_floats (rnd x) (rnd y).

(** *** Definitions used to state the properties of rounding *)

(** [n] quanta of exponent [q]. *)
Definition quanta (n q : Z) : Q := inject_Z n * 2 ^ q.

(** A positive number on the grid of its binade: a binary64 number, were
    the exponent unbounded. *)
Definition grid (r : Q) : Prop := exists k, r == quanta k (quantum r).

(** A binary64 number, or what stands for an infinity. *)
Definition float (x : Q) : Prop := rnd x == x.

End F64.

(** ** [sorted(..., key=..., reverse=True)]

    Stable: equal keys keep their order. *)

Section SortDesc.
Context {A : Type} (key : A -> Q).

Fixpoint insert_desc (x : A) (l : list A) : list A :=
  match l with
  | [] => [x]
  | y :: l' => if Qltb (key x) (key y) then y :: insert_desc x l' else x :: l
  end.

Fixpoint sorted_desc (l : list A) : list A :=
  match l with
  | [] => []
  | x :: l' => insert_desc x (sorted_desc l')
  end.

(** The order of the result: keys fall. *)
Definition desc (x y : A) : Prop := key y <= key x.

End SortDesc.

(** ** The data model ([app/models/schemas.py])

    The time stamps and [availability] of [Product] play no part in
    what follows and are left out. *)

Module ProductBrand.
Record t : Type := mk {
  name : string;
  normalized_name : string;
  aliases : list string;
  confidence : Q
}.
(** The constructor validates the confidence. *)
Definition make (n nn : string) (al : list string) (c : Q) : result t :=
  if unit_interval c then Ok (mk n nn al c) else Raise "ValidationError".
End ProductBrand.

Module ProductReference.
Record t : Type := mk {
  reference : string;
  normalized_reference : string;
  format_pattern : option string;
  confidence : Q
}.
Definition make (r nr : string) (fp : option string) (c : Q) : result t :=
  if unit_interval c then Ok (mk r nr fp c) else Raise "ValidationError".
End ProductReference.

Module ProductCharacteristic.
Record t : Type := mk {
  name : string;
  value : string;
  unit : option string;
  category : option string;
  normalized_name : string;
  normalized_value : string
}.
End ProductCharacteristic.

Module Product.
Record t : Type := mk {
  id : option string;
  name : string;
  brand : ProductBrand.t;
  reference : ProductReference.t;
  characteristics : list ProductCharacteristic.t;
  description : option string;
  category : option string;
  price : option Q;
  currency : option string;
  source_document : option string;
  extraction_confidence : Q
}.
Definition make (i : option string) (n : string) (b : ProductBrand.t)
  (r : ProductReference.t) (cs : list ProductCharacteristic.t)
  (d cat : option string) (pr : option Q) (cur src : option string)
  (conf : Q) : result t :=
  if unit_interval conf
     && match pr with Some x => Qle_bool 0 x | None => true end
  then Ok (mk i n b r cs d cat pr cur src conf)
  else Raise "ValidationError".
End Product.

Inductive MatchingStage : Type :=
| BRAND_MATCHING
| REFERENCE_MATCHING
| CHARACTERISTIC_MATCHING.

(** ** The extractor ([app/extraction/product_extractor.py]) *)

Module ProductExtractor.
Import Re.

Record ExtractionPattern : Type := mkEP {
  name : string;
  pattern : Re.pattern;
  confidence_modifier : Q
}.

Definition AZ : citem := CRange "A" "Z".
Definition az : citem := CRange "a" "z".
Definition d09 : citem := CRange "0" "9".

(** [[0-9]+(?:[.,][0-9]+)?] *)
Definition number : regex :=
  seqs [plus (cls [d09]); opt (seqs [cls [CChar "."; CChar ","]; plus (cls [d09])])].

(** [[\s:]*] *)
Definition sep : regex := star (cls [CSpace; CChar ":"]).

Definition words (ws : list string) : regex := alts (List.map (fun w => lit (L1 w)) ws).

Definition _load_brand_patterns : list ExtractionPattern :=
  [ mkEP "brand_prefix"
      (mkPattern true
         (seqs [words ["marque"; "brand"; "fabricant"; "manufacturer"]; sep;
                RGroup 1 (seqs [cls [AZ];
                                plus (cls [AZ; az; CSpace; CChar "&"; CChar "-"])])]))
      (9 # 10);
    mkEP "brand_caps"
      (mkPattern false
         (seqs [RWordB;
                RGroup 1 (seqs [atleast 2 (cls [AZ]);
                                star (seqs [plus (cls [CSpace]); atleast 2 (cls [AZ])])]);
                RWordB]))
      (7 # 10);
    mkEP "brand_mixed"
      (mkPattern false
         (seqs [RWordB;
                RGroup 1 (seqs [cls [AZ]; plus (cls [az]);
                                star (seqs [plus (cls [CSpace]); cls [AZ]; plus (cls [az])])]);
                RWordB]))
      (6 # 10);
    mkEP "brand_with_symbols"
      (mkPattern false
         (seqs [RWordB;
                RGroup 1 (seqs [cls [AZ];
                                plus (cls [AZ; az; d09; CChar "&"; CChar "-"]);
                                star (seqs [plus (cls [CSpace]); cls [AZ];
                                            plus (cls [AZ; az; d09; CChar "&"; CChar "-"])])]);
                RWordB]))
      (5 # 10) ].

Definition _load_reference_patterns : list ExtractionPattern :=
  [ mkEP "ref_prefix"
      (mkPattern true
         (seqs [words ["référence"; "reference"; "ref"; "réf"; "model"; "modèle"]; sep;
                RGroup 1 (plus (cls [AZ; d09; CChar "-"]))]))
      (95 # 100);
    mkEP "ref_alphanumeric"
      (mkPattern false
         (seqs [RWordB;
                RGroup 1 (seqs [range 1 4 (cls [AZ]); range 2 8 (cls [d09]);
                                star (cls [AZ; d09; CChar "-"])]);
                RWordB]))
      (8 # 10);
    mkEP "ref_numeric"
      (mkPattern false (seqs [RWordB; RGroup 1 (range 4 12 (cls [d09])); RWordB]))
      (6 # 10);
    mkEP "ref_mixed"
      (mkPattern false (seqs [RWordB; RGroup 1 (range 6 15 (cls [AZ; d09])); RWordB]))
      (7 # 10) ].

Definition _load_characteristic_patterns : list ExtractionPattern :=
  [ mkEP "dimension"
      (mkPattern true
         (seqs [RGroup 1 (words ["longueur"; "largeur"; "hauteur"; "diameter";
                                 "diamètre"; "taille"; "size"]); sep;
                RGroup 2 number; star (cls [CSpace]);
                RGroup 3 (range 1 3 (cls [az]))]))
      (9 # 10);
    mkEP "weight"
      (mkPattern true
         (seqs [RGroup 1 (words ["poids"; "weight"; "masse"]); sep;
                RGroup 2 number; star (cls [CSpace]);
                RGroup 3 (words ["kg"; "g"; "lb"])]))
      (9 # 10);
    mkEP "material"
      (mkPattern true
         (seqs [RGroup 1 (words ["matériau"; "material"; "matière"]); sep;
                RGroup 2 (plus (cls [AZ; az; CSpace]))]))
      (8 # 10);
    mkEP "color"
      (mkPattern true
         (seqs [RGroup 1 (words ["couleur"; "color"; "coloration"]); sep;
                RGroup 2 (plus (cls [AZ; az; CSpace]))]))
      (8 # 10);
    mkEP "voltage"
      (mkPattern true
         (seqs [RGroup 1 (words ["tension"; "voltage"; "volt"]); sep;
                RGroup 2 number; star (cls [CSpace]);
                RGroup 3 (cls [CChar "v"; CChar "V"])]))
      (9 # 10);
    mkEP "power"
      (mkPattern true
         (seqs [RGroup 1 (words ["puissance"; "power"; "watt"]); sep;
                RGroup 2 number; star (cls [CSpace]);
                RGroup 3 (cls [CChar "w"; CChar "W"])]))
      (9 # 10);
    mkEP "generic_numeric"
      (mkPattern false
         (seqs [RGroup 1 (plus (cls [AZ; az; CSpace])); sep;
                RGroup 2 number; star (cls [CSpace]);
                RGroup 3 (plus (cls [AZ; az]))]))
      (6 # 10) ].

Definition brand_patterns : list ExtractionPattern := _load_brand_patterns.
Definition reference_patterns : list ExtractionPattern := _load_reference_patterns.
Definition characteristic_patterns : list ExtractionPattern :=
  _load_characteristic_patterns.

(** The four separators of the splitter, compiled with IGNORECASE. *)
Definition split_patterns : list Re.pattern :=
  [ mkPattern true
      (seqs [chr Str.newline; star (cls [CSpace]); plus (cls [CDigit]);
             cls [CChar "."; CChar ")"]; plus (cls [CSpace])]);
    mkPattern true
      (seqs [chr Str.newline; star (cls [CSpace]); cls [AZ];
             atleast 10 (cls [AZ; CSpace]); chr Str.newline]);
    mkPattern true
      (seqs [chr Str.newline; star (cls [CSpace]);
             atleast 3 (cls [CChar "-"; CChar "="]); star (cls [CSpace]);
             chr Str.newline]);
    mkPattern true
      (seqs [chr Str.newline; star (cls [CSpace]); lit "PRODUIT";
             star (cls [CSpace]); star (cls [CDigit]); star (cls [CSpace]);
             cls [CChar ":"; CChar "."]; star (cls [CSpace])]) ].

(** Truth value of a string: empty is false. *)
Definition truthy (s : string) : bool := negb (String.eqb s "").

(** [len(section)] within the bounds of the size filter. *)
Definition size_ok (section : string) : bool :=
  (50 <=? String.length section)%nat && (String.length section <=? 2000)%nat.

(** One round of the cascade: every section is split by [p], the parts
    are stripped and the empty ones dropped. *)
Definition split_round (p : Re.pattern) (sections : list string) : list string :=
  List.flat_map
    (fun section => List.filter truthy (List.map Str.strip (Re.split p section)))
    sections.

Definition cascade (text : string) : list string :=
  List.fold_left (fun sections p => split_round p sections) split_patterns [text].

Definition _split_into_product_sections (text : string) : list string :=
  let sections := cascade text in
  let filtered_sections := List.filter size_ok sections in
  match filtered_sections with
  | [] => [text]
  | _ :: _ => filtered_sections
  end.

(** *** Validation and normalisation *)

Definition re_no_letter : Re.pattern :=
  mkPattern false (seqs [RBol; star (ncls [AZ; az]); REol]).

Definition _is_valid_brand (brand : string) : bool :=
  (2 <=? String.length brand)%nat && (String.length brand <=? 50)%nat
  && negb (Str.isdigit brand)
  && negb (match Re.match_ re_no_letter brand with Some _ => true | None => false end).

Definition re_alnum : Re.pattern := mkPattern false (cls [AZ; az; d09]).

Definition _is_valid_reference (reference : string) : bool :=
  (3 <=? String.length reference)%nat && (String.length reference <=? 20)%nat
  && (match Re.search re_alnum reference with Some _ => true | None => false end).

Definition _is_valid_characteristic (name value : string) : bool :=
  (2 <=? String.length name)%nat && (String.length name <=? 50)%nat
  && (1 <=? String.length value)%nat && (String.length value <=? 100)%nat.

Definition re_spaces : Re.pattern := mkPattern false (plus (cls [CSpace])).

Definition _normalize_brand_name (brand : string) : string :=
  Re.sub re_spaces " " (Str.strip (Str.upper brand)).

Definition re_not_AZ09 : Re.pattern := mkPattern false (ncls [AZ; d09]).

Definition _normalize_reference (reference : string) : string :=
  Re.sub re_not_AZ09 "" (Str.upper reference).

Definition _normalize_characteristic_name (name : string) : string :=
  Re.sub re_spaces " " (Str.strip (Str.lower name)).

Definition _normalize_characteristic_value (value : string) (unit : option string)
  : string :=
  let normalized := Str.strip (Str.replace "," "." value) in
  match unit with
  | Some u => if truthy u then normalized ++ " " ++ Str.lower u else normalized
  | None => normalized
  end.

Definition any_in (ws : list string) (s : string) : bool :=
  List.existsb (fun w => Str.contains (L1 w) s) ws.

Definition _categorize_characteristic (name : string) : string :=
  let name_lower := Str.lower name in
  if any_in ["longueur"; "largeur"; "hauteur"; "dimension"; "taille"] name_lower
  then "dimension"
  else if any_in ["poids"; "masse"; "weight"] name_lower then "poids"
  else if any_in ["matériau"; "material"; "matière"] name_lower then "materiau"
  else if any_in ["couleur"; "color"] name_lower then "couleur"
  else if any_in ["tension"; "voltage"; "volt"] name_lower then "electrique"
  else if any_in ["puissance"; "power"; "watt"] name_lower then "puissance"
  else "autre".

(** *** Confidence *)

Definition of_nat (n : nat) : Q := inject_Z (Z.of_nat n).

Definition _calculate_brand_confidence (brand text : string) : Q :=
  let confidence := 5 # 10 in
  let occurrences :=
    List.length (Re.findall (mkPattern true (Re.escape brand)) text) in
  let confidence := confidence + Qmin (of_nat occurrences * (1 # 10)) (3 # 10) in
  let confidence :=
    if Str.isupper brand then confidence + (1 # 10) else confidence in
  Qmin confidence 1.

Definition re_ref_shape : Re.pattern :=
  mkPattern false (seqs [RBol; range 2 4 (cls [AZ]); atleast 3 (cls [d09])]).

Definition re_ref_keyword (reference : string) : Re.pattern :=
  mkPattern true
    (seqs [words ["ref"; "référence"; "model"; "modèle"]; sep; Re.escape reference]).

Definition _calculate_reference_confidence (reference text : string) : Q :=
  let confidence := 5 # 10 in
  let confidence :=
    match Re.match_ re_ref_shape reference with
    | Some _ => confidence + (2 # 10)
    | None => confidence
    end in
  let confidence :=
    match Re.search (re_ref_keyword reference) text with
    | Some _ => confidence + (3 # 10)
    | None => confidence
    end in
  Qmin confidence 1.

Definition _calculate_extraction_confidence
  (brands : list ProductBrand.t) (references : list ProductReference.t)
  (characteristics : list ProductCharacteristic.t) : Q :=
  let brand_conf :=
    match brands with b :: _ => ProductBrand.confidence b | [] => 0 end in
  let ref_conf :=
    match references with r :: _ => ProductReference.confidence r | [] => 0 end in
  let char_conf := Qmin (of_nat (List.length characteristics) / 5) 1 in
  brand_conf * (4 # 10) + ref_conf * (4 # 10) + char_conf * (2 # 10).

(** *** Deduplication: first occurrence per key *)

Section Dedup.
Context {A K : Type} (key : A -> K) (eqb : K -> K -> bool).

Fixpoint dedup_loop (seen : list K) (items : list A) : list A :=
  match items with
  | [] => []
  | x :: items' =>
      if List.existsb (eqb (key x)) seen then dedup_loop seen items'
      else x :: dedup_loop (key x :: seen) items'
  end.

End Dedup.

Definition _deduplicate_brands (brands : list ProductBrand.t)
  : list ProductBrand.t :=
  dedup_loop ProductBrand.normalized_name String.eqb [] brands.

Definition _deduplicate_references (references : list ProductReference.t)
  : list ProductReference.t :=
  dedup_loop ProductReference.normalized_reference String.eqb [] references.

Definition pair_eqb (a b : string * string) : bool :=
  String.eqb (fst a) (fst b) && String.eqb (snd a) (snd b).

Definition _deduplicate_characteristics
  (characteristics : list ProductCharacteristic.t)
  : list ProductCharacteristic.t :=
  dedup_loop
    (fun c => (ProductCharacteristic.normalized_name c,
               ProductCharacteristic.normalized_value c))
    pair_eqb [] characteristics.

(** *** Candidates *)

(** [match.group(n).strip()]: a group that took no part is [None],
    which has no [strip]. *)
Definition group_strip (n : nat) (m : Re.rmatch) : result string :=
  match Re.group n m with
  | Some s => Ok (Str.strip s)
  | None => Raise "AttributeError"
  end.

(** The body of the inner loop of [_extract_brands]. *)
Definition brand_candidate (text : string) (pattern : ExtractionPattern)
  (m : Re.rmatch) : result (option ProductBrand.t) :=
  brand_name <- group_strip 1 m ;;
  if _is_valid_brand brand_name then
    let confidence :=
      confidence_modifier pattern * _calculate_brand_confidence brand_name text in
    brand <- ProductBrand.make brand_name (_normalize_brand_name brand_name)
                               [] confidence ;;
    Ok (Some brand)
  else Ok None.

(** All candidates, pattern after pattern, match after match. *)
Definition candidates {A} (body : string -> ExtractionPattern -> Re.rmatch ->
                                  result (option A))
  (patterns : list ExtractionPattern) (text : string) : result (list A) :=
  collect
    (List.flat_map
       (fun p => List.map (body text p) (Re.finditer (pattern p) text))
       patterns).

Definition _extract_brands (text : string) : result (list ProductBrand.t) :=
  brands <- candidates brand_candidate brand_patterns text ;;
  let unique_brands := _deduplicate_brands brands in
  Ok (List.firstn 3 (sorted_desc ProductBrand.confidence unique_brands)).

Definition reference_candidate (text : string) (pattern : ExtractionPattern)
  (m : Re.rmatch) : result (option ProductReference.t) :=
  ref_value <- group_strip 1 m ;;
  if _is_valid_reference ref_value then
    let confidence :=
      confidence_modifier pattern
      * _calculate_reference_confidence ref_value text in
    reference <- ProductReference.make ref_value (_normalize_reference ref_value)
                                       (Some (name pattern)) confidence ;;
    Ok (Some reference)
  else Ok None.

Definition _extract_references (text : string)
  : result (list ProductReference.t) :=
  references <- candidates reference_candidate reference_patterns text ;;
  let unique_references := _deduplicate_references references in
  Ok (List.firstn 3 (sorted_desc ProductReference.confidence unique_references)).

Definition characteristic_candidate (text : string) (pattern : ExtractionPattern)
  (m : Re.rmatch) : result (option ProductCharacteristic.t) :=
  let groups := Re.ngroups (Re.body (ProductExtractor.pattern pattern)) in
  if (2 <=? groups)%nat then
    char_name <- group_strip 1 m ;;
    char_value <- group_strip 2 m ;;
    char_unit <- (if (3 <=? groups)%nat
                  then u <- group_strip 3 m ;; Ok (Some u)
                  else Ok None) ;;
    if _is_valid_characteristic char_name char_value then
      Ok (Some (ProductCharacteristic.mk
                  char_name char_value char_unit
                  (Some (_categorize_characteristic char_name))
                  (_normalize_characteristic_name char_name)
                  (_normalize_characteristic_value char_value char_unit)))
    else Ok None
  else Ok None.

Definition _extract_characteristics (text : string)
  : result (list ProductCharacteristic.t) :=
  characteristics <-
    candidates characteristic_candidate characteristic_patterns text ;;
  Ok (_deduplicate_characteristics characteristics).

(** *** The product name *)

Definition re_enumerator : Re.pattern :=
  mkPattern false (seqs [RBol; plus (cls [CDigit]); cls [CChar "."; CChar ")"]]).

Definition re_all_caps : Re.pattern :=
  mkPattern false (seqs [RBol; plus (cls [AZ; CSpace]); REol]).

Definition matches (p : Re.pattern) (s : string) : bool :=
  match Re.match_ p s with Some _ => true | None => false end.

(** What the two patterns test, without the engine. *)
Definition caps_or_space (c : ascii) : bool :=
  Chr.between 65 90 c || Chr.isspace c.

Definition is_all_caps (line : string) : bool :=
  negb (String.eqb line "") && Str.forallb caps_or_space line.

Fixpoint after_digits (s : string) : string :=
  match s with
  | EmptyString => EmptyString
  | String c s' => if Chr.isdecimal c then after_digits s' else s
  end.

Definition is_enumerated (line : string) : bool :=
  match line with
  | EmptyString => false
  | String c _ =>
      Chr.isdecimal c
      && match after_digits line with
         | EmptyString => false
         | String d _ => Ascii.eqb d "." || Ascii.eqb d ")"
         end
  end.

(** The test of the first loop, on a stripped line. *)
Definition name_line (line : string) : bool :=
  (10 <? String.length line)%nat && (String.length line <? 100)%nat
  && negb (matches re_enumerator line) && negb (matches re_all_caps line).

Fixpoint first_name_line (lines : list string) : option string :=
  match lines with
  | [] => None
  | line :: lines' =>
      let line := Str.strip line in
      if name_line line then Some line else first_name_line lines'
  end.

Fixpoint first_nonempty_line (lines : list string) : option string :=
  match lines with
  | [] => None
  | line :: lines' =>
      let line := Str.strip line in
      if truthy line then Some (Str.take 80 line) else first_nonempty_line lines'
  end.

Definition _extract_product_name (text : string) : string :=
  let lines := Str.split Str.newline text in
  match first_name_line lines with
  | Some line => line
  | None =>
      match first_nonempty_line lines with
      | Some line => line
      | None => "Produit extrait"
      end
  end.

(** *** The section loop

    [_generate_product_id] hashes the source name, the section index and
    the clock; it is a parameter.  The per-section step of the loop is a
    parameter too, so that what the loop does with an exception is
    stated for every step; [_extract_products_from_text] is the loop
    over [_extract_single_product]. *)

Section Extraction.
Variable _generate_product_id : string -> nat -> string.

Definition _extract_single_product (text source_path : string)
  (section_idx : nat) : result (option Product.t) :=
  brands <- _extract_brands text ;;
  match brands with
  | [] => Ok None
  | best_brand :: _ =>
      references <- _extract_references text ;;
      match references with
      | [] => Ok None
      | best_reference :: _ =>
          characteristics <- _extract_characteristics text ;;
          let product_name := _extract_product_name text in
          let confidence :=
            _calculate_extraction_confidence brands references characteristics in
          product <- Product.make
                       (Some (_generate_product_id source_path section_idx))
                       product_name best_brand best_reference characteristics
                       None None None (Some "EUR") (Some source_path)
                       confidence ;;
          Ok (Some product)
      end
  end.

Section Loop.
Variable single : string -> string -> nat -> result (option Product.t).

(** [for section_idx, section in enumerate(sections)] with its
    [try] / [except Exception: continue]. *)
Fixpoint sections_loop (source_path : string) (section_idx : nat)
  (sections : list string) (products : list Product.t) : list Product.t :=
  match sections with
  | [] => products
  | section :: sections' =>
      match single section source_path section_idx with
      | Ok (Some product) =>
          sections_loop source_path (S section_idx) sections'
                        (products ++ [product])
      | Ok None => sections_loop source_path (S section_idx) sections' products
      | Raise _ => sections_loop source_path (S section_idx) sections' products
      end
  end.

Definition extract_products_with (sections : list string) (source_path : string)
  : list Product.t :=
  sections_loop source_path 0 sections [].

(** What one section adds to the products. *)
Definition contribution (source_path : string) (idx : nat) (section : string)
  : list Product.t :=
  match single section source_path idx with
  | Ok (Some product) => [product]
  | Ok None => []
  | Raise _ => []
  end.

Fixpoint contributions (source_path : string) (idx : nat)
  (sections : list string) : list Product.t :=
  match sections with
  | [] => []
  | section :: sections' =>
      contribution source_path idx section
      ++ contributions source_path (S idx) sections'
  end.

End Loop.

Definition _extract_products_from_text (text source_path : string)
  : list Product.t :=
  extract_products_with _extract_single_product
    (_split_into_product_sections text) source_path.

Definition extract_from_text (text source_path : string) : list Product.t :=
  _extract_products_from_text text source_path.

End Extraction.

(** *** JSON and XML documents

    [extract_from_json] receives what [json.load] built: [None], a
    [bool], a number, a [str], a [list], or a [dict] with string keys, in
    the order of the document.  [extract_from_xml] receives the root
    [Element] of [xml.etree.ElementTree].  Both turn the document into
    text and hand it to the text extractor.  The recursion limit of the
    interpreter is not modelled. *)

#[warnings="-register-all"] Inductive json : Type :=
| JNull
| JBool (b : bool)
| JNumber (q : Q)
| JString (s : string)
| JArray (items : list json)
| JObject (members : list (string * json)).

(** The inner function [extract_strings] of [_json_to_searchable_text];
    the result is what it appends to [text_parts].  Its [path] argument
    is built and never read. *)
Fixpoint extract_strings (obj : json) : list string :=
  match obj with
  | JObject members =>
      (fix items (members : list (string * json)) : list string :=
         match members with
         | [] => []
         | (key, value) :: members' =>
             match value with
             | JString s => (key ++ ": " ++ s)%string :: items members'
             | _ => extract_strings value ++ items members'
             end
         end) members
  | JArray l =>
      (fix each (l : list json) : list string :=
         match l with
         | [] => []
         | item :: l' => extract_strings item ++ each l'
         end) l
  | JString s => [s]
  | _ => []
  end.

Definition _json_to_searchable_text (data : json) : string :=
  String.concat (String Str.newline "") (extract_strings data).

Module ET.

#[warnings="-register-all"] Inductive Element : Type :=
| mkElement (tag : string) (text : option string)
            (attrib : list (string * string)) (children : list Element)
            (tail : option string).

Definition tag (e : Element) : string := let 'mkElement t _ _ _ _ := e in t.

Definition text (e : Element) : option string :=
  let 'mkElement _ t _ _ _ := e in t.

Definition attrib (e : Element) : list (string * string) :=
  let 'mkElement _ _ a _ _ := e in a.

Definition children (e : Element) : list Element :=
  let 'mkElement _ _ _ c _ := e in c.

Definition tail (e : Element) : option string :=
  let 'mkElement _ _ _ _ t := e in t.

End ET.

Fixpoint _xml_to_searchable_text (element : ET.Element) : string :=
  let text_parts :=
    match ET.text element with
    | Some t => if truthy t && truthy (Str.strip t) then [Str.strip t] else []
    | None => []
    end in
  let text_parts :=
    text_parts
    ++ List.map (fun kv => (fst kv ++ ": " ++ snd kv)%string) (ET.attrib element) in
  let text_parts :=
    text_parts
    ++ (fix each (l : list ET.Element) : list string :=
          match l with
          | [] => []
          | child :: l' => _xml_to_searchable_text child :: each l'
          end) (ET.children element) in
  String.concat (String Str.newline "") text_parts.

Section Formats.
Variable _generate_product_id : string -> nat -> string.

Definition extract_from_json (data : json) (source_path : string)
  : list Product.t :=
  let text_content := _json_to_searchable_text data in
  _extract_products_from_text _generate_product_id text_content source_path.

Definition extract_from_xml (root : ET.Element) (source_path : string)
  : list Product.t :=
  let text_content := _xml_to_searchable_text root in
  _extract_products_from_text _generate_product_id text_content source_path.

End Formats.

(** *** Definitions used to state the properties *)

(** The boost as the specification words it: 0.1 for each occurrence
    after the first one. *)
Definition claimed_brand_boost (brand text : string) : Q :=
  let occurrences :=
    List.length (Re.findall (Re.mkPattern true (Re.escape brand)) text) in
  let extra := Qmin (of_nat (occurrences - 1) * (1 # 10)) (3 # 10) in
  Qmin ((5 # 10) + extra + (if Str.isupper brand then 1 # 10 else 0)) 1.

Definition categories : list string :=
  ["dimension"; "poids"; "materiau"; "couleur"; "electrique"; "puissance"; "autre"].

(** The category names of the specification. *)
Definition claimed_categories : list string :=
  ["dimension"; "weight"; "material"; "color"; "electrical"; "power"; "other"].

(** Scenario A of the specification, the elisions kept as written. *)
Definition scenario_A : string :=
  L1 "Marque: BOSCH ... Référence: GSB120-LI ... Puissance: 120W".

(** The three fields of scenario A on three lines, as in the sample of
    [test_architecture.py]. *)
Definition three_lines : string :=
  String.concat (String Str.newline "")
    [L1 "Marque: BOSCH"; L1 "Référence: GSB120-LI"; L1 "Puissance: 120W"].

Definition brand_keys (l : list ProductBrand.t) : list string :=
  List.map ProductBrand.normalized_name l.

Definition crowded_section : string := "AAA, BBB, CCC, Bosch, Bosch".


(** *** Definitions used to state the further properties *)

(** A string of ASCII characters. *)
Definition ascii_only (s : string) : bool :=
  Str.forallb (fun c => (Chr.code c <? 128)%nat) s.

(** What [_normalize_reference] keeps. *)
Definition is_AZ09 (c : ascii) : bool :=
  Chr.between 65 90 c || Chr.between 48 57 c.

Definition ascii_letter (c : ascii) : bool :=
  Chr.between 65 90 c || Chr.between 97 122 c.

Definition ascii_alnum (c : ascii) : bool :=
  ascii_letter c || Chr.between 48 57 c.

(** Every run of white space becomes one space; [in_run] tells that the
    character before was white space. *)
Fixpoint squeeze (in_run : bool) (s : string) : string :=
  match s with
  | EmptyString => EmptyString
  | String c s' =>
      if Chr.isspace c
      then (if in_run then squeeze true s' else String " " (squeeze true s'))
      else String c (squeeze false s')
  end.

(** The characters [str.upper] and [str.lower] leave as they are. *)
Definition upper_fixed (c : ascii) : bool :=
  negb (Chr.code c =? 223)%nat && Ascii.eqb (Chr.upper c) c.

Definition lower_fixed (c : ascii) : bool := Ascii.eqb (Chr.lower c) c.

Definition reference_keys (l : list ProductReference.t) : list string :=
  List.map ProductReference.normalized_reference l.

Definition characteristic_key (c : ProductCharacteristic.t) : string * string :=
  (ProductCharacteristic.normalized_name c,
   ProductCharacteristic.normalized_value c).

(** The string values of a JSON document, in document order. *)
Fixpoint string_leaves (obj : json) : list string :=
  match obj with
  | JObject members =>
      (fix items (members : list (string * json)) : list string :=
         match members with
         | [] => []
         | (_, value) :: members' => string_leaves value ++ items members'
         end) members
  | JArray l =>
      (fix each (l : list json) : list string :=
         match l with
         | [] => []
         | item :: l' => string_leaves item ++ each l'
         end) l
  | JString s => [s]
  | _ => []
  end.

(** The same tree with other tags and tails. *)
Fixpoint relabel (f : string -> string) (g : option string -> option string)
  (element : ET.Element) : ET.Element :=
  ET.mkElement (f (ET.tag element)) (ET.text element) (ET.attrib element)
    ((fix each (l : list ET.Element) : list ET.Element :=
        match l with
        | [] => []
        | child :: l' => relabel f g child :: each l'
        end) (ET.children element))
    (g (ET.tail element)).

(** The lines an element gives by itself: its text when it is not blank,
    then its attributes. *)
Definition own_parts (element : ET.Element) : list string :=
  match ET.text element with
  | Some t => if truthy (Str.strip t) then [Str.strip t] else []
  | None => []
  end
  ++ List.map (fun kv => (fst kv ++ ": " ++ snd kv)%string) (ET.attrib element).

Definition or_blank (parts : list string) : list string :=
  match parts with
  | [] => [EmptyString]
  | _ :: _ => parts
  end.

(** The lines of a tree, in document order; an element without any
    gives one empty line to its parent. *)
Fixpoint xml_lines (element : ET.Element) : list string :=
  own_parts element
  ++ (fix each (l : list ET.Element) : list string :=
        match l with
        | [] => []
        | child :: l' => or_blank (xml_lines child) ++ each l'
        end) (ET.children element).

End ProductExtractor.

(** ** The hybrid retriever ([app/vectorstore/hybrid_retriever.py]) *)

Module HybridRetriever.

(** A filter or metadata value. *)
Inductive value : Type :=
| VStr (s : string)
| VNum (q : Q).

(** The metadata dictionary of a stored document: a key is present or
    not. *)
Record Metadata : Type := mkMetadata {
  product_id : option string;
  product_name : option string;
  brand_name : option string;
  brand_normalized : option string;
  md_reference : option string;
  reference_normalized : option string;
  md_source_document : option string;
  md_extraction_confidence : option Q;
  md_category : option string;
  md_price : option Q;
  md_currency : option string;
  characteristics_count : option nat
}.

Definition empty_metadata : Metadata :=
  mkMetadata None None None None None None None None None None None None.

(** A condition of a [where] clause: equality with a value, a
    [$contains] test, or an [$or] of conditions on named fields. *)
Inductive test : Type :=
| Equals (v : value)
| Contains (needle : string).

Inductive condition : Type :=
| Test (t : test)
| AnyOf (alternatives : list (string * test)).

Definition dict : Type := list (string * value).
Definition where_clause : Type := list (string * condition).

(** [d.update(filters)]: a present key keeps its place and takes the new
    value, a new key goes to the end. *)
Fixpoint dict_set {V} (k : string) (v : V) (d : list (string * V))
  : list (string * V) :=
  match d with
  | [] => [(k, v)]
  | (k', v') :: d' =>
      if String.eqb k k' then (k, v) :: d' else (k', v') :: dict_set k v d'
  end.

Definition update (w : where_clause) (filters : dict) : where_clause :=
  List.fold_left (fun acc kv => dict_set (fst kv) (Test (Equals (snd kv))) acc) filters w.

(** What [collection.query] answers for one query text. *)
Record QueryResult : Type := mkQueryResult {
  ids : list (list string);
  distances : option (list (list Q));
  metadatas : option (list (list Metadata));
  documents : option (list (list string))
}.

(** What [collection.get] answers. *)
Record GetResult : Type := mkGetResult {
  get_documents : list string;
  get_metadatas : list Metadata
}.

(** The collaborators: the Chroma collection, the BM25 ranking, numpy's
    [argsort] and the identifier generator. *)
Class Backend : Type := {
  Collection : Type;
  collection_add :
    Collection -> list string -> list Metadata -> list string -> result Collection;
  collection_query :
    Collection -> string -> Z -> where_clause -> result QueryResult;
  collection_get : Collection -> result GetResult;
  collection_count : Collection -> result nat;
  BM25 : Type;
  BM25Okapi : list (list string) -> result BM25;
  get_scores : BM25 -> list string -> list Q;
  argsort : list Q -> list nat;
  uuid4 : nat -> string
}.

(** [l[:n]] for any integer [n]. *)
Definition slice_to {A} (n : Z) (l : list A) : list A :=
  if (0 <=? n)%Z then List.firstn (Z.to_nat n) l
  else List.firstn (List.length l - Z.to_nat (- n)) l.

Definition or_else {A} (o : option A) (d : A) : A :=
  match o with Some a => a | None => d end.

(** [o or d] for an optional string: [None] and the empty string give [d]. *)
Definition str_or (o : option string) (d : string) : string :=
  match o with
  | Some s => if String.eqb s "" then d else s
  | None => d
  end.

(** [o or d] for an optional number: [None] and zero give [d]. *)
Definition num_or (o : option Q) (d : Q) : Q :=
  match o with
  | Some q => if Qeq_bool q 0 then d else q
  | None => d
  end.

(** [s.split()]: the maximal runs without white space. *)
Fixpoint words_from (cur : string) (s : string) : list string :=
  match s with
  | EmptyString => if String.eqb cur "" then [] else [cur]
  | String c s' =>
      if Chr.isspace c
      then (if String.eqb cur "" then words_from "" s'
            else cur :: words_from "" s')
      else words_from (cur ++ String c EmptyString)%string s'
  end.

Definition tokens (s : string) : list string := words_from "" (Str.lower s).

Definition truthy_opt (o : option string) : bool :=
  match o with Some s => negb (String.eqb s "") | None => false end.

Definition _create_searchable_text (product : Product.t) : string :=
  let parts :=
    [Product.name product;
     ProductBrand.name (Product.brand product);
     ProductReference.reference (Product.reference product)] in
  let parts :=
    if truthy_opt (Product.description product)
    then parts ++ [or_else (Product.description product) ""] else parts in
  let parts :=
    if truthy_opt (Product.category product)
    then parts ++ [or_else (Product.category product) ""] else parts in
  let parts :=
    parts ++
    List.map
      (fun char =>
         let char_text :=
           (ProductCharacteristic.name char ++ ": "
            ++ ProductCharacteristic.value char)%string in
         if truthy_opt (ProductCharacteristic.unit char)
         then (char_text ++ " " ++ or_else (ProductCharacteristic.unit char) "")%string
         else char_text)
      (Product.characteristics product) in
  String.concat " | " (List.filter (fun s => negb (String.eqb s "")) parts).

Definition _reconstruct_product_from_metadata (metadata : Metadata)
  (document : string) : result Product.t :=
  brand <- ProductBrand.make (or_else (brand_name metadata) "")
                             (or_else (brand_normalized metadata) "") [] 1 ;;
  reference <- ProductReference.make (or_else (md_reference metadata) "")
                                     (or_else (reference_normalized metadata) "")
                                     None 1 ;;
  Product.make (product_id metadata) (or_else (product_name metadata) "")
               brand reference [] None (md_category metadata) (md_price metadata)
               (Some (or_else (md_currency metadata) "EUR"))
               (md_source_document metadata)
               (or_else (md_extraction_confidence metadata) 1).

(** One filter against one product; an ordering test of a number against
    a string is a [TypeError]. *)
Definition filter_rejects (product : Product.t) (key : string) (v : value)
  : result bool :=
  if String.eqb key "brand_name" then
    match v with
    | VStr s => Ok (negb (String.eqb (ProductBrand.name (Product.brand product)) s))
    | VNum _ => Ok true
    end
  else if String.eqb key "category" then
    match v, Product.category product with
    | VStr s, Some c => Ok (negb (String.eqb c s))
    | _, _ => Ok true
    end
  else if String.eqb key "min_price" then
    match v with
    | VNum q => Ok (Qltb (num_or (Product.price product) 0) q)
    | VStr _ => Raise "TypeError"
    end
  else if String.eqb key "max_price" then
    match v with
    | VNum q => Ok (Qltb q (num_or (Product.price product) 0))
    | VStr _ => Raise "TypeError"
    end
  else Ok false.

Fixpoint filters_loop (product : Product.t) (items : dict) : result bool :=
  match items with
  | [] => Ok true
  | (key, v) :: items' =>
      rejected <- filter_rejects product key v ;;
      if rejected then Ok false else filters_loop product items'
  end.

Definition _apply_filters (product : Product.t) (filters : option dict)
  : result bool :=
  match filters with
  | None | Some [] => Ok true
  | Some items => filters_loop product items
  end.

Definition scored : Type := (Product.t * Q)%type.

Definition nth_or_raise {A} (l : list A) (i : nat) : result A :=
  match List.nth_error l i with
  | Some a => Ok a
  | None => Raise "IndexError"
  end.

(** The first row of an optional column of a query answer, or [n]
    copies of a default when the column is missing or empty. *)
Definition first_row {A} (col : option (list (list A))) (d : A) (n : nat)
  : list A :=
  match col with
  | Some (row :: _) => row
  | _ => List.repeat d n
  end.

(** The body of the loop of [_process_chroma_results] at index [i]. *)
Definition process_row (distances : list Q) (metadatas : list Metadata)
  (documents : list string) (similarity_threshold : Q) (i : nat)
  : result (option scored) :=
  similarity <- match distances with
                | [] => Ok (5 # 10)
                | _ :: _ => d <- nth_or_raise distances i ;; Ok (1 - d)
                end ;;
  if Qle_bool similarity_threshold similarity then
    metadata <- nth_or_raise metadatas i ;;
    document <- nth_or_raise documents i ;;
    product <- _reconstruct_product_from_metadata metadata document ;;
    Ok (Some (product, similarity))
  else Ok None.

Definition _process_chroma_results (results : QueryResult)
  (similarity_threshold : Q) : result (list scored) :=
  match ids results with
  | [] | [] :: _ => Ok []
  | row_ids :: _ =>
      let n := List.length row_ids in
      let distances := first_row (distances results) 0 n in
      let metadatas := first_row (metadatas results) empty_metadata n in
      let documents := first_row (documents results) "" n in
      collect
        (List.map (process_row distances metadatas documents similarity_threshold)
                  (List.seq 0 n))
  end.

(** *** Fusion *)

Definition key_eqb (a b : option string) : bool :=
  match a, b with
  | Some x, Some y => String.eqb x y
  | None, None => true
  | _, _ => false
  end.

(** The dictionary [combined]: keys in order of first insertion. *)
Definition combined_dict : Type := list (option string * scored).

Fixpoint get (k : option string) (d : combined_dict) : option scored :=
  match d with
  | [] => None
  | (k', v) :: d' => if key_eqb k k' then Some v else get k d'
  end.

Fixpoint set (k : option string) (v : scored) (d : combined_dict)
  : combined_dict :=
  match d with
  | [] => [(k, v)]
  | (k', v') :: d' =>
      if key_eqb k k' then (k, v) :: d' else (k', v') :: set k v d'
  end.

(** The literals [0.7] and [0.3]: the floats nearest to 7/10 and 3/10. *)
Definition semantic_weight : Q := F64.rnd (7 # 10).
Definition bm25_weight : Q := F64.rnd (3 # 10).

Definition add_semantic (combined : combined_dict) (r : scored) : combined_dict :=
  let '(product, score) := r in
  set (Product.id product) (product, F64.mul score semantic_weight) combined.

Definition add_bm25 (combined : combined_dict) (r : scored) : combined_dict :=
  let '(product, score) := r in
  let product_id := Product.id product in
  match get product_id combined with
  | Some (existing_product, existing_score) =>
      let new_score := F64.add existing_score (F64.mul score bm25_weight) in
      set product_id (existing_product, new_score) combined
  | None => set product_id (product, F64.mul score bm25_weight) combined
  end.

Definition combine_dict (semantic_results bm25_results : list scored)
  : combined_dict :=
  List.fold_left add_bm25 bm25_results
    (List.fold_left add_semantic semantic_results []).

Definition _combine_search_results (semantic_results bm25_results : list scored)
  : list scored :=
  let combined := combine_dict semantic_results bm25_results in
  let results := List.map snd combined in
  sorted_desc snd results.

(** *** Definitions used to state the fusion properties *)

Definition ids_of (l : list scored) : list (option string) :=
  List.map (fun r => Product.id (fst r)) l.

(** The result of a list that carries the product id [k]. *)
Definition entry_of (l : list scored) (k : option string) : option scored :=
  List.find (fun r => key_eqb k (Product.id (fst r))) l.

(** The score of product [k] in a result list, 0 when it is missing. *)
Definition score_or_zero (l : list scored) (k : option string) : Q :=
  match entry_of l k with
  | Some r => snd r
  | None => 0
  end.

Definition keys (d : combined_dict) : list (option string) := List.map fst d.

(** Every entry is filed under the id of its product. *)
Definition filed (d : combined_dict) : Prop :=
  forall k r, In (k, r) d -> Product.id (fst r) = k.

(** The dictionary is well formed: keys are distinct and entries are
    filed under their product's id. *)
Definition wf (d : combined_dict) : Prop := NoDup (keys d) /\ filed d.

(** The characters of a reference written with ASCII letters, digits,
    hyphens and spaces only. *)
Definition plain_reference_char (c : ascii) : bool :=
  Chr.between 65 90 c || Chr.between 97 122 c || Chr.between 48 57 c
  || Ascii.eqb c "-" || Ascii.eqb c " ".

(** The score [acc] after 0.3 times each score the lexical list gives
    product [k] was added to it, in the order of the list. *)
Fixpoint lexical_sum (l : list scored) (k : option string) (acc : Q) : Q :=
  match l with
  | [] => acc
  | r :: l' =>
      if key_eqb k (Product.id (fst r))
      then lexical_sum l' k (F64.add acc (F64.mul (snd r) bm25_weight))
      else lexical_sum l' k acc
  end.

(** *** The retriever and its operations *)

Section Retriever.
Context {B : Backend}.

Record t : Type := mk {
  collection : Collection;
  bm25_index : option BM25;
  documents_ : list string;
  products_ : list Product.t
}.

Definition _semantic_search (self : t) (query : string) (max_results : Z)
  (similarity_threshold : Q) (filters : option dict) : result (list scored) :=
  results <- collection_query (collection self) query max_results
               (update [] (or_else filters [])) ;;
  _process_chroma_results results similarity_threshold.

Definition _search_by_brand (self : t) (query : string) (max_results : Z)
  (similarity_threshold : Q) (filters : option dict) : result (list scored) :=
  let where_ :=
    [("$or", AnyOf [("brand_name", Contains query);
                    ("brand_normalized", Contains (Str.upper query))])] in
  let where_ := update where_ (or_else filters []) in
  results <- collection_query (collection self) query max_results where_ ;;
  _process_chroma_results results similarity_threshold.

Definition _search_by_reference (self : t) (query : string) (max_results : Z)
  (similarity_threshold : Q) (filters : option dict) : result (list scored) :=
  let normalized_query :=
    Str.filter (fun c => negb (Ascii.eqb c "-" || Ascii.eqb c " "))
               (Str.upper query) in
  let where_ :=
    [("$or", AnyOf [("reference", Contains query);
                    ("reference_normalized", Contains normalized_query)])] in
  let where_ := update where_ (or_else filters []) in
  results <- collection_query (collection self) query max_results where_ ;;
  _process_chroma_results results similarity_threshold.

Definition _search_by_characteristics (self : t) (query : string)
  (max_results : Z) (similarity_threshold : Q) (filters : option dict)
  : result (list scored) :=
  _semantic_search self query max_results (8 # 10) filters.

(** The body of the loop of [_bm25_search] at index [idx]. *)
Definition bm25_row (self : t) (scores : list Q) (filters : option dict)
  (idx : nat) : result (option scored) :=
  score <- nth_or_raise scores idx ;;
  if Qltb 0 score then
    product <- nth_or_raise (products_ self) idx ;;
    keep <- _apply_filters product filters ;;
    if keep then Ok (Some (product, Qmin (score / 10) 1)) else Ok None
  else Ok None.

Definition _bm25_search (self : t) (query : string) (max_results : Z)
  (filters : option dict) : result (list scored) :=
  match bm25_index self, documents_ self with
  | None, _ | _, [] => Ok []
  | Some index, _ :: _ =>
      let query_tokens := tokens query in
      let scores := get_scores index query_tokens in
      let top_indices := slice_to max_results (List.rev (argsort scores)) in
      collect (List.map (bm25_row self scores filters) top_indices)
  end.

Definition _hybrid_search (self : t) (query : string) (max_results : Z)
  (similarity_threshold : Q) (filters : option dict) : result (list scored) :=
  semantic_results <-
    _semantic_search self query max_results similarity_threshold filters ;;
  bm25_results <- match bm25_index self with
                  | Some _ => _bm25_search self query max_results filters
                  | None => Ok []
                  end ;;
  let combined_results := _combine_search_results semantic_results bm25_results in
  Ok (slice_to max_results combined_results).

(** [search_products] for a member of [MatchingStage]; the source's last
    branch, for a stage that is none of the three members, is outside
    this type.  Any exception becomes a [VectorStoreError]. *)
Definition search_products (self : t) (query : string) (stage : MatchingStage)
  (max_results : Z) (similarity_threshold : Q) (filters : option dict)
  : result (list scored) :=
  let results :=
    match stage with
    | BRAND_MATCHING =>
        _search_by_brand self query max_results similarity_threshold filters
    | REFERENCE_MATCHING =>
        _search_by_reference self query max_results similarity_threshold filters
    | CHARACTERISTIC_MATCHING =>
        _search_by_characteristics self query max_results similarity_threshold
                                   filters
    end in
  match results with
  | Ok r => Ok r
  | Raise _ => Raise "VectorStoreError"
  end.

(** The metadata [add_products] stores with a product. *)
Definition metadata_of (product : Product.t) : Metadata :=
  mkMetadata
    (Product.id product)
    (Some (Product.name product))
    (Some (ProductBrand.name (Product.brand product)))
    (Some (ProductBrand.normalized_name (Product.brand product)))
    (Some (ProductReference.reference (Product.reference product)))
    (Some (ProductReference.normalized_reference (Product.reference product)))
    (Some (str_or (Product.source_document product) ""))
    (Some (Product.extraction_confidence product))
    (Some (str_or (Product.category product) "unknown"))
    (Some (num_or (Product.price product) 0))
    (Some (str_or (Product.currency product) "EUR"))
    (Some (List.length (Product.characteristics product))).

Definition doc_id_of (i : nat) (product : Product.t) : string :=
  match Product.id product with
  | Some s => if String.eqb s "" then uuid4 i else s
  | None => uuid4 i
  end.

Fixpoint doc_ids_from (i : nat) (ps : list Product.t) : list string :=
  match ps with
  | [] => []
  | product :: ps' => doc_id_of i product :: doc_ids_from (S i) ps'
  end.

Fixpoint reconstruct_all (rows : list (Metadata * string))
  : result (list Product.t) :=
  match rows with
  | [] => Ok []
  | (meta, doc) :: rows' =>
      product <- _reconstruct_product_from_metadata meta doc ;;
      rest <- reconstruct_all rows' ;;
      Ok (product :: rest)
  end.

(** [_update_bm25_index]: every exception is logged and swallowed; what
    was assigned before it stays assigned. *)
Definition _update_bm25_index (self : t) : t :=
  match collection_get (collection self) with
  | Raise _ => self
  | Ok all_results =>
      match get_documents all_results with
      | [] => self
      | docs =>
          let tokenized_docs := List.map tokens docs in
          match BM25Okapi tokenized_docs with
          | Raise _ => self
          | Ok index =>
              let self1 :=
                mk (collection self) (Some index) docs (products_ self) in
              match reconstruct_all
                      (List.combine (get_metadatas all_results) docs) with
              | Raise _ => self1
              | Ok ps => mk (collection self1) (bm25_index self1)
                            (documents_ self1) ps
              end
          end
      end
  end.

Definition add_products (self : t) (products : list Product.t)
  : t * result unit :=
  match products with
  | [] => (self, Ok tt)
  | _ :: _ =>
      let documents := List.map _create_searchable_text products in
      let metadatas := List.map metadata_of products in
      let ids := doc_ids_from 0 products in
      match collection_add (collection self) documents metadatas ids with
      | Raise _ => (self, Raise "VectorStoreError")
      | Ok collection' =>
          let self1 :=
            mk collection' (bm25_index self) (documents_ self)
               (products_ self) in
          (_update_bm25_index self1, Ok tt)
      end
  end.

(** What [get_stats] answers: the statistics, or the error entry. *)
Inductive stats : Type :=
| Stats (total_documents : nat) (bm25_enabled : bool)
| StatsError.

Definition get_stats (self : t) : stats :=
  match collection_count (collection self) with
  | Ok count =>
      Stats count (match bm25_index self with Some _ => true | None => false end)
  | Raise _ => StatsError
  end.

End Retriever.

End HybridRetriever.

(** * Examples on a small backend

    An in-memory backend for the examples: the collection is the list of
    what was added; the distance of a document to a query is the share of
    the query's tokens the document lacks; the lexical score of a document
    is four times the number of the query's tokens it has. *)

Module Memory.
Import ProductExtractor HybridRetriever.

Definition entry : Type := (string * string * Metadata)%type.

Fixpoint zip3 (docs : list string) (metas : list Metadata) (ids : list string)
  : list entry :=
  match docs, metas, ids with
  | d :: docs', m :: metas', i :: ids' => (i, d, m) :: zip3 docs' metas' ids'
  | _, _, _ => []
  end.

Definition has_token (doc : list string) (w : string) : bool :=
  List.existsb (String.eqb w) doc.

Definition hits (query doc : list string) : nat :=
  List.length (List.filter (has_token doc) query).

Definition distance (query document : string) : Q :=
  match tokens query with
  | [] => 1
  | q => 1 - ProductExtractor.of_nat (hits q (tokens document))
             / ProductExtractor.of_nat (List.length q)
  end.

Definition query (c : list entry) (text : string) (n : Z) (w : where_clause)
  : result QueryResult :=
  if (n <=? 0)%Z then Raise "ValueError"
  else
    let top := List.firstn (Z.to_nat n) c in
    Ok (mkQueryResult
          [List.map (fun e => fst (fst e)) top]
          (Some [List.map (fun e => distance text (snd (fst e))) top])
          (Some [List.map snd top])
          (Some [List.map (fun e => snd (fst e)) top])).

Fixpoint insert_asc (x : nat * Q) (l : list (nat * Q)) : list (nat * Q) :=
  match l with
  | [] => [x]
  | y :: l' => if Qltb (snd y) (snd x) then y :: insert_asc x l' else x :: l
  end.

Definition argsort (scores : list Q) : list nat :=
  List.map fst
    (List.fold_right insert_asc []
       (List.combine (List.seq 0 (List.length scores)) scores)).

Definition backend : Backend := {|
  Collection := list entry;
  collection_add := fun c docs metas ids => Ok (c ++ zip3 docs metas ids);
  collection_query := query;
  collection_get := fun c =>
    Ok (mkGetResult (List.map (fun e => snd (fst e)) c) (List.map snd c));
  collection_count := fun c => Ok (List.length c);
  BM25 := list (list string);
  BM25Okapi := fun docs => Ok docs;
  get_scores := fun index q =>
    List.map (fun doc => ProductExtractor.of_nat (4 * hits q doc)) index;
  HybridRetriever.argsort := argsort;
  uuid4 := fun _ => "00000000-0000-4000-8000-000000000000"
|}.

Definition gid (source_path : string) (section_idx : nat) : string :=
  (source_path ++ (if (section_idx =? 0)%nat then "#0" else "#n"))%string.

Definition second_text : string :=
  L1 "Marque: MAKITA ... Référence: HS7100 ... Puissance: 1400W".

Definition catalogue : list Product.t :=
  extract_from_text gid scenario_A "bosch.txt"
  ++ extract_from_text gid second_text "makita.txt".

Definition empty_store : HybridRetriever.t (B := backend) :=
  HybridRetriever.mk (B := backend) [] None [] [].

Definition store : HybridRetriever.t (B := backend) :=
  fst (add_products empty_store catalogue).

Definition the_query : string := "bosch gsb120-li makita".

Definition char_query : string := "bosch gsb120-li".

Definition unwrap {A} (r : result (list A)) : list A :=
  match r with Ok l => l | Raise _ => [] end.

Definition sem_results : list scored :=
  unwrap (_semantic_search store the_query 5 (1 # 2) None).

Definition lex_results : list scored :=
  unwrap (_bm25_search store the_query 5 None).

Definition no_product : Product.t :=
  Product.mk None "" (ProductBrand.mk "" "" [] 0)
             (ProductReference.mk "" "" None 0) [] None None None None None 0.

Definition bosch_product : Product.t :=
  Eval vm_compute in
    List.hd no_product (extract_from_text gid scenario_A "bosch.txt").

(** A per-section step that raises on the section "???". *)
Definition flaky (section source_path : string) (section_idx : nat)
  : result (option Product.t) :=
  if String.eqb section "???" then Raise "RuntimeError"
  else _extract_single_product gid section source_path section_idx.



(** Inputs of the examples of the further properties. *)

Definition no_brand : ProductBrand.t := ProductBrand.mk "" "" [] 0.

Definition no_reference : ProductReference.t :=
  ProductReference.mk "" "" None 0.

Definition no_characteristic : ProductCharacteristic.t :=
  ProductCharacteristic.mk "" "" None None "" "".

Definition scenario_brands : list ProductBrand.t :=
  Eval vm_compute in unwrap (_extract_brands scenario_A).

Definition scenario_references : list ProductReference.t :=
  Eval vm_compute in unwrap (_extract_references scenario_A).

Definition scenario_characteristics : list ProductCharacteristic.t :=
  Eval vm_compute in unwrap (_extract_characteristics scenario_A).

Definition some_brand : ProductBrand.t :=
  Eval vm_compute in List.hd no_brand scenario_brands.

Definition some_reference : ProductReference.t :=
  Eval vm_compute in List.hd no_reference scenario_references.

Definition some_characteristic : ProductCharacteristic.t :=
  Eval vm_compute in List.hd no_characteristic scenario_characteristics.

Definition brand_results : list scored :=
  Eval vm_compute in
    unwrap (search_products store "bosch" BRAND_MATCHING 5 (1 # 2) None).

Definition some_result : scored :=
  Eval vm_compute in List.hd (no_product, 0) brand_results.

(** What the collection answers to [char_query]. *)
Definition answer : QueryResult :=
  Eval vm_compute in
    match query (collection store) char_query 5 [] with
    | Ok a => a
    | Raise _ => mkQueryResult [] None None None
    end.

Definition loose_results : list scored :=
  Eval vm_compute in unwrap (_process_chroma_results answer (1 # 10)).

(** The store without its BM25 index. *)
Definition unindexed : HybridRetriever.t (B := backend) :=
  HybridRetriever.mk (B := backend) (collection store) None [] [].

Definition unindexed_results : list scored :=
  Eval vm_compute in unwrap (_hybrid_search unindexed the_query 5 (1 # 2) None).

Definition some_unindexed_result : scored :=
  Eval vm_compute in List.hd (no_product, 0) unindexed_results.

(** The lexical results twice over. *)
Definition repeated_lex : list scored := lex_results ++ lex_results.

Definition some_fused : scored :=
  Eval vm_compute in
    List.hd (no_product, 0) (_combine_search_results sem_results repeated_lex).

(** Inputs of the examples of the fusion.  For the backend
    [flat_backend d] every document lies at the distance [d] of every
    query (a cosine distance lies between 0 and 2) and the lexical score
    of a document is five times the number of the query's tokens it
    has. *)

Definition flat_query (d : Q) (c : list entry) (text : string) (n : Z)
  (w : where_clause) : result QueryResult :=
  if (n <=? 0)%Z then Raise "ValueError"
  else
    let top := List.firstn (Z.to_nat n) c in
    Ok (mkQueryResult
          [List.map (fun e => fst (fst e)) top]
          (Some [List.map (fun _ => d) top])
          (Some [List.map snd top])
          (Some [List.map (fun e => snd (fst e)) top])).

Definition flat_backend (d : Q) : Backend := {|
  Collection := list entry;
  collection_add := fun c docs metas ids => Ok (c ++ zip3 docs metas ids);
  collection_query := flat_query d;
  collection_get := fun c =>
    Ok (mkGetResult (List.map (fun e => snd (fst e)) c) (List.map snd c));
  collection_count := fun c => Ok (List.length c);
  BM25 := list (list string);
  BM25Okapi := fun docs => Ok docs;
  get_scores := fun index q =>
    List.map (fun doc => ProductExtractor.of_nat (5 * hits q doc)) index;
  HybridRetriever.argsort := argsort;
  uuid4 := fun _ => "00000000-0000-4000-8000-000000000000"
|}.

Definition flat_store (d : Q) : HybridRetriever.t (B := flat_backend d) :=
  fst (add_products (HybridRetriever.mk (B := flat_backend d) [] None [] [])
                    catalogue).

(** The catalogue at the distance 1/4 of every query. *)
Definition near_store : HybridRetriever.t (B := flat_backend (1 # 4)) :=
  flat_store (1 # 4).

Definition near_sem : list scored :=
  Eval vm_compute in unwrap (_semantic_search near_store the_query 5 (1 # 2) None).

Definition near_lex : list scored :=
  Eval vm_compute in unwrap (_bm25_search near_store the_query 5 None).

(** The catalogue at the distance 3/2 of every query: every similarity
    is -1/2. *)
Definition far_store : HybridRetriever.t (B := flat_backend (3 # 2)) :=
  flat_store (3 # 2).

Definition far_sem : list scored :=
  Eval vm_compute in unwrap (_semantic_search far_store the_query 5 (-1) None).

Definition far_lex : list scored :=
  Eval vm_compute in unwrap (_bm25_search far_store the_query 5 None).

Definition far_fused : list scored :=
  Eval vm_compute in unwrap (_hybrid_search far_store the_query 5 (-1) None).

(** The first semantic, lexical and fused results: the same product. *)
Definition far_semantic : scored :=
  Eval vm_compute in List.hd (no_product, 0) far_sem.

Definition far_lexical : scored :=
  Eval vm_compute in List.hd (no_product, 0) far_lex.

Definition far_result : scored :=
  Eval vm_compute in List.hd (no_product, 0) far_fused.

(** Two products that exact arithmetic would give the same fused score,
    49/100: the semantic scores are 0.7 and 0.4, the one lexical score is
    0.7. *)
Definition named (id : string) : Product.t :=
  Product.mk (Some id) id no_brand no_reference [] None None None None None 0.

Definition tie_sem : list scored :=
  [(named "p1", F64.rnd (7 # 10)); (named "p2", F64.rnd (4 # 10))].

Definition tie_lex : list scored := [(named "p2", F64.rnd (7 # 10))].

Definition tie_fused : list scored :=
  Eval vm_compute in _combine_search_results tie_sem tie_lex.

(** A document without a string value. *)
Definition numbers_only : json :=
  JObject [("price", JNumber (25 # 2));
           ("stock", JArray [JNumber 3; JBool true; JNull])].

End Memory.

(** * Properties *)

(** ** General lemmas *)

Lemma Qltb_false_le (x y : Q) : Qltb x y = false -> y <= x.
Proof.
  unfold Qltb. intros H. apply negb_false_iff in H. now apply Qle_bool_iff.
Qed.

Lemma Qltb_true_lt (x y : Q) : Qltb x y = true -> x < y.
Proof.
  unfold Qltb. intros H. apply negb_true_iff in H.
  apply Qnot_le_lt. intros Hle. apply Qle_bool_iff in Hle. congruence.
Qed.

Lemma unit_interval_spec (x : Q) : unit_interval x = true <-> 0 <= x <= 1.
Proof.
  unfold unit_interval. rewrite andb_true_iff, !Qle_bool_iff. tauto.
Qed.

Section SortDescFacts.
Context {A : Type} (key : A -> Q).

Lemma insert_desc_perm (x : A) (l : list A) :
  Permutation (insert_desc key x l) (x :: l).
Proof.
  induction l as [|y l IH]; simpl; [reflexivity|].
  destruct (Qltb (key x) (key y)); [|reflexivity].
  rewrite IH. apply perm_swap.
Qed.

Lemma sorted_desc_perm (l : list A) : Permutation (sorted_desc key l) l.
Proof.
  induction l as [|x l IH]; simpl; [reflexivity|].
  rewrite insert_desc_perm. now constructor.
Qed.

Lemma insert_desc_sorted (x : A) (l : list A) :
  StronglySorted (desc key) l -> StronglySorted (desc key) (insert_desc key x l).
Proof.
  induction l as [|y l IH]; intros Hs; simpl.
  - repeat constructor.
  - inversion Hs as [|? ? Hl Hy]; subst.
    destruct (Qltb (key x) (key y)) eqn:E.
    + constructor; [now apply IH|].
      apply Forall_forall. intros z Hz.
      apply (Permutation_in _ (insert_desc_perm x l)) in Hz.
      destruct Hz as [<-|Hz].
      * apply Qlt_le_weak. now apply Qltb_true_lt.
      * rewrite Forall_forall in Hy. now apply Hy.
    + apply Qltb_false_le in E.
      constructor; [assumption|].
      constructor; [exact E|].
      rewrite Forall_forall in Hy |- *. intros z Hz.
      unfold desc in *. eapply Qle_trans; [now apply Hy | exact E].
Qed.

Lemma sorted_desc_sorted (l : list A) : StronglySorted (desc key) (sorted_desc key l).
Proof.
  induction l as [|x l IH]; simpl; [constructor|].
  now apply insert_desc_sorted.
Qed.

Lemma sorted_desc_in (x : A) (l : list A) : In x (sorted_desc key l) <-> In x l.
Proof.
  split; apply Permutation_in; [|symmetry]; apply sorted_desc_perm.
Qed.

Lemma sorted_desc_length (l : list A) :
  List.length (sorted_desc key l) = List.length l.
Proof. apply Permutation_length, sorted_desc_perm. Qed.

Lemma firstn_sorted (n : nat) (l : list A) :
  StronglySorted (desc key) l -> StronglySorted (desc key) (List.firstn n l).
Proof.
  revert n. induction l as [|x l IH]; intros [|n] Hs; simpl; try constructor.
  - inversion Hs; subst. now apply IH.
  - inversion Hs as [|? ? _ Hx]; subst.
    rewrite Forall_forall in Hx |- *. intros y Hy.
    apply Hx. eapply (In_nth_error) in Hy. destruct Hy as [i Hi].
    apply nth_error_In with (n := i).
    destruct (Nat.lt_ge_cases i n) as [Hlt|Hge].
    + now rewrite nth_error_firstn, (proj2 (Nat.ltb_lt _ _) Hlt) in Hi.
    + rewrite nth_error_firstn in Hi.
      destruct (Nat.ltb_spec i n); [lia | discriminate].
Qed.

End SortDescFacts.

Lemma firstn_incl {A} (n : nat) (l : list A) (x : A) :
  In x (List.firstn n l) -> In x l.
Proof.
  revert n. induction l as [|y l IH]; intros [|n]; simpl; try tauto.
  intros [->|H]; [now left | right; eauto].
Qed.

(** What [collect] returns is what its steps produced, in order. *)
Lemma collect_in {A} (steps : list (result (option A))) (l : list A) (a : A) :
  collect steps = Ok l -> In a l -> In (Ok (Some a)) steps.
Proof.
  revert l. induction steps as [|st steps IH]; simpl; intros l H Ha.
  - injection H as <-. contradiction.
  - destruct st as [o|e]; simpl in H; [|discriminate].
    destruct (collect steps) as [l'|e]; simpl in H; [|discriminate].
    injection H as <-.
    destruct o as [b|].
    + destruct Ha as [->|Ha]; [now left | right; eauto].
    + right; eauto.
Qed.

(** ** The pattern engine: groups *)

Section GroupFacts.
Variable ic : bool.
Variable R : Type.
Variable n : nat.

Lemma bound_cons (m : nat) (g : string) (cs : Re.captures) :
  (n =? m)%nat = true \/ Re.bound n cs -> Re.bound n ((m, g) :: cs).
Proof.
  unfold Re.bound. simpl. destruct (n =? m)%nat; [discriminate|].
  intros [H|H]; [discriminate | exact H].
Qed.

Lemma rep_loop_binds
  (step : Re.cursor -> Re.captures ->
          (Re.cursor -> Re.captures -> option R) -> option R)
  (lo : nat) (hi : option nat)
  (k : Re.cursor -> Re.captures -> option R) (sb : bool) :
  (forall cu cs k' x,
     step cu cs k' = Some x ->
     exists cu' cs',
       k' cu' cs' = Some x /\ (sb = true \/ Re.bound n cs -> Re.bound n cs')) ->
  forall fuel count cu0 cs0 x,
    Re.rep_loop R step lo hi k fuel count cu0 cs0 = Some x ->
    exists cu' cs',
      k cu' cs' = Some x
      /\ (Re.bound n cs0 \/ (sb = true /\ (count < lo)%nat) -> Re.bound n cs').
Proof.
  intros Hstep.
  assert (Hstop : forall count cu0 cs0 x,
             (if (lo <=? count)%nat then k cu0 cs0 else None) = Some x ->
             exists cu' cs',
               k cu' cs' = Some x
               /\ (Re.bound n cs0 \/ (sb = true /\ (count < lo)%nat) ->
                   Re.bound n cs')).
  { intros count cu0 cs0 x H. destruct (lo <=? count)%nat eqn:E; [|discriminate].
    exists cu0, cs0. split; [exact H|]. apply Nat.leb_le in E.
    intros [Hb|[_ Hlt]]; [exact Hb | lia]. }
  induction fuel as [|fuel IH]; intros count cu0 cs0 x H; simpl in H.
  - now apply (Hstop count cu0 cs0).
  - destruct (Re.below hi count); [|now apply (Hstop count cu0 cs0)].
    unfold Re.orelse in H.
    destruct (step cu0 cs0 _) as [y|] eqn:Es;
      [|now apply (Hstop count cu0 cs0)].
    injection H as ->. apply Hstep in Es.
    destruct Es as (cu1 & cs1 & Hk & Hb).
    destruct (Re.pos cu1 =? Re.pos cu0)%nat; [discriminate|].
    apply IH in Hk. destruct Hk as (cu' & cs' & Hk & Hb').
    exists cu', cs'. split; [exact Hk|].
    intros [H0|[H0 _]]; apply Hb'; left; apply Hb; auto.
Qed.

Lemma run_binds (r : Re.regex) :
  forall cu cs k x,
    Re.run ic R r cu cs k = Some x ->
    exists cu' cs',
      k cu' cs' = Some x
      /\ (Re.binds n r = true \/ Re.bound n cs -> Re.bound n cs').
Proof.
  induction r as [|neg items|a IHa b IHb|a IHa b IHb|lo hi a IHa|m a IHa| | | ];
    intros cu cs k x H; simpl in H.
  - exists cu, cs. split; [exact H|]. intros [E|E]; [discriminate | exact E].
  - destruct (Re.rest cu) as [|c tl]; [discriminate|].
    destruct (Re.set_match ic neg items c); [|discriminate].
    eexists. exists cs. split; [exact H|].
    intros [E|E]; [discriminate | exact E].
  - apply IHa in H. destruct H as (cu1 & cs1 & H & B1).
    apply IHb in H. destruct H as (cu2 & cs2 & H & B2).
    exists cu2, cs2. split; [exact H|]. simpl.
    intros [E|E].
    + apply orb_true_iff in E. destruct E as [E|E]; auto.
    + auto.
  - unfold Re.orelse in H. simpl.
    destruct (Re.run ic R a cu cs k) as [y|] eqn:Ea.
    + injection H as ->. apply IHa in Ea. destruct Ea as (cu1 & cs1 & H & B1).
      exists cu1, cs1. split; [exact H|].
      intros [E|E]; [apply andb_true_iff in E; tauto | auto].
    + apply IHb in H. destruct H as (cu1 & cs1 & H & B1).
      exists cu1, cs1. split; [exact H|].
      intros [E|E]; [apply andb_true_iff in E; tauto | auto].
  - apply (rep_loop_binds _ lo hi k (Re.binds n a) IHa) in H.
    destruct H as (cu1 & cs1 & H & B1).
    exists cu1, cs1. split; [exact H|]. cbn [Re.binds].
    intros [E|E]; [|auto].
    apply andb_true_iff in E. destruct E as [E1 E2].
    apply Nat.leb_le in E1. apply B1. right. split; [exact E2 | lia].
  - apply IHa in H. destruct H as (cu1 & cs1 & H & B1).
    eexists. eexists. split; [exact H|]. simpl.
    intros [E|E]; apply bound_cons.
    + apply orb_true_iff in E. destruct E as [E|E]; auto.
    + auto.
  - destruct (Re.pos cu =? 0)%nat; [|discriminate].
    exists cu, cs. split; [exact H|]. intros [E|E]; [discriminate | exact E].
  - destruct (Re.at_eol cu); [|discriminate].
    exists cu, cs. split; [exact H|]. intros [E|E]; [discriminate | exact E].
  - destruct (xorb _ _); [|discriminate].
    exists cu, cs. split; [exact H|]. intros [E|E]; [discriminate | exact E].
Qed.

End GroupFacts.

Lemma match_at_binds (n : nat) (p : Re.pattern) (cu : Re.cursor)
  (m : Re.rmatch) :
  Re.match_at p cu = Some m -> Re.binds n (Re.body p) = true ->
  exists g, Re.group n m = Some g.
Proof.
  unfold Re.match_at. intros H Hb.
  apply (run_binds (Re.icase p) Re.rmatch n) in H.
  destruct H as (cu' & cs' & H & B). injection H as <-.
  unfold Re.group. simpl.
  destruct (Re.lookup n cs') as [g|] eqn:E; [now exists g|].
  exfalso. apply B; [now left | exact E].
Qed.

Lemma search_from_match (p : Re.pattern) (m : Re.rmatch) :
  forall fuel cu,
    Re.search_from fuel p cu = Some m ->
    exists cu', Re.match_at p cu' = Some m.
Proof.
  induction fuel as [|fuel IH]; intros cu; simpl;
    destruct (Re.match_at p cu) as [m'|] eqn:E.
  - intros H. injection H as ->. now exists cu.
  - discriminate.
  - intros H. injection H as ->. now exists cu.
  - destruct (Re.rest cu); [discriminate|]. apply IH.
Qed.

Lemma finditer_from_match (p : Re.pattern) (m : Re.rmatch) :
  forall fuel cu,
    In m (Re.finditer_from fuel p cu) ->
    exists cu', Re.match_at p cu' = Some m.
Proof.
  induction fuel as [|fuel IH]; intros cu; simpl; [contradiction|].
  destruct (Re.search_from _ p cu) as [m'|] eqn:E; [|contradiction].
  assert (Hhead : m' = m -> exists cu', Re.match_at p cu' = Some m).
  { intros <-. eapply search_from_match; eassumption. }
  destruct (Re.m_end m' =? Re.m_start m')%nat.
  - match goal with
    | |- context [match Re.rest ?c with _ => _ end] => destruct (Re.rest c)
    end.
    + intros [H|[]]. auto.
    + intros [H|H]; [auto | eapply IH; eassumption].
  - intros [H|H]; [auto | eapply IH; eassumption].
Qed.

Lemma finditer_group (n : nat) (p : Re.pattern) (s : string) (m : Re.rmatch) :
  In m (Re.finditer p s) -> Re.binds n (Re.body p) = true ->
  exists g, Re.group n m = Some g.
Proof.
  unfold Re.finditer. intros H Hb.
  apply finditer_from_match in H. destruct H as (cu & H).
  eapply match_at_binds; eassumption.
Qed.

(** ** The pattern engine: repetition of a character class *)

Section ClassLoop.
Variable ic : bool.
Variable R : Type.
Variable neg : bool.
Variable items : list Re.citem.
Variable lo : nat.
Variable k : Re.cursor -> Re.captures -> option R.

Lemma rest_iter_advance (j : nat) :
  forall cu, Re.rest (Nat.iter j Re.advance cu) = List.skipn j (Re.rest cu).
Proof.
  induction j as [|j IH]; intros cu; [reflexivity|].
  rewrite Nat.iter_succ_r, IH. unfold Re.advance.
  destruct (Re.rest cu) as [|c tl] eqn:E; simpl.
  - rewrite E. now destruct j.
  - reflexivity.
Qed.

Lemma pos_iter_advance (j : nat) :
  forall cu, (j <= List.length (Re.rest cu))%nat ->
             Re.pos (Nat.iter j Re.advance cu) = (Re.pos cu + j)%nat.
Proof.
  induction j as [|j IH]; intros cu Hj; [simpl; lia|].
  rewrite Nat.iter_succ_r. unfold Re.advance at 2.
  destruct (Re.rest cu) as [|c tl] eqn:E; simpl in Hj; [lia|].
  rewrite IH by (simpl; lia). simpl. lia.
Qed.

Lemma succ_eqb_false (n : nat) : (S n =? n)%nat = false.
Proof. apply Nat.eqb_neq. lia. Qed.

(** One turn of the loop over a character class. *)
Lemma class_loop_step (fuel count : nat) (cu : Re.cursor) (cs : Re.captures) :
  Re.rep_loop R (Re.run ic R (Re.RSet neg items)) lo None k (S fuel) count cu cs
  = Re.orelse
      (match Re.rest cu with
       | c :: tl =>
           if Re.set_match ic neg items c
           then Re.rep_loop R (Re.run ic R (Re.RSet neg items)) lo None k fuel
                            (S count) (Re.mkCursor (Some c) tl (S (Re.pos cu)))
                            cs
           else None
       | [] => None
       end)
      (if (lo <=? count)%nat then k cu cs else None).
Proof.
  cbn [Re.rep_loop Re.below Re.run].
  destruct (Re.rest cu) as [|c tl]; [reflexivity|].
  destruct (Re.set_match ic neg items c); [|reflexivity].
  cbn [Re.pos]. now rewrite succ_eqb_false.
Qed.

(** A successful loop took some [j] characters of the class and then
    the continuation succeeded. *)
Lemma class_loop_sound :
  forall fuel count cu cs x l,
    Re.rest cu = l ->
    Re.rep_loop R (Re.run ic R (Re.RSet neg items)) lo None k fuel count cu cs
    = Some x ->
    exists j,
      (j <= List.length l)%nat
      /\ List.forallb (Re.set_match ic neg items) (List.firstn j l) = true
      /\ (lo <= count + j)%nat
      /\ k (Nat.iter j Re.advance cu) cs = Some x.
Proof.
  assert (Hstop : forall count cu cs x l,
             (if (lo <=? count)%nat then k cu cs else None) = Some x ->
             exists j,
               (j <= List.length l)%nat
               /\ List.forallb (Re.set_match ic neg items) (List.firstn j l)
                  = true
               /\ (lo <= count + j)%nat
               /\ k (Nat.iter j Re.advance cu) cs = Some x).
  { intros count cu cs x l H. destruct (lo <=? count)%nat eqn:E; [|discriminate].
    apply Nat.leb_le in E. exists 0%nat. simpl. repeat split; try lia.
    exact H. }
  induction fuel as [|fuel IH]; intros count cu cs x l Hl H.
  - now apply (Hstop count cu cs).
  - rewrite class_loop_step, Hl in H. unfold Re.orelse in H.
    destruct l as [|c tl]; [now apply (Hstop count cu cs)|].
    destruct (Re.set_match ic neg items c) eqn:M;
      [|now apply (Hstop count cu cs)].
    match type of H with
    | match ?t with _ => _ end = _ => destruct t as [y|] eqn:L
    end; [|now apply (Hstop count cu cs)].
    injection H as ->. apply (IH _ _ _ _ tl) in L; [|reflexivity].
    destruct L as (j & Hj & Hall & Hlo & Hk).
    exists (S j). split; [simpl; lia|].
    split; [simpl; now rewrite M, Hall|]. split; [lia|].
    rewrite Nat.iter_succ_r. unfold Re.advance at 2. now rewrite Hl.
Qed.

(** The loop is greedy: over a run of the class that ends the subject or
    stops at a character outside the class, a continuation that succeeds
    after the run makes the loop succeed with the same result. *)
Lemma class_loop_greedy (run_ tl : list ascii) :
  List.forallb (Re.set_match ic neg items) run_ = true ->
  match tl with
  | [] => True
  | c :: _ => Re.set_match ic neg items c = false
  end ->
  forall fuel count cu cs x,
    Re.rest cu = run_ ++ tl ->
    (List.length run_ <= fuel)%nat ->
    (lo <= count + List.length run_)%nat ->
    k (Nat.iter (List.length run_) Re.advance cu) cs = Some x ->
    Re.rep_loop R (Re.run ic R (Re.RSet neg items)) lo None k fuel count cu cs
    = Some x.
Proof.
  intros Hall Htl. induction run_ as [|c l IH];
    intros fuel count cu cs x Hrest Hfuel Hlo Hk.
  - simpl in Hrest, Hlo, Hk. rewrite Nat.add_0_r in Hlo.
    apply Nat.leb_le in Hlo.
    destruct fuel as [|fuel]; [simpl; now rewrite Hlo|].
    rewrite class_loop_step, Hrest, Hlo.
    destruct tl as [|c tl']; [exact Hk|]. now rewrite Htl.
  - simpl in Hall. apply andb_true_iff in Hall. destruct Hall as [Hc Hl].
    destruct fuel as [|fuel]; [simpl in Hfuel; lia|].
    rewrite class_loop_step, Hrest. simpl List.app. cbv iota. rewrite Hc.
    rewrite (IH Hl fuel (S count) _ cs x); try reflexivity.
    + simpl in Hfuel. lia.
    + simpl in Hlo. lia.
    + cbn [List.length] in Hk. rewrite Nat.iter_succ_r in Hk.
      unfold Re.advance at 2 in Hk. now rewrite Hrest in Hk.
Qed.

End ClassLoop.

(** ** The section splitter *)

Import ProductExtractor.

Lemma size_ok_spec (section : string) :
  size_ok section = true <->
  (50 <= String.length section /\ String.length section <= 2000)%nat.
Proof.
  unfold size_ok. now rewrite andb_true_iff, !Nat.leb_le.
Qed.

(** C4. For every text the splitter returns at least one section.  When
    the size filter keeps something of the cascade, the result is what it
    keeps, each of 50 to 2000 characters; a section of the cascade is kept
    exactly when its length is in that range (49 and 2001 are dropped, 50
    and 2000 are kept).  When the filter keeps nothing, the result is the
    original text alone. *)
Theorem split_sections_bounds (text : string) :
  _split_into_product_sections text <> []
  /\ (List.filter size_ok (cascade text) = [] ->
      _split_into_product_sections text = [text])
  /\ (List.filter size_ok (cascade text) <> [] ->
      _split_into_product_sections text = List.filter size_ok (cascade text)
      /\ Forall (fun s => (50 <= String.length s <= 2000)%nat)
                (_split_into_product_sections text))
  /\ (forall s, In s (cascade text) ->
        (In s (List.filter size_ok (cascade text))
         <-> (50 <= String.length s <= 2000)%nat))
  /\ (forall s, String.length s = 49%nat -> size_ok s = false)
  /\ (forall s, String.length s = 50%nat \/ String.length s = 2000%nat ->
        size_ok s = true).
Proof.
  assert (B49 : forall s, String.length s = 49%nat -> size_ok s = false)
    by (intros s Hs; unfold size_ok; now rewrite Hs).
  assert (B50 : forall s, String.length s = 50%nat \/ String.length s = 2000%nat ->
                          size_ok s = true)
    by (intros s [Hs|Hs]; unfold size_ok; now rewrite Hs).
  assert (Hin : forall s, In s (cascade text) ->
                  (In s (List.filter size_ok (cascade text))
                   <-> (50 <= String.length s <= 2000)%nat)).
  { intros s Hs. rewrite filter_In, size_ok_spec. tauto. }
  unfold _split_into_product_sections.
  destruct (List.filter size_ok (cascade text)) as [|s0 kept] eqn:E.
  - repeat split; try congruence; try assumption; try apply Hin; auto.
  - split; [congruence|]. split; [congruence|].
    split; [|repeat split; try assumption; try apply Hin; auto].
    intros _. split; [reflexivity|].
    rewrite <- E. apply Forall_forall. intros s Hs.
    apply filter_In in Hs. now apply size_ok_spec.
Qed.

(** ** The section loop *)

Section LoopFacts.
Variable single : string -> string -> nat -> result (option Product.t).

Lemma sections_loop_contributions (source_path : string) (sections : list string) :
  forall idx products,
    sections_loop single source_path idx sections products
    = products ++ contributions single source_path idx sections.
Proof.
  induction sections as [|s sections IH]; intros idx products; simpl.
  - now rewrite app_nil_r.
  - unfold contribution.
    destruct (single s source_path idx) as [[p|]|e]; rewrite IH; simpl;
      try reflexivity.
    now rewrite <- app_assoc.
Qed.

Lemma contributions_app (source_path : string) (l1 l2 : list string) :
  forall idx,
    contributions single source_path idx (l1 ++ l2)
    = contributions single source_path idx l1
      ++ contributions single source_path (idx + List.length l1) l2.
Proof.
  induction l1 as [|s l1 IH]; intros idx; simpl.
  - now rewrite Nat.add_0_r.
  - rewrite IH, <- app_assoc.
    now replace (S idx + List.length l1)%nat with (idx + S (List.length l1))%nat by lia.
Qed.

Lemma contributions_in (source_path : string) (sections : list string)
  (p : Product.t) :
  forall idx,
    In p (contributions single source_path idx sections) <->
    exists i section,
      List.nth_error sections i = Some section
      /\ single section source_path (idx + i) = Ok (Some p).
Proof.
  induction sections as [|s sections IH]; intros idx; simpl.
  - split; [contradiction|]. intros (i & section & H & _).
    destruct i; discriminate.
  - rewrite in_app_iff, IH. split.
    + intros [H|(i & section & Hn & Hs)].
      * exists 0%nat, s. split; [reflexivity|]. rewrite Nat.add_0_r.
        unfold contribution in H.
        destruct (single s source_path idx) as [[q|]|e]; try contradiction.
        destruct H as [->|[]]. reflexivity.
      * exists (S i), section. split; [exact Hn|].
        now rewrite Nat.add_succ_r.
    + intros (i & section & Hn & Hs). destruct i as [|i]; simpl in Hn.
      * injection Hn as ->. left. unfold contribution.
        rewrite Nat.add_0_r in Hs. rewrite Hs. now left.
      * right. exists i, section. split; [exact Hn|].
        now rewrite Nat.add_succ_r in Hs.
Qed.

Lemma extract_products_with_in (sections : list string) (source_path : string)
  (p : Product.t) :
  In p (extract_products_with single sections source_path) <->
  exists i section,
    List.nth_error sections i = Some section
    /\ single section source_path i = Ok (Some p).
Proof.
  unfold extract_products_with.
  rewrite sections_loop_contributions. simpl.
  apply contributions_in.
Qed.

(** C5. Whatever the per-section step does, when it raises on one
    section the loop goes on: the result is what the sections before it
    contribute followed by what the sections after it contribute, each at
    its own index, and a product is returned exactly when some section
    yields it without raising. *)
Theorem section_failure_is_skipped (source_path : string)
  (before after : list string) (section e : string) :
  single section source_path (List.length before) = Raise e ->
  extract_products_with single (before ++ section :: after) source_path
  = contributions single source_path 0 before
    ++ contributions single source_path (S (List.length before)) after
  /\ (forall p,
        In p (extract_products_with single (before ++ section :: after)
                                    source_path)
        <-> exists i s,
              List.nth_error (before ++ section :: after) i = Some s
              /\ i <> List.length before
              /\ single s source_path i = Ok (Some p)).
Proof.
  intros Hfail. split.
  - unfold extract_products_with.
    rewrite sections_loop_contributions, contributions_app. simpl.
    unfold contribution. now rewrite Hfail.
  - intros p. rewrite extract_products_with_in. split.
    + intros (i & s & Hn & Hs). exists i, s. repeat split; try assumption.
      intros ->. rewrite nth_error_app2 in Hn by lia.
      rewrite Nat.sub_diag in Hn. simpl in Hn. injection Hn as <-. congruence.
    + intros (i & s & Hn & _ & Hs). now exists i, s.
Qed.

End LoopFacts.

(** ** Confidence bounds *)

Lemma Qmin_cases (x y : Q) :
  (x <= y /\ Qmin x y == x) \/ (y <= x /\ Qmin x y == y).
Proof.
  destruct (Q.min_spec x y) as [[H E]|[H E]]; [left|right]; split;
    try assumption.
  now apply Qlt_le_weak.
Qed.

Lemma of_nat_nonneg (n : nat) : 0 <= of_nat n.
Proof.
  unfold of_nat. change 0 with (inject_Z 0). rewrite <- Zle_Qle. lia.
Qed.

Lemma brand_boost_bounds (brand text : string) :
  5 # 10 <= _calculate_brand_confidence brand text <= 1.
Proof.
  unfold _calculate_brand_confidence.
  set (n := of_nat _). pose proof (of_nat_nonneg
    (List.length (Re.findall (Re.mkPattern true (Re.escape brand)) text))) as Hn.
  fold n in Hn.
  destruct (Qmin_cases (n * (1 # 10)) (3 # 10)) as [[H1 E1]|[H1 E1]];
    destruct (Str.isupper brand);
    match goal with
    | |- _ <= Qmin ?a 1 <= _ =>
        destruct (Qmin_cases a 1) as [[H2 E2]|[H2 E2]]; rewrite E2
    end; rewrite ?E1 in *; lra.
Qed.

Lemma reference_boost_bounds (reference text : string) :
  5 # 10 <= _calculate_reference_confidence reference text <= 1.
Proof.
  unfold _calculate_reference_confidence.
  destruct (Re.match_ re_ref_shape reference);
    destruct (Re.search (re_ref_keyword reference) text);
    match goal with
    | |- _ <= Qmin ?a 1 <= _ =>
        destruct (Qmin_cases a 1) as [[H2 E2]|[H2 E2]]; rewrite E2
    end; lra.
Qed.

Lemma extraction_confidence_bounds
  (b : ProductBrand.t) (bs : list ProductBrand.t)
  (r : ProductReference.t) (rs : list ProductReference.t)
  (cs : list ProductCharacteristic.t) :
  0 <= ProductBrand.confidence b <= 1 ->
  0 <= ProductReference.confidence r <= 1 ->
  0 <= _calculate_extraction_confidence (b :: bs) (r :: rs) cs <= 1.
Proof.
  intros Hb Hr. unfold _calculate_extraction_confidence.
  pose proof (of_nat_nonneg (List.length cs)) as Hn.
  set (n := of_nat (List.length cs)) in *.
  assert (Hdiv : n / 5 == n * (1 # 5)) by (unfold Qdiv; reflexivity).
  destruct (Qmin_cases (n / 5) 1) as [[H E]|[H E]]; rewrite E;
    rewrite ?Hdiv in *; lra.
Qed.

(** ** Deduplication *)

Section DedupFacts.
Context {A K : Type} (key : A -> K) (eqb : K -> K -> bool).
Hypothesis eqb_eq : forall a b, eqb a b = true <-> a = b.

Lemma seen_spec (k : K) (seen : list K) :
  List.existsb (eqb k) seen = true <-> In k seen.
Proof.
  rewrite existsb_exists. split.
  - intros (x & Hx & E). apply eqb_eq in E. now subst.
  - intros H. exists k. split; [assumption | now apply eqb_eq].
Qed.

Lemma seen_false (k : K) (seen : list K) :
  List.existsb (eqb k) seen = false <-> ~ In k seen.
Proof.
  rewrite <- seen_spec. destruct (List.existsb (eqb k) seen); split;
    congruence.
Qed.

Lemma dedup_loop_keys (l : list A) :
  forall seen k,
    In k (List.map key (dedup_loop key eqb seen l))
    <-> In k (List.map key l) /\ ~ In k seen.
Proof.
  induction l as [|x l IH]; intros seen k; simpl; [tauto|].
  destruct (List.existsb (eqb (key x)) seen) eqn:E.
  - apply seen_spec in E. rewrite IH. split.
    + tauto.
    + intros [[<-|H] Hn]; [contradiction | tauto].
  - apply seen_false in E. simpl. rewrite IH. simpl. split.
    + intros [<-|[H Hn]]; [tauto|]. split; [tauto|]. intros Hs. apply Hn. now right.
    + intros [[->|H] Hn]; [now left|].
      destruct (eqb (key x) k) eqn:Ek.
      * apply eqb_eq in Ek. now left.
      * right. split; [assumption|]. intros [Hk|Hs]; [|contradiction].
        apply eqb_eq in Hk. congruence.
Qed.

Lemma dedup_loop_NoDup (l : list A) :
  forall seen, NoDup (List.map key (dedup_loop key eqb seen l)).
Proof.
  induction l as [|x l IH]; intros seen; simpl; [constructor|].
  destruct (List.existsb (eqb (key x)) seen) eqn:E; [apply IH|].
  simpl. constructor; [|apply IH].
  rewrite dedup_loop_keys. intros [_ Hn]. apply Hn. now left.
Qed.

Lemma dedup_loop_incl (l : list A) :
  forall seen x, In x (dedup_loop key eqb seen l) -> In x l.
Proof.
  induction l as [|y l IH]; intros seen x; simpl; [tauto|].
  destruct (List.existsb (eqb (key y)) seen).
  - intros H. right. eauto.
  - intros [->|H]; [now left | right; eauto].
Qed.

(** An element is kept exactly when it is the first with its key. *)
Lemma dedup_loop_first (l : list A) :
  forall seen x,
    In x (dedup_loop key eqb seen l) <->
    exists pre post,
      l = pre ++ x :: post
      /\ ~ In (key x) (List.map key pre) /\ ~ In (key x) seen.
Proof.
  induction l as [|y l IH]; intros seen x; simpl.
  - split; [contradiction|]. intros (pre & post & H & _).
    destruct pre; discriminate.
  - destruct (List.existsb (eqb (key y)) seen) eqn:E.
    + apply seen_spec in E. rewrite IH. split.
      * intros (pre & post & -> & Hp & Hs).
        exists (y :: pre), post. repeat split; try assumption.
        simpl. intros [Hy|Hin]; [|contradiction]. apply Hs. congruence.
      * intros (pre & post & Hl & Hp & Hs).
        destruct pre as [|z pre]; simpl in Hl; injection Hl as Hy Hl; subst.
        -- contradiction.
        -- exists pre, post. repeat split; try assumption.
           intros Hin. apply Hp. now right.
    + apply seen_false in E. simpl. rewrite IH. split.
      * intros [Hy|(pre & post & Hl & Hp & Hs)]; subst.
        -- exists [], l. repeat split; auto.
        -- exists (y :: pre), post. repeat split.
           ++ simpl. intros [Hy|Hin]; [|contradiction]. apply Hs. now left.
           ++ intros Hin. apply Hs. now right.
      * intros (pre & post & Hl & Hp & Hs).
        destruct pre as [|z pre]; simpl in Hl; injection Hl as Hy Hl; subst.
        -- now left.
        -- right. exists pre, post. repeat split.
           ++ intros Hin. apply Hp. now right.
           ++ intros [Hy|Hin]; [|contradiction]. apply Hp. now left.
Qed.

End DedupFacts.

Lemma string_eqb_eq (a b : string) : String.eqb a b = true <-> a = b.
Proof. apply String.eqb_eq. Qed.

(** ** Candidates *)

Lemma candidates_in {A}
  (body : string -> ExtractionPattern -> Re.rmatch -> result (option A))
  (patterns : list ExtractionPattern) (text : string) (l : list A) (a : A) :
  candidates body patterns text = Ok l -> In a l ->
  exists p m,
    In p patterns /\ In m (Re.finditer (pattern p) text)
    /\ body text p m = Ok (Some a).
Proof.
  unfold candidates. intros H Ha.
  pose proof (collect_in _ _ _ H Ha) as Hin.
  apply in_flat_map in Hin. destruct Hin as (p & Hp & Hin).
  apply in_map_iff in Hin. destruct Hin as (m & Hm & Hin).
  now exists p, m.
Qed.

Lemma brand_candidate_some (text : string) (p : ExtractionPattern)
  (m : Re.rmatch) (b : ProductBrand.t) :
  brand_candidate text p m = Ok (Some b) ->
  exists g,
    Re.group 1 m = Some g
    /\ ProductBrand.name b = Str.strip g
    /\ _is_valid_brand (ProductBrand.name b) = true
    /\ ProductBrand.normalized_name b = _normalize_brand_name (ProductBrand.name b)
    /\ ProductBrand.confidence b
       = confidence_modifier p
         * _calculate_brand_confidence (ProductBrand.name b) text
    /\ 0 <= ProductBrand.confidence b <= 1.
Proof.
  unfold brand_candidate, group_strip.
  destruct (Re.group 1 m) as [g|]; simpl; [|discriminate].
  destruct (_is_valid_brand (Str.strip g)) eqn:V; [|discriminate].
  unfold ProductBrand.make.
  destruct (unit_interval _) eqn:U; simpl; [|discriminate].
  intros H. injection H as <-. simpl. exists g.
  repeat split; try assumption; try reflexivity;
    now apply unit_interval_spec in U.
Qed.

Lemma reference_candidate_some (text : string) (p : ExtractionPattern)
  (m : Re.rmatch) (r : ProductReference.t) :
  reference_candidate text p m = Ok (Some r) ->
  exists g,
    Re.group 1 m = Some g
    /\ ProductReference.reference r = Str.strip g
    /\ _is_valid_reference (ProductReference.reference r) = true
    /\ ProductReference.normalized_reference r
       = _normalize_reference (ProductReference.reference r)
    /\ ProductReference.confidence r
       = confidence_modifier p
         * _calculate_reference_confidence (ProductReference.reference r) text
    /\ 0 <= ProductReference.confidence r <= 1.
Proof.
  unfold reference_candidate, group_strip.
  destruct (Re.group 1 m) as [g|]; simpl; [|discriminate].
  destruct (_is_valid_reference (Str.strip g)) eqn:V; [|discriminate].
  unfold ProductReference.make.
  destruct (unit_interval _) eqn:U; simpl; [|discriminate].
  intros H. injection H as <-. simpl. exists g.
  repeat split; try assumption; try reflexivity;
    now apply unit_interval_spec in U.
Qed.

Lemma extract_brands_inv (text : string) (brands : list ProductBrand.t) :
  _extract_brands text = Ok brands ->
  exists cands,
    candidates brand_candidate brand_patterns text = Ok cands
    /\ brands = List.firstn 3 (sorted_desc ProductBrand.confidence
                                           (_deduplicate_brands cands)).
Proof.
  unfold _extract_brands.
  destruct (candidates brand_candidate brand_patterns text) as [cands|e];
    simpl; [|discriminate].
  intros H. injection H as <-. now exists cands.
Qed.

Lemma extract_references_inv (text : string)
  (references : list ProductReference.t) :
  _extract_references text = Ok references ->
  exists cands,
    candidates reference_candidate reference_patterns text = Ok cands
    /\ references = List.firstn 3 (sorted_desc ProductReference.confidence
                                               (_deduplicate_references cands)).
Proof.
  unfold _extract_references.
  destruct (candidates reference_candidate reference_patterns text)
    as [cands|e]; simpl; [|discriminate].
  intros H. injection H as <-. now exists cands.
Qed.

Lemma extract_brands_from_candidate (text : string)
  (brands : list ProductBrand.t) (b : ProductBrand.t) :
  _extract_brands text = Ok brands -> In b brands ->
  exists p m,
    In p brand_patterns /\ In m (Re.finditer (pattern p) text)
    /\ brand_candidate text p m = Ok (Some b).
Proof.
  intros H Hb. apply extract_brands_inv in H. destruct H as (cands & Hc & ->).
  apply firstn_incl, sorted_desc_in in Hb.
  apply dedup_loop_incl in Hb. eapply candidates_in; eassumption.
Qed.

Lemma extract_references_from_candidate (text : string)
  (references : list ProductReference.t) (r : ProductReference.t) :
  _extract_references text = Ok references -> In r references ->
  exists p m,
    In p reference_patterns /\ In m (Re.finditer (pattern p) text)
    /\ reference_candidate text p m = Ok (Some r).
Proof.
  intros H Hr. apply extract_references_inv in H.
  destruct H as (cands & Hc & ->).
  apply firstn_incl, sorted_desc_in in Hr.
  apply dedup_loop_incl in Hr. eapply candidates_in; eassumption.
Qed.

(** ** Extraction never raises *)

Lemma collect_total {A} (steps : list (result (option A))) :
  (forall st, In st steps -> exists o, st = Ok o) ->
  exists l, collect steps = Ok l.
Proof.
  induction steps as [|st steps IH]; intros H; simpl.
  - now exists [].
  - destruct (H st (or_introl eq_refl)) as (o & ->).
    destruct IH as (l & ->); [intros st' Hin; apply H; now right|].
    simpl. eexists. reflexivity.
Qed.

Lemma candidates_total {A}
  (body : string -> ExtractionPattern -> Re.rmatch -> result (option A))
  (patterns : list ExtractionPattern) (text : string) :
  (forall p m, In p patterns -> In m (Re.finditer (pattern p) text) ->
               exists o, body text p m = Ok o) ->
  exists l, candidates body patterns text = Ok l.
Proof.
  intros H. unfold candidates. apply collect_total.
  intros st Hin. apply in_flat_map in Hin. destruct Hin as (p & Hp & Hin).
  apply in_map_iff in Hin. destruct Hin as (m & <- & Hm). now apply H.
Qed.

Lemma brand_patterns_wf (p : ExtractionPattern) :
  In p brand_patterns ->
  Re.binds 1 (Re.body (pattern p)) = true /\ 0 <= confidence_modifier p <= 1.
Proof.
  intros H. simpl in H.
  repeat (destruct H as [<-|H];
          [split; [reflexivity | split; vm_compute; discriminate]|]).
  contradiction.
Qed.

Lemma reference_patterns_wf (p : ExtractionPattern) :
  In p reference_patterns ->
  Re.binds 1 (Re.body (pattern p)) = true /\ 0 <= confidence_modifier p <= 1.
Proof.
  intros H. simpl in H.
  repeat (destruct H as [<-|H];
          [split; [reflexivity | split; vm_compute; discriminate]|]).
  contradiction.
Qed.

Lemma characteristic_patterns_wf (p : ExtractionPattern) :
  In p characteristic_patterns ->
  Re.binds 1 (Re.body (pattern p)) = true
  /\ Re.binds 2 (Re.body (pattern p)) = true
  /\ ((3 <=? Re.ngroups (Re.body (pattern p)))%nat = true ->
      Re.binds 3 (Re.body (pattern p)) = true).
Proof.
  intros H. simpl in H.
  repeat (destruct H as [<-|H];
          [split; [reflexivity | split; [reflexivity|]];
           vm_compute; intros E; try reflexivity; discriminate E|]).
  contradiction.
Qed.

Lemma brand_modifier_range (p : ExtractionPattern) :
  In p brand_patterns -> 5 # 10 <= confidence_modifier p <= 9 # 10.
Proof.
  intros H. simpl in H.
  repeat (destruct H as [<-|H]; [split; vm_compute; discriminate|]).
  contradiction.
Qed.

Lemma reference_modifier_range (p : ExtractionPattern) :
  In p reference_patterns -> 6 # 10 <= confidence_modifier p <= 95 # 100.
Proof.
  intros H. simpl in H.
  repeat (destruct H as [<-|H]; [split; vm_compute; discriminate|]).
  contradiction.
Qed.

Lemma brand_boost_upper (brand text : string) :
  _calculate_brand_confidence brand text <= 9 # 10.
Proof.
  unfold _calculate_brand_confidence.
  set (n := of_nat _).
  destruct (Qmin_cases (n * (1 # 10)) (3 # 10)) as [[H1 E1]|[H1 E1]];
    destruct (Str.isupper brand);
    match goal with
    | |- Qmin ?a 1 <= _ =>
        destruct (Qmin_cases a 1) as [[H2 E2]|[H2 E2]]; rewrite E2
    end; rewrite ?E1 in *; lra.
Qed.

Lemma product_in_unit (x y : Q) :
  0 <= x <= 1 -> 0 <= y <= 1 -> unit_interval (x * y) = true.
Proof. intros Hx Hy. apply unit_interval_spec. nra. Qed.

Lemma brand_candidate_total (text : string) (p : ExtractionPattern)
  (m : Re.rmatch) :
  In p brand_patterns -> In m (Re.finditer (pattern p) text) ->
  exists o, brand_candidate text p m = Ok o.
Proof.
  intros Hp Hm. destruct (brand_patterns_wf p Hp) as [Hb Hc].
  destruct (finditer_group 1 _ _ _ Hm Hb) as (g & Hg).
  unfold brand_candidate, group_strip. rewrite Hg. cbn [bind].
  destruct (_is_valid_brand (Str.strip g)); [|eexists; reflexivity].
  unfold ProductBrand.make. rewrite product_in_unit.
  - cbn [bind]. eexists. reflexivity.
  - exact Hc.
  - pose proof (brand_boost_bounds (Str.strip g) text). lra.
Qed.

Lemma reference_candidate_total (text : string) (p : ExtractionPattern)
  (m : Re.rmatch) :
  In p reference_patterns -> In m (Re.finditer (pattern p) text) ->
  exists o, reference_candidate text p m = Ok o.
Proof.
  intros Hp Hm. destruct (reference_patterns_wf p Hp) as [Hb Hc].
  destruct (finditer_group 1 _ _ _ Hm Hb) as (g & Hg).
  unfold reference_candidate, group_strip. rewrite Hg. cbn [bind].
  destruct (_is_valid_reference (Str.strip g)); [|eexists; reflexivity].
  unfold ProductReference.make. rewrite product_in_unit.
  - cbn [bind]. eexists. reflexivity.
  - exact Hc.
  - pose proof (reference_boost_bounds (Str.strip g) text). lra.
Qed.

Lemma characteristic_candidate_total (text : string) (p : ExtractionPattern)
  (m : Re.rmatch) :
  In p characteristic_patterns -> In m (Re.finditer (pattern p) text) ->
  exists o, characteristic_candidate text p m = Ok o.
Proof.
  intros Hp Hm. destruct (characteristic_patterns_wf p Hp) as (H1 & H2 & H3).
  destruct (finditer_group 1 _ _ _ Hm H1) as (g1 & Hg1).
  destruct (finditer_group 2 _ _ _ Hm H2) as (g2 & Hg2).
  unfold characteristic_candidate, group_strip.
  destruct (2 <=? Re.ngroups (Re.body (pattern p)))%nat;
    [|eexists; reflexivity].
  rewrite Hg1, Hg2. cbn [bind].
  destruct (3 <=? Re.ngroups (Re.body (pattern p)))%nat.
  - destruct (finditer_group 3 _ _ _ Hm (H3 eq_refl)) as (g3 & Hg3).
    rewrite Hg3. cbn [bind].
    destruct (_is_valid_characteristic _ _); eexists; reflexivity.
  - cbn [bind]. destruct (_is_valid_characteristic _ _); eexists; reflexivity.
Qed.

Lemma extract_brands_total (text : string) :
  exists brands, _extract_brands text = Ok brands.
Proof.
  unfold _extract_brands.
  destruct (candidates_total brand_candidate brand_patterns text) as (l & ->).
  - intros p m. apply brand_candidate_total.
  - eexists. reflexivity.
Qed.

Lemma extract_references_total (text : string) :
  exists references, _extract_references text = Ok references.
Proof.
  unfold _extract_references.
  destruct (candidates_total reference_candidate reference_patterns text)
    as (l & ->).
  - intros p m. apply reference_candidate_total.
  - eexists. reflexivity.
Qed.

Lemma extract_characteristics_total (text : string) :
  exists characteristics, _extract_characteristics text = Ok characteristics.
Proof.
  unfold _extract_characteristics.
  destruct (candidates_total characteristic_candidate characteristic_patterns
                             text) as (l & ->).
  - intros p m. apply characteristic_candidate_total.
  - eexists. reflexivity.
Qed.

(** ** Products *)

Section ProductFacts.
Variable gid : string -> nat -> string.

Lemma single_product_inv (text source_path : string) (idx : nat)
  (p : Product.t) :
  _extract_single_product gid text source_path idx = Ok (Some p) ->
  exists b bs r rs cs,
    _extract_brands text = Ok (b :: bs)
    /\ _extract_references text = Ok (r :: rs)
    /\ _extract_characteristics text = Ok cs
    /\ p = Product.mk (Some (gid source_path idx)) (_extract_product_name text)
                      b r cs None None None (Some "EUR") (Some source_path)
                      (_calculate_extraction_confidence (b :: bs) (r :: rs) cs).
Proof.
  unfold _extract_single_product.
  destruct (_extract_brands text) as [[|b bs]|e]; simpl; try discriminate.
  destruct (_extract_references text) as [[|r rs]|e]; simpl; try discriminate.
  destruct (_extract_characteristics text) as [cs|e]; simpl; try discriminate.
  unfold Product.make.
  destruct (unit_interval _ && true); simpl; [|discriminate].
  intros H. injection H as <-. now exists b, bs, r, rs, cs.
Qed.

Lemma brands_confidence_unit (text : string) (brands : list ProductBrand.t)
  (b : ProductBrand.t) :
  _extract_brands text = Ok brands -> In b brands ->
  0 <= ProductBrand.confidence b <= 1.
Proof.
  intros H Hb.
  destruct (extract_brands_from_candidate _ _ _ H Hb) as (p & m & _ & _ & Hc).
  apply brand_candidate_some in Hc. destruct Hc as (g & Hc). tauto.
Qed.

Lemma references_confidence_unit (text : string)
  (references : list ProductReference.t) (r : ProductReference.t) :
  _extract_references text = Ok references -> In r references ->
  0 <= ProductReference.confidence r <= 1.
Proof.
  intros H Hr.
  destruct (extract_references_from_candidate _ _ _ H Hr)
    as (p & m & _ & _ & Hc).
  apply reference_candidate_some in Hc. destruct Hc as (g & Hc). tauto.
Qed.

(** A section with a brand and a reference always yields its product:
    the validation of the global confidence never rejects it. *)
Lemma single_product_total (text source_path : string) (idx : nat)
  (b : ProductBrand.t) (bs : list ProductBrand.t)
  (r : ProductReference.t) (rs : list ProductReference.t)
  (cs : list ProductCharacteristic.t) :
  _extract_brands text = Ok (b :: bs) ->
  _extract_references text = Ok (r :: rs) ->
  _extract_characteristics text = Ok cs ->
  _extract_single_product gid text source_path idx
  = Ok (Some (Product.mk (Some (gid source_path idx))
                         (_extract_product_name text) b r cs None None None
                         (Some "EUR") (Some source_path)
                         (_calculate_extraction_confidence (b :: bs) (r :: rs) cs))).
Proof.
  intros Hb Hr Hc. unfold _extract_single_product.
  rewrite Hb; simpl. rewrite Hr; simpl. rewrite Hc; simpl.
  unfold Product.make.
  assert (U : unit_interval
                (_calculate_extraction_confidence (b :: bs) (r :: rs) cs) = true).
  { apply unit_interval_spec. apply extraction_confidence_bounds.
    - eapply brands_confidence_unit; [eassumption | now left].
    - eapply references_confidence_unit; [eassumption | now left]. }
  now rewrite U.
Qed.

(** The confidence of a product stays well inside [0,1]: between 0.22 and
    0.904, so the rounding of floating-point arithmetic cannot take it out
    of the interval. *)
Lemma extraction_confidence_margin (text source_path : string)
  (p : Product.t) :
  In p (extract_from_text gid text source_path) ->
  22 # 100 <= Product.extraction_confidence p <= 904 # 1000.
Proof.
  intros Hin. unfold extract_from_text, _extract_products_from_text in Hin.
  apply extract_products_with_in in Hin.
  destruct Hin as (idx & section & _ & Hs).
  apply single_product_inv in Hs.
  destruct Hs as (b & bs & r & rs & cs & Hb & Hr & _ & ->). simpl.
  destruct (extract_brands_from_candidate _ _ b Hb (or_introl eq_refl))
    as (pb & mb & Hpb & _ & Hcb).
  destruct (extract_references_from_candidate _ _ r Hr (or_introl eq_refl))
    as (pr & mr & Hpr & _ & Hcr).
  apply brand_candidate_some in Hcb.
  destruct Hcb as (gb & _ & _ & _ & _ & Eb & _).
  apply reference_candidate_some in Hcr.
  destruct Hcr as (gr & _ & _ & _ & _ & Er & _).
  pose proof (brand_boost_upper (ProductBrand.name b) section) as Bb.
  pose proof (brand_boost_bounds (ProductBrand.name b) section) as Bb'.
  pose proof (reference_boost_bounds (ProductReference.reference r) section)
    as Br.
  pose proof (brand_modifier_range pb Hpb) as Mb.
  pose proof (reference_modifier_range pr Hpr) as Mr.
  pose proof (of_nat_nonneg (List.length cs)) as Hn.
  unfold _calculate_extraction_confidence. rewrite Eb, Er.
  set (n := of_nat (List.length cs)) in *.
  assert (Hdiv : n / 5 == n * (1 # 5)) by (unfold Qdiv; reflexivity).
  destruct (Qmin_cases (n / 5) 1) as [[H E]|[H E]]; rewrite E;
    rewrite ?Hdiv in *; nra.
Qed.

Lemma single_product_never_raises (text source_path : string) (idx : nat) :
  exists o, _extract_single_product gid text source_path idx = Ok o.
Proof.
  destruct (extract_brands_total text) as ([|b bs] & Hb).
  { unfold _extract_single_product. rewrite Hb. eexists. reflexivity. }
  destruct (extract_references_total text) as ([|r rs] & Hr).
  { unfold _extract_single_product. rewrite Hb. cbn [bind]. rewrite Hr.
    eexists. reflexivity. }
  destruct (extract_characteristics_total text) as (cs & Hc).
  eexists. eapply single_product_total; eassumption.
Qed.

(** C1. Every product [extract_from_text] returns comes from a section
    whose brand list and reference list are not empty; its brand and its
    reference are the first of these lists, its confidence is
    brand confidence x 0.4 + reference confidence x 0.4
    + min(number of characteristics / 5, 1) x 0.2 and lies in [0,1].
    A section whose brand list or reference list is empty yields no
    product. *)
Theorem extracted_product_invariant (text source_path : string)
  (p : Product.t) :
  In p (extract_from_text gid text source_path) ->
  (exists idx section b bs r rs cs,
     List.nth_error (_split_into_product_sections text) idx = Some section
     /\ _extract_brands section = Ok (b :: bs)
     /\ _extract_references section = Ok (r :: rs)
     /\ _extract_characteristics section = Ok cs
     /\ Product.brand p = b
     /\ Product.reference p = r
     /\ Product.characteristics p = cs
     /\ Product.extraction_confidence p
        = ProductBrand.confidence b * (4 # 10)
          + ProductReference.confidence r * (4 # 10)
          + Qmin (of_nat (List.length cs) / 5) 1 * (2 # 10)
     /\ 0 <= Product.extraction_confidence p <= 1)
  /\ (forall section src idx q,
        _extract_brands section = Ok [] \/ _extract_references section = Ok [] ->
        _extract_single_product gid section src idx <> Ok (Some q)).
Proof.
  intros Hin. split.
  - unfold extract_from_text, _extract_products_from_text in Hin.
    apply extract_products_with_in in Hin.
    destruct Hin as (idx & section & Hn & Hs).
    apply single_product_inv in Hs.
    destruct Hs as (b & bs & r & rs & cs & Hb & Hr & Hc & ->).
    exists idx, section, b, bs, r, rs, cs. simpl.
    repeat split; try assumption; try reflexivity;
      apply extraction_confidence_bounds;
      solve [ eapply brands_confidence_unit; [eassumption | now left]
            | eapply references_confidence_unit; [eassumption | now left] ].
  - intros section src idx q Hempty Hs.
    apply single_product_inv in Hs.
    destruct Hs as (b & bs & r & rs & cs & Hb & Hr & _).
    destruct Hempty as [H|H]; congruence.
Qed.

End ProductFacts.

(** ** Brand confidence *)

(** The boost the code computes: 0.1 for each occurrence. *)
Lemma brand_boost_formula (brand text : string) :
  _calculate_brand_confidence brand text
  == Qmin ((5 # 10)
           + Qmin (of_nat (List.length
                             (Re.findall (Re.mkPattern true (Re.escape brand)) text))
                   * (1 # 10)) (3 # 10)
           + (if Str.isupper brand then 1 # 10 else 0)) 1.
Proof.
  unfold _calculate_brand_confidence.
  destruct (Str.isupper brand); [reflexivity|].
  apply Q.min_compat; [|reflexivity]. ring.
Qed.

(** C6. On the section "Marque: Bosch" the brand "Bosch" occurs once.
    The code's boost is 0.6 and the confidence of the candidate of the
    pattern [brand_prefix] is 0.9 x 0.6; with 0.1 only for occurrences
    after the first the boost would be 0.5. *)
Theorem brand_boost_counts_first_occurrence :
  List.length (Re.findall (Re.mkPattern true (Re.escape "Bosch")) "Marque: Bosch")
  = 1%nat
  /\ _calculate_brand_confidence "Bosch" "Marque: Bosch" == 6 # 10
  /\ claimed_brand_boost "Bosch" "Marque: Bosch" == 5 # 10
  /\ ~ _calculate_brand_confidence "Bosch" "Marque: Bosch"
       == claimed_brand_boost "Bosch" "Marque: Bosch"
  /\ exists b bs,
       _extract_brands "Marque: Bosch" = Ok (b :: bs)
       /\ ProductBrand.name b = "Bosch"
       /\ ProductBrand.confidence b == (9 # 10) * (6 # 10).
Proof.
  split; [vm_compute; reflexivity|].
  split; [vm_compute; reflexivity|].
  split; [vm_compute; reflexivity|].
  split; [vm_compute; discriminate|].
  eexists. eexists. split; [vm_compute; reflexivity|].
  split; vm_compute; reflexivity.
Qed.

(** ** Characteristic categories *)

Lemma categorize_in_categories (name : string) :
  In (_categorize_characteristic name) categories.
Proof.
  unfold _categorize_characteristic, categories.
  repeat match goal with
         | |- context [if ?c then _ else _] => destruct c
         end; simpl; tauto.
Qed.

Lemma characteristic_candidate_some (text : string) (p : ExtractionPattern)
  (m : Re.rmatch) (c : ProductCharacteristic.t) :
  characteristic_candidate text p m = Ok (Some c) ->
  ProductCharacteristic.category c
  = Some (_categorize_characteristic (ProductCharacteristic.name c))
  /\ _is_valid_characteristic (ProductCharacteristic.name c)
                              (ProductCharacteristic.value c) = true.
Proof.
  unfold characteristic_candidate, group_strip.
  destruct (2 <=? Re.ngroups (Re.body (pattern p)))%nat; [|discriminate].
  destruct (3 <=? Re.ngroups (Re.body (pattern p)))%nat;
    destruct (Re.group 1 m) as [g1|]; cbn [bind]; try discriminate;
    destruct (Re.group 2 m) as [g2|]; cbn [bind]; try discriminate;
    try (destruct (Re.group 3 m) as [g3|]; cbn [bind]; try discriminate);
    destruct (_is_valid_characteristic _ _) eqn:V; try discriminate;
    intros H; injection H as <-; simpl; now split.
Qed.

Lemma extract_characteristics_category (text : string)
  (cs : list ProductCharacteristic.t) (c : ProductCharacteristic.t) :
  _extract_characteristics text = Ok cs -> In c cs ->
  exists cat, ProductCharacteristic.category c = Some cat /\ In cat categories.
Proof.
  unfold _extract_characteristics.
  destruct (candidates characteristic_candidate characteristic_patterns text)
    as [cands|e] eqn:E; simpl; [|discriminate].
  intros H Hc. injection H as <-.
  apply dedup_loop_incl in Hc.
  destruct (candidates_in _ _ _ _ _ E Hc) as (p & m & _ & _ & Hm).
  apply characteristic_candidate_some in Hm. destruct Hm as [Hm _].
  eexists. split; [exact Hm | apply categorize_in_categories].
Qed.

(** C7, as amended. The category of every extracted characteristic is one
    of dimension, poids, materiau, couleur, electrique, puissance, autre;
    the text of scenario A yields one product, with normalized brand
    BOSCH, normalized reference GSB120LI and a characteristic of category
    puissance. *)
Theorem characteristic_categories (gid : string -> nat -> string) :
  (forall text source p c,
     In p (extract_from_text gid text source) ->
     In c (Product.characteristics p) ->
     exists cat,
       ProductCharacteristic.category c = Some cat /\ In cat categories)
  /\ (forall source,
        exists p c,
          extract_from_text gid scenario_A source = [p]
          /\ ProductBrand.normalized_name (Product.brand p) = "BOSCH"
          /\ ProductReference.normalized_reference (Product.reference p)
             = "GSB120LI"
          /\ In c (Product.characteristics p)
          /\ ProductCharacteristic.category c = Some "puissance").
Proof.
  split.
  - intros text source p c Hp Hc.
    unfold extract_from_text, _extract_products_from_text in Hp.
    apply extract_products_with_in in Hp.
    destruct Hp as (idx & section & _ & Hs).
    apply single_product_inv in Hs.
    destruct Hs as (b & bs & r & rs & cs & _ & _ & Hcs & ->).
    simpl in Hc. eapply extract_characteristics_category; eassumption.
  - intros source. eexists. eexists.
    split; [vm_compute; reflexivity|].
    split; [reflexivity|]. split; [reflexivity|].
    split; [left; reflexivity | reflexivity].
Qed.

(** C7, as stated, fails on scenario A: the one characteristic of the one
    product has category puissance, which is none of the names of the
    specification, and no characteristic has category power. *)
Lemma scenario_A_category_not_power :
  exists p c,
    extract_from_text (fun _ _ => "id") scenario_A "doc" = [p]
    /\ In c (Product.characteristics p)
    /\ ProductCharacteristic.category c = Some "puissance"
    /\ ~ In (ProductCharacteristic.category c) (List.map Some claimed_categories)
    /\ (forall c', In c' (Product.characteristics p) ->
                   ProductCharacteristic.category c' <> Some "power").
Proof.
  eexists. eexists.
  split; [vm_compute; reflexivity|].
  split; [left; reflexivity|].
  split; [reflexivity|].
  split.
  - simpl. intros H. repeat destruct H as [H|H]; try discriminate H. exact H.
  - simpl. intros c' [<-|[]]. discriminate.
Qed.

(** When the fields stand on successive lines, the class [[A-Za-z\s&-]]
    of [brand_prefix] takes the line break and the first letter of the next
    line: the best brand is then named BOSCH, line break, R. *)
Lemma brand_prefix_runs_over_line_break :
  exists b bs,
    _extract_brands three_lines = Ok (b :: bs)
    /\ ProductBrand.name b = String "B" (String "O" (String "S" (String "C"
                               (String "H" (String Str.newline "R")))))
    /\ ProductBrand.normalized_name b = "BOSCH R".
Proof.
  eexists. eexists. split; [vm_compute; reflexivity|].
  split; reflexivity.
Qed.

(** ** Brand deduplication and the retained list *)

Lemma NoDup_firstn {A} (n : nat) (l : list A) : NoDup l -> NoDup (List.firstn n l).
Proof.
  intros H. rewrite <- (firstn_skipn n l) in H.
  now apply NoDup_app_remove_r in H.
Qed.

Lemma NoDup_in_count (l : list string) (k : string) :
  NoDup l -> In k l -> count_occ string_dec l k = 1%nat.
Proof.
  intros Hn Hi.
  apply (NoDup_count_occ string_dec) with (x := k) in Hn.
  apply (count_occ_In string_dec) in Hi. lia.
Qed.

Lemma deduplicate_brands_NoDup (cands : list ProductBrand.t) :
  NoDup (brand_keys (_deduplicate_brands cands)).
Proof. apply dedup_loop_NoDup, string_eqb_eq. Qed.

Lemma retained_brands_NoDup (cands : list ProductBrand.t) :
  NoDup (brand_keys
           (List.firstn 3 (sorted_desc ProductBrand.confidence
                                       (_deduplicate_brands cands)))).
Proof.
  unfold brand_keys. rewrite <- firstn_map. apply NoDup_firstn.
  eapply Permutation_NoDup; [|apply (deduplicate_brands_NoDup cands)].
  symmetry. apply Permutation_map, sorted_desc_perm.
Qed.

(** C8, as amended. Brand deduplication is keyed by [normalized_name]
    and keeps, in order, the first candidate of each key, so every matched
    normalized name occurs exactly once among the deduplicated candidates.
    The retained list is these candidates sorted by confidence,
    descending, cut to three: it holds each normalized name at most once,
    and exactly once when no more than three names were found. *)
Theorem brand_dedup_top3 (text : string) :
  exists cands brands,
    candidates brand_candidate brand_patterns text = Ok cands
    /\ _extract_brands text = Ok brands
    /\ (forall b,
          In b (_deduplicate_brands cands) <->
          exists pre post,
            cands = pre ++ b :: post
            /\ ~ In (ProductBrand.normalized_name b) (brand_keys pre))
    /\ (forall k, In k (brand_keys cands) ->
          count_occ string_dec (brand_keys (_deduplicate_brands cands)) k = 1%nat)
    /\ brands = List.firstn 3 (sorted_desc ProductBrand.confidence
                                           (_deduplicate_brands cands))
    /\ (forall k, (count_occ string_dec (brand_keys brands) k <= 1)%nat)
    /\ ((List.length (_deduplicate_brands cands) <= 3)%nat ->
        forall k, In k (brand_keys cands) ->
          count_occ string_dec (brand_keys brands) k = 1%nat)
    /\ StronglySorted
         (fun x y => ProductBrand.confidence y <= ProductBrand.confidence x)
         brands
    /\ (List.length brands <= 3)%nat.
Proof.
  destruct (extract_brands_total text) as (brands & H).
  pose proof H as H'.
  apply extract_brands_inv in H. destruct H as (cands & Hc & ->).
  exists cands. eexists. split; [exact Hc|]. split; [exact H'|].
  assert (Hkeys : forall k, In k (brand_keys cands) ->
                    In k (brand_keys (_deduplicate_brands cands))).
  { intros k Hk. unfold brand_keys, _deduplicate_brands.
    apply (dedup_loop_keys _ _ string_eqb_eq). split; [exact Hk | simpl; tauto]. }
  split.
  { intros b. unfold _deduplicate_brands.
    rewrite (dedup_loop_first _ _ string_eqb_eq). unfold brand_keys.
    split; intros (pre & post & Hl & Hp); exists pre, post; simpl in *; tauto. }
  split.
  { intros k Hk. apply NoDup_in_count; [apply deduplicate_brands_NoDup|].
    now apply Hkeys. }
  split; [reflexivity|].
  split.
  { apply NoDup_count_occ, retained_brands_NoDup. }
  split.
  { intros Hlen k Hk. apply NoDup_in_count; [apply retained_brands_NoDup|].
    rewrite firstn_all2 by (now rewrite sorted_desc_length).
    unfold brand_keys. apply in_map_iff.
    apply Hkeys, in_map_iff in Hk. destruct Hk as (b & Hb & Hin).
    exists b. split; [exact Hb | now apply sorted_desc_in]. }
  split.
  { apply (firstn_sorted ProductBrand.confidence), sorted_desc_sorted. }
  apply firstn_le_length.
Qed.

(** C8, as stated, fails on [crowded_section]: the string Bosch is matched
    four times, twice by [brand_mixed] and twice by
    [brand_with_symbols], and the retained list holds no brand of
    normalized name BOSCH, the three places being taken by AAA, BBB, CCC. *)
Lemma matched_brand_absent_from_top3 :
  exists cands brands,
    candidates brand_candidate brand_patterns crowded_section = Ok cands
    /\ count_occ string_dec (List.map ProductBrand.name cands) "Bosch" = 4%nat
    /\ _extract_brands crowded_section = Ok brands
    /\ brand_keys brands = ["AAA"; "BBB"; "CCC"]
    /\ count_occ string_dec (brand_keys brands) "BOSCH" = 0%nat.
Proof.
  eexists. eexists.
  split; [vm_compute; reflexivity|].
  split; [vm_compute; reflexivity|].
  split; [vm_compute; reflexivity|].
  split; vm_compute; reflexivity.
Qed.

(** ** The two patterns of the product name *)

Lemma forallb_to_list (f : ascii -> bool) (s : string) :
  Str.forallb f s = List.forallb f (Str.to_list s).
Proof.
  induction s as [|c s IH]; simpl; [reflexivity | now rewrite IH].
Qed.

Lemma of_to_list (s : string) : Str.of_list (Str.to_list s) = s.
Proof. induction s as [|c s IH]; simpl; [reflexivity | now rewrite IH]. Qed.

Lemma of_list_app (l1 l2 : list ascii) :
  Str.of_list (l1 ++ l2) = (Str.of_list l1 ++ Str.of_list l2)%string.
Proof. induction l1 as [|c l1 IH]; simpl; [reflexivity | now rewrite IH]. Qed.

Lemma caps_or_space_class (c : ascii) :
  Re.set_match false false [AZ; Re.CSpace] c = caps_or_space c.
Proof.
  unfold Re.set_match, caps_or_space, AZ, Re.item_match_ic. simpl.
  now rewrite !orb_false_r.
Qed.

Lemma digit_class (c : ascii) :
  Re.set_match false false [Re.CDigit] c = Chr.isdecimal c.
Proof.
  unfold Re.set_match, Re.item_match_ic. simpl. now rewrite !orb_false_r.
Qed.

Lemma closer_class (c : ascii) :
  Re.set_match false false [Re.CChar "."; Re.CChar ")"] c
  = Ascii.eqb c "." || Ascii.eqb c ")".
Proof.
  unfold Re.set_match, Re.item_match_ic. simpl. now rewrite !orb_false_r.
Qed.

Lemma forallb_ext_eq {A} (f g : A -> bool) (l : list A) :
  (forall a, f a = g a) -> List.forallb f l = List.forallb g l.
Proof.
  intros H. induction l as [|a l IH]; simpl; [reflexivity|].
  now rewrite H, IH.
Qed.

Lemma match_all_caps_unfold (line : string) :
  Re.match_ re_all_caps line
  = Re.rep_loop Re.rmatch
      (Re.run false Re.rmatch (Re.RSet false [AZ; Re.CSpace])) 1 None
      (fun cu' cs' =>
         if Re.at_eol cu'
         then Some (Re.mkMatch 0 (Re.pos cu')
                      (Str.take_list (Re.pos cu' - 0) (Str.to_list line)) cs')
         else None)
      (List.length (Str.to_list line)) 0
      (Re.mkCursor None (Str.to_list line) 0) [].
Proof. reflexivity. Qed.

(** [^[A-Z\s]+$] holds of the lines made of capitals and white space. *)
Lemma all_caps_spec (line : string) :
  matches re_all_caps line = is_all_caps line.
Proof.
  apply Bool.eq_iff_eq_true.
  unfold matches, is_all_caps. rewrite match_all_caps_unfold.
  rewrite andb_true_iff, negb_true_iff, forallb_to_list.
  set (l := Str.to_list line).
  set (cu0 := Re.mkCursor None l 0).
  split.
  - destruct (Re.rep_loop _ _ _ _ _ _ _ _ _) as [m|] eqn:E; [intros _|discriminate].
    apply class_loop_sound with (l := l) in E; [|reflexivity].
    destruct E as (j & Hj & Hall & Hlo & Hk).
    destruct (Re.at_eol (Nat.iter j Re.advance cu0)) eqn:Eol; [|discriminate].
    unfold Re.at_eol in Eol. rewrite rest_iter_advance in Eol.
    cbn [Re.rest cu0] in Eol.
    rewrite (forallb_ext_eq _ _ _ caps_or_space_class) in Hall.
    split.
    + apply String.eqb_neq. intros ->. simpl in Hj. lia.
    + rewrite <- (firstn_skipn j l), forallb_app, Hall.
      destruct (List.skipn j l) as [|c [|c' tl]]; try discriminate;
        [reflexivity|].
      apply Ascii.eqb_eq in Eol. subst c. reflexivity.
  - intros [Hne Hall].
    rewrite class_loop_greedy
      with (run_ := l) (tl := [])
           (x := Re.mkMatch 0 (List.length l)
                   (Str.take_list (List.length l - 0) l) []);
      [reflexivity| | | | | |].
    + now rewrite (forallb_ext_eq _ _ _ caps_or_space_class).
    + exact I.
    + cbn [Re.rest cu0]. now rewrite app_nil_r.
    + lia.
    + unfold l. destruct line; [discriminate | simpl; lia].
    + unfold Re.at_eol. rewrite rest_iter_advance. cbn [Re.rest cu0].
      rewrite skipn_all. rewrite pos_iter_advance by (simpl; lia).
      reflexivity.
Qed.

Lemma after_digits_app (ds : list ascii) (rest_ : string) :
  List.forallb Chr.isdecimal ds = true ->
  match rest_ with
  | EmptyString => True
  | String d _ => Chr.isdecimal d = false
  end ->
  after_digits (Str.of_list ds ++ rest_) = rest_.
Proof.
  intros Hall Hrest. induction ds as [|c ds IH]; simpl.
  - destruct rest_ as [|d r]; [reflexivity|]. simpl. now rewrite Hrest.
  - simpl in Hall. apply andb_true_iff in Hall. destruct Hall as [Hc Hds].
    rewrite Hc. now apply IH.
Qed.

Lemma after_digits_split (s : string) :
  exists ds,
    Str.to_list s = ds ++ Str.to_list (after_digits s)
    /\ List.forallb Chr.isdecimal ds = true
    /\ match Str.to_list (after_digits s) with
       | [] => True
       | d :: _ => Chr.isdecimal d = false
       end.
Proof.
  induction s as [|c s (ds & E & Hall & Hd)]; simpl.
  - now exists [].
  - destruct (Chr.isdecimal c) eqn:Ec.
    + exists (c :: ds). simpl. rewrite Ec, Hall, <- E. now repeat split.
    + exists []. simpl. now rewrite Ec.
Qed.

Lemma match_enumerator_unfold (line : string) :
  Re.match_ re_enumerator line
  = Re.rep_loop Re.rmatch
      (Re.run false Re.rmatch (Re.RSet false [Re.CDigit])) 1 None
      (fun cu' cs' =>
         match Re.rest cu' with
         | c :: tl =>
             if Re.set_match false false [Re.CChar "."; Re.CChar ")"] c
             then Some (Re.mkMatch 0 (S (Re.pos cu'))
                          (Str.take_list (S (Re.pos cu') - 0) (Str.to_list line))
                          cs')
             else None
         | [] => None
         end)
      (List.length (Str.to_list line)) 0
      (Re.mkCursor None (Str.to_list line) 0) [].
Proof. reflexivity. Qed.

(** [^\d+[\.\)]] holds of the lines that start with digits followed by a
    full stop or a closing parenthesis. *)
Lemma enumerator_spec (line : string) :
  matches re_enumerator line = is_enumerated line.
Proof.
  apply Bool.eq_iff_eq_true.
  unfold matches. rewrite match_enumerator_unfold.
  set (l := Str.to_list line).
  set (cu0 := Re.mkCursor None l 0).
  split.
  - destruct (Re.rep_loop _ _ _ _ _ _ _ _ _) as [m|] eqn:E; [intros _|discriminate].
    apply class_loop_sound with (l := l) in E; [|reflexivity].
    destruct E as (j & Hj & Hall & Hlo & Hk).
    rewrite rest_iter_advance in Hk. cbn [Re.rest cu0] in Hk.
    destruct (List.skipn j l) as [|d tl] eqn:Es; [discriminate|].
    destruct (Re.set_match false false _ d) eqn:Ed; [|discriminate].
    rewrite closer_class in Ed.
    rewrite (forallb_ext_eq _ _ _ digit_class) in Hall.
    assert (Hline : line = (Str.of_list (List.firstn j l)
                            ++ String d (Str.of_list tl))%string).
    { rewrite <- (of_to_list line). fold l.
      rewrite <- (firstn_skipn j l) at 1. now rewrite Es, of_list_app. }
    assert (Hd : Chr.isdecimal d = false).
    { apply orb_true_iff in Ed.
      destruct Ed as [Ed|Ed]; apply Ascii.eqb_eq in Ed; now subst d. }
    unfold is_enumerated.
    destruct line as [|c line']; [simpl in Hj; lia|].
    rewrite Hline, after_digits_app by assumption.
    rewrite Ed, andb_true_r.
    destruct j as [|j]; [lia|].
    unfold l in Hall. simpl in Hall.
    apply andb_true_iff in Hall. tauto.
  - unfold is_enumerated. destruct line as [|c line']; [discriminate|].
    intros H. apply andb_true_iff in H. destruct H as [Hc Hd].
    destruct (after_digits_split (String c line')) as (ds & E & Hall & Hnd).
    destruct (after_digits (String c line')) as [|d r] eqn:Ea; [discriminate|].
    fold l in E. simpl in E, Hnd.
    assert (Hds : (1 <= List.length ds)%nat).
    { destruct ds as [|x ds]; [|simpl; lia].
      unfold l in E. simpl in E. injection E as -> _. congruence. }
    rewrite class_loop_greedy
      with (run_ := ds) (tl := d :: Str.to_list r)
           (x := Re.mkMatch 0 (S (List.length ds))
                   (Str.take_list (S (List.length ds) - 0) l) []);
      [reflexivity| | | | | |].
    + now rewrite (forallb_ext_eq _ _ _ digit_class).
    + rewrite digit_class. exact Hnd.
    + exact E.
    + rewrite E, length_app. lia.
    + lia.
    + rewrite rest_iter_advance. cbn [Re.rest cu0]. rewrite E.
      rewrite skipn_app, skipn_all, Nat.sub_diag.
      cbn [List.app List.skipn]. rewrite closer_class, Hd.
      rewrite pos_iter_advance by (cbn [Re.rest cu0]; rewrite E, length_app; lia).
      reflexivity.
Qed.

(** ** The product name *)

Lemma name_line_spec (line : string) :
  name_line line = true <->
  (10 < String.length line < 100)%nat
  /\ is_enumerated line = false
  /\ is_all_caps line = false.
Proof.
  unfold name_line. rewrite enumerator_spec, all_caps_spec.
  rewrite !andb_true_iff, !negb_true_iff, !Nat.ltb_lt. tauto.
Qed.

Lemma first_name_line_spec (lines : list string) :
  (forall pre line post,
     lines = pre ++ line :: post ->
     Forall (fun l => name_line (Str.strip l) = false) pre ->
     name_line (Str.strip line) = true ->
     first_name_line lines = Some (Str.strip line))
  /\ (Forall (fun l => name_line (Str.strip l) = false) lines ->
      first_name_line lines = None).
Proof.
  induction lines as [|l lines [IH1 IH2]]; split.
  - intros pre line post H. destruct pre; discriminate.
  - reflexivity.
  - intros pre line post H Hpre Hline. simpl.
    destruct pre as [|x pre]; simpl in H; injection H as -> ->.
    + now rewrite Hline.
    + inversion Hpre as [|? ? Hx Hpre']; subst. rewrite Hx.
      eapply IH1; eauto.
  - intros H. inversion H as [|? ? Hl Hrest]; subst. simpl. rewrite Hl. auto.
Qed.

Lemma first_nonempty_line_spec (lines : list string) :
  (forall pre line post,
     lines = pre ++ line :: post ->
     Forall (fun l => Str.strip l = "") pre ->
     Str.strip line <> "" ->
     first_nonempty_line lines = Some (Str.take 80 (Str.strip line)))
  /\ (Forall (fun l => Str.strip l = "") lines ->
      first_nonempty_line lines = None).
Proof.
  induction lines as [|l lines [IH1 IH2]]; split.
  - intros pre line post H. destruct pre; discriminate.
  - reflexivity.
  - intros pre line post H Hpre Hline. simpl.
    destruct pre as [|x pre]; simpl in H; injection H as -> ->.
    + unfold truthy. apply String.eqb_neq in Hline. now rewrite Hline.
    + inversion Hpre as [|? ? Hx Hpre']; subst. rewrite Hx. simpl.
      eapply IH1; eauto.
  - intros H. inversion H as [|? ? Hl Hrest]; subst. simpl. rewrite Hl. auto.
Qed.

Lemma empty_not_name_line (l : string) :
  Str.strip l = "" -> name_line (Str.strip l) = false.
Proof. intros ->. reflexivity. Qed.

(** C9, as amended. With the lines of the section stripped of surrounding
    white space, a line is a name line when it has more than 10 and fewer
    than 100 characters, does not start with digits followed by a full
    stop or a closing parenthesis, and does not consist of capital letters
    A-Z and white space only.  The product name is the first name line;
    when there is none, the first non-empty line cut to 80 characters;
    when every line is empty, the placeholder "Produit extrait". *)
Theorem product_name_cases (text : string) :
  (forall line,
     name_line line = true <->
     (10 < String.length line < 100)%nat
     /\ is_enumerated line = false /\ is_all_caps line = false)
  /\ (forall pre line post,
        Str.split Str.newline text = pre ++ line :: post ->
        Forall (fun l => name_line (Str.strip l) = false) pre ->
        name_line (Str.strip line) = true ->
        _extract_product_name text = Str.strip line)
  /\ (forall pre line post,
        Forall (fun l => name_line (Str.strip l) = false)
               (Str.split Str.newline text) ->
        Str.split Str.newline text = pre ++ line :: post ->
        Forall (fun l => Str.strip l = "") pre ->
        Str.strip line <> "" ->
        _extract_product_name text = Str.take 80 (Str.strip line))
  /\ (Forall (fun l => Str.strip l = "") (Str.split Str.newline text) ->
      _extract_product_name text = "Produit extrait").
Proof.
  unfold _extract_product_name.
  destruct (first_name_line_spec (Str.split Str.newline text)) as [N1 N2].
  destruct (first_nonempty_line_spec (Str.split Str.newline text)) as [E1 E2].
  split; [exact name_line_spec|]. repeat split.
  - intros pre line post H Hpre Hline.
    now rewrite (N1 pre line post H Hpre Hline).
  - intros pre line post Hnone H Hpre Hline.
    rewrite (N2 Hnone), (E1 pre line post H Hpre Hline). reflexivity.
  - intros Hempty. rewrite N2, (E2 Hempty); [reflexivity|].
    eapply Forall_impl; [|exact Hempty]. apply empty_not_name_line.
Qed.

(** C9, as stated, fails on the empty section: the name is
    "Produit extrait", not "extracted product". *)
Lemma placeholder_is_not_english :
  _extract_product_name "" = "Produit extrait"
  /\ _extract_product_name "" <> "extracted product".
Proof. split; [reflexivity | discriminate]. Qed.

(** ** The hybrid retriever *)

Import HybridRetriever.

Section RetrieverFacts.
Context {B : Backend}.

(** C10. [add_products] with no product returns at once: the retriever is
    as it was, collection, lexical index, documents and products, nothing
    is raised, and [get_stats] answers as before. *)
Theorem add_no_products_is_noop (self : HybridRetriever.t) :
  add_products self [] = (self, Ok tt)
  /\ collection (fst (add_products self [])) = collection self
  /\ bm25_index (fst (add_products self [])) = bm25_index self
  /\ documents_ (fst (add_products self [])) = documents_ self
  /\ products_ (fst (add_products self [])) = products_ self
  /\ get_stats (fst (add_products self [])) = get_stats self.
Proof. repeat split. Qed.

(** With products the same operation does change the retriever: on the
    in-memory backend the collection grows and the lexical index is built. *)
Lemma add_products_changes_stats :
  get_stats Memory.empty_store = Stats 0 false
  /\ get_stats Memory.store = Stats 2 true
  /\ get_stats (fst (add_products Memory.store [])) = Stats 2 true.
Proof. repeat split; vm_compute; reflexivity. Qed.

Lemma process_row_some (distances : list Q) (metadatas : list Metadata)
  (documents : list string) (threshold : Q) (i : nat) (r : scored) :
  process_row distances metadatas documents threshold i = Ok (Some r) ->
  threshold <= snd r
  /\ (match distances with
      | [] => snd r = 5 # 10
      | _ :: _ => exists d, List.nth_error distances i = Some d /\ snd r = 1 - d
      end).
Proof.
  unfold process_row, nth_or_raise.
  destruct distances as [|d0 ds].
  - cbn [bind]. destruct (Qle_bool threshold (5 # 10)) eqn:E; [|discriminate].
    destruct (List.nth_error metadatas i); cbn [bind]; [|discriminate].
    destruct (List.nth_error documents i); cbn [bind]; [|discriminate].
    destruct (_reconstruct_product_from_metadata _ _); cbn [bind];
      [|discriminate].
    intros H. injection H as <-. simpl. split; [now apply Qle_bool_iff | reflexivity].
  - destruct (List.nth_error (d0 :: ds) i) as [d|]; cbn [bind]; [|discriminate].
    destruct (Qle_bool threshold (1 - d)) eqn:E; [|discriminate].
    destruct (List.nth_error metadatas i); cbn [bind]; [|discriminate].
    destruct (List.nth_error documents i); cbn [bind]; [|discriminate].
    destruct (_reconstruct_product_from_metadata _ _); cbn [bind];
      [|discriminate].
    intros H. injection H as <-. simpl.
    split; [now apply Qle_bool_iff | now exists d].
Qed.

Lemma process_chroma_results_threshold (results : QueryResult) (threshold : Q)
  (out : list scored) :
  _process_chroma_results results threshold = Ok out ->
  Forall (fun r => threshold <= snd r) out.
Proof.
  unfold _process_chroma_results.
  destruct (ids results) as [|[|i0 row] rows].
  - intros H. injection H as <-. constructor.
  - intros H. injection H as <-. constructor.
  - intros H. apply Forall_forall. intros r Hr.
    pose proof (collect_in _ _ _ H Hr) as Hin.
    apply in_map_iff in Hin. destruct Hin as (i & Hi & _).
    now apply process_row_some in Hi.
Qed.



End RetrieverFacts.

(** ** Binary64 arithmetic *)

Module F64Facts.
Import F64.

Lemma two_neq_0 : ~ 2 == 0.
Proof. discriminate. Qed.

Lemma pow2_pos (e : Z) : 0 < 2 ^ e.
Proof. now apply Qpower_0_lt. Qed.

Lemma pow2_plus (a b : Z) : 2 ^ (a + b) == 2 ^ a * 2 ^ b.
Proof. apply Qpower_plus, two_neq_0. Qed.

Lemma pow2_le (a b : Z) : (a <= b)%Z -> 2 ^ a <= 2 ^ b.
Proof. intros H. apply Qpower_le_compat_l; [exact H | discriminate]. Qed.

Lemma pow2_lt (a b : Z) : (a < b)%Z -> 2 ^ a < 2 ^ b.
Proof. intros H. apply Qpower_lt_compat_l; [exact H | reflexivity]. Qed.

Lemma pow2_lt_inv (a b : Z) : 2 ^ a < 2 ^ b -> (a < b)%Z.
Proof. intros H. eapply Qpower_lt_compat_l_inv; [exact H | reflexivity]. Qed.

Lemma pow2_Z (n : Z) : (0 <= n)%Z -> 2 ^ n == inject_Z (2 ^ n).
Proof. intros H. symmetry. now apply (Zpower_Qpower 2 n). Qed.

(** ** The binade *)

Lemma ilog2_spec (x : Q) : 0 < x -> 2 ^ ilog2 x <= x /\ x < 2 ^ (ilog2 x + 1).
Proof.
  intros Hx. destruct x as [n d]. unfold ilog2. cbn [Qnum Qden].
  assert (Hn : (0 < n)%Z) by (unfold Qlt in Hx; simpl in Hx; lia).
  set (a := Z.log2 n). set (b := Z.log2 (Zpos d)).
  destruct (Z.log2_spec n Hn) as [Ha1 Ha2]. fold a in Ha1, Ha2.
  destruct (Z.log2_spec (Zpos d) eq_refl) as [Hb1 Hb2]. fold b in Hb1, Hb2.
  assert (Ha0 : (0 <= a)%Z) by apply Z.log2_nonneg.
  assert (Hb0 : (0 <= b)%Z) by apply Z.log2_nonneg.
  assert (Ex : n # d == inject_Z n / inject_Z (Zpos d)) by apply Qmake_Qdiv.
  assert (Hd : 0 < inject_Z (Zpos d)) by reflexivity.
  assert (Qa1 : 2 ^ a <= inject_Z n) by (rewrite pow2_Z, <- Zle_Qle; assumption).
  assert (Qa2 : inject_Z n < 2 ^ (a + 1)).
  { rewrite pow2_Z, <- Zlt_Qlt by lia. now rewrite <- Z.add_1_r in Ha2. }
  assert (Qb1 : 2 ^ b <= inject_Z (Zpos d))
    by (rewrite pow2_Z, <- Zle_Qle; assumption).
  assert (Qb2 : inject_Z (Zpos d) < 2 ^ (b + 1)).
  { rewrite pow2_Z, <- Zlt_Qlt by lia. now rewrite <- Z.add_1_r in Hb2. }
  destruct (Qle_bool (2 ^ (a - b)) (n # d)) eqn:E.
  - apply Qle_bool_iff in E. split; [exact E|].
    rewrite Ex. apply Qlt_shift_div_r; [exact Hd|].
    eapply Qlt_le_trans; [exact Qa2|].
    replace (a + 1)%Z with ((a - b + 1) + b)%Z by ring.
    rewrite pow2_plus. apply Qmult_le_l; [apply pow2_pos | exact Qb1].
  - assert (E' : n # d < 2 ^ (a - b)).
    { apply Qnot_le_lt. intros H. apply Qle_bool_iff in H. congruence. }
    split.
    + rewrite Ex. apply Qle_shift_div_l; [exact Hd|].
      eapply Qle_trans; [|exact Qa1].
      replace a with ((a - b - 1) + (b + 1))%Z at 2 by ring.
      rewrite pow2_plus. apply Qmult_le_l; [apply pow2_pos|].
      now apply Qlt_le_weak.
    + now replace (a - b - 1 + 1)%Z with (a - b)%Z by ring.
Qed.

Lemma ilog2_unique (x : Q) (e : Z) :
  2 ^ e <= x -> x < 2 ^ (e + 1) -> ilog2 x = e.
Proof.
  intros H1 H2.
  assert (Hx : 0 < x) by (eapply Qlt_le_trans; [apply (pow2_pos e) | exact H1]).
  destruct (ilog2_spec x Hx) as [S1 S2].
  assert (A : (ilog2 x < e + 1)%Z).
  { apply pow2_lt_inv. eapply Qle_lt_trans; eassumption. }
  assert (B : (e < ilog2 x + 1)%Z).
  { apply pow2_lt_inv. eapply Qle_lt_trans; eassumption. }
  lia.
Qed.

Lemma ilog2_comp (x y : Q) : 0 < x -> x == y -> ilog2 x = ilog2 y.
Proof.
  intros Hx E. symmetry. destruct (ilog2_spec x Hx) as [S1 S2].
  apply ilog2_unique; rewrite <- E; assumption.
Qed.

Lemma ilog2_le (x y : Q) : 0 < x -> x <= y -> (ilog2 x <= ilog2 y)%Z.
Proof.
  intros Hx H.
  assert (Hy : 0 < y) by (eapply Qlt_le_trans; eassumption).
  destruct (ilog2_spec x Hx) as [S1 _], (ilog2_spec y Hy) as [_ T2].
  assert (A : (ilog2 x < ilog2 y + 1)%Z).
  { apply pow2_lt_inv. eapply Qle_lt_trans; [exact S1|].
    eapply Qle_lt_trans; eassumption. }
  lia.
Qed.

(** ** The nearest integer *)

Lemma nearest_even_comp (x y : Q) : x == y -> nearest_even x = nearest_even y.
Proof.
  intros E. unfold nearest_even. rewrite (Qfloor_comp x y E).
  assert (E' : x - inject_Z (Qfloor y) == y - inject_Z (Qfloor y))
    by (rewrite E; reflexivity).
  now rewrite (Qcompare_comp _ _ E' (1 # 2) (1 # 2) (Qeq_refl _)).
Qed.

Lemma nearest_even_Z (k : Z) : nearest_even (inject_Z k) = k.
Proof.
  unfold nearest_even. rewrite Qfloor_Z.
  assert (E : inject_Z k - inject_Z k == 0) by ring.
  now rewrite (Qcompare_comp _ _ E (1 # 2) (1 # 2) (Qeq_refl _)).
Qed.

Lemma nearest_even_range (y : Q) :
  (Qfloor y <= nearest_even y <= Qfloor y + 1)%Z.
Proof.
  unfold nearest_even.
  destruct (Qcompare _ _); [destruct (Z.even _)| |]; lia.
Qed.

Lemma nearest_even_le (x y : Q) : x <= y -> (nearest_even x <= nearest_even y)%Z.
Proof.
  intros H. pose proof (Qfloor_resp_le x y H) as F.
  pose proof (nearest_even_range x) as Rx.
  pose proof (nearest_even_range y) as Ry.
  destruct (Z.eq_dec (Qfloor x) (Qfloor y)) as [E|N]; [|lia].
  unfold nearest_even in *. rewrite <- E in *.
  set (f := Qfloor x) in *.
  destruct (Qcompare_spec (x - inject_Z f) (1 # 2)) as [Cx|Cx|Cx];
    destruct (Qcompare_spec (y - inject_Z f) (1 # 2)) as [Cy|Cy|Cy];
    try destruct (Z.even f); try lia; exfalso; lra.
Qed.

(** ** The nearest multiple of the quantum *)

Lemma quantum_ge (x : Q) : (-1074 <= quantum x)%Z /\ (ilog2 x - 52 <= quantum x)%Z.
Proof. unfold quantum. lia. Qed.

Lemma quantum_comp (x y : Q) : 0 < x -> x == y -> quantum x = quantum y.
Proof. intros Hx E. unfold quantum. now rewrite (ilog2_comp x y Hx E). Qed.

Lemma quantum_le (x y : Q) : 0 < x -> x <= y -> (quantum x <= quantum y)%Z.
Proof. intros Hx H. unfold quantum. pose proof (ilog2_le x y Hx H). lia. Qed.

Lemma below_top (x : Q) : 0 < x -> x < 2 ^ (quantum x + 53).
Proof.
  intros Hx. destruct (ilog2_spec x Hx) as [_ H].
  eapply Qlt_le_trans; [exact H|]. apply pow2_le.
  destruct (quantum_ge x). lia.
Qed.

Lemma above_bottom (x : Q) :
  0 < x -> (-1074 < quantum x)%Z -> 2 ^ (quantum x + 52) <= x.
Proof.
  intros Hx Hq. destruct (ilog2_spec x Hx) as [H _].
  eapply Qle_trans; [|exact H]. apply pow2_le. unfold quantum in *. lia.
Qed.

Lemma scaled_Z (k : Z) (e : Z) : inject_Z k * 2 ^ e / 2 ^ e == inject_Z k.
Proof.
  apply Qdiv_mult_l. intros H. pose proof (pow2_pos e) as P. rewrite H in P.
  discriminate.
Qed.

Lemma div_pow2_le (x y : Q) (e : Z) : x <= y -> x / 2 ^ e <= y / 2 ^ e.
Proof.
  intros H. unfold Qdiv. apply Qmult_le_compat_r; [exact H|].
  apply Qlt_le_weak, Qinv_lt_0_compat, pow2_pos.
Qed.

Lemma quanta_le (m n q : Z) : (m <= n)%Z -> quanta m q <= quanta n q.
Proof.
  intros H. unfold quanta. apply Qmult_le_compat_r.
  - now rewrite <- Zle_Qle.
  - apply Qlt_le_weak, pow2_pos.
Qed.

Lemma quanta_pow2 (n q : Z) : (0 <= n)%Z -> quanta (2 ^ n) q == 2 ^ (q + n).
Proof.
  intros H. unfold quanta. rewrite <- pow2_Z by exact H.
  rewrite pow2_plus. ring.
Qed.

Lemma nearest_quanta (x : Q) :
  nearest x = quanta (nearest_even (x / 2 ^ quantum x)) (quantum x).
Proof. reflexivity. Qed.

Lemma nearest_comp (x y : Q) : 0 < x -> x == y -> nearest x == nearest y.
Proof.
  intros Hx E. rewrite !nearest_quanta. rewrite <- (quantum_comp x y Hx E).
  generalize (quantum x). intros q.
  assert (E' : x / 2 ^ q == y / 2 ^ q) by (rewrite E; reflexivity).
  now rewrite (nearest_even_comp _ _ E').
Qed.

Lemma nearest_le_top (x : Q) : 0 < x -> nearest x <= 2 ^ (quantum x + 53).
Proof.
  intros Hx. rewrite nearest_quanta.
  rewrite <- (quanta_pow2 53 (quantum x)) by lia.
  apply quanta_le. rewrite <- (nearest_even_Z (2 ^ 53)).
  apply nearest_even_le.
  apply Qle_shift_div_r; [apply pow2_pos|].
  fold (quanta (2 ^ 53) (quantum x)). rewrite quanta_pow2 by lia.
  apply Qlt_le_weak, below_top, Hx.
Qed.

Lemma nearest_ge_bottom (x : Q) :
  0 < x -> (-1074 < quantum x)%Z -> 2 ^ (quantum x + 52) <= nearest x.
Proof.
  intros Hx Hq. rewrite nearest_quanta.
  rewrite <- (quanta_pow2 52 (quantum x)) by lia.
  apply quanta_le. rewrite <- (nearest_even_Z (2 ^ 52)) at 1.
  apply nearest_even_le.
  apply Qle_shift_div_l; [apply pow2_pos|].
  fold (quanta (2 ^ 52) (quantum x)). rewrite quanta_pow2 by lia.
  now apply above_bottom.
Qed.

Lemma nearest_nonneg (x : Q) : 0 < x -> 0 <= nearest x.
Proof.
  intros Hx. rewrite nearest_quanta.
  assert (E : 0 == quanta 0 (quantum x)) by (unfold quanta; ring).
  rewrite E. apply quanta_le. rewrite <- (nearest_even_Z 0) at 1.
  apply nearest_even_le.
  apply Qle_shift_div_l; [apply pow2_pos|].
  rewrite Qmult_0_l. now apply Qlt_le_weak.
Qed.

Lemma nearest_le (x y : Q) : 0 < x -> x <= y -> nearest x <= nearest y.
Proof.
  intros Hx H.
  assert (Hy : 0 < y) by (eapply Qlt_le_trans; eassumption).
  pose proof (quantum_le x y Hx H) as Q.
  destruct (Z.eq_dec (quantum x) (quantum y)) as [E|N].
  - rewrite !nearest_quanta, <- E.
    apply quanta_le, nearest_even_le, div_pow2_le, H.
  - eapply Qle_trans; [apply nearest_le_top, Hx|].
    eapply Qle_trans; [|apply nearest_ge_bottom; [exact Hy|]].
    + apply pow2_le. lia.
    + destruct (quantum_ge x). lia.
Qed.

Lemma nearest_grid_fixed (r : Q) : 0 < r -> grid r -> nearest r == r.
Proof.
  intros Hr [k E]. rewrite nearest_quanta.
  assert (E' : r / 2 ^ quantum r == inject_Z k).
  { rewrite E at 1. apply scaled_Z. }
  rewrite (nearest_even_comp _ _ E'), nearest_even_Z. now symmetry.
Qed.

Lemma quanta_shift (k q d : Z) :
  (0 <= d)%Z -> quanta k (q + d) == quanta (k * 2 ^ d) q.
Proof.
  intros H. unfold quanta. rewrite pow2_plus, inject_Z_mult.
  rewrite <- pow2_Z by exact H. ring.
Qed.

Lemma nearest_grid (x : Q) : 0 < x -> 0 < nearest x -> grid (nearest x).
Proof.
  intros Hx Hr.
  set (q := quantum x). set (m := nearest_even (x / 2 ^ q)).
  assert (Er : nearest x == quanta m q) by (rewrite nearest_quanta; reflexivity).
  pose proof (nearest_le_top x Hx) as Top. fold q in Top.
  destruct (quantum_ge x) as [Q1 _]. fold q in Q1.
  destruct (ilog2_spec (nearest x) Hr) as [S1 S2].
  set (q' := quantum (nearest x)).
  assert (Q' : (q' <= q + 1)%Z).
  { unfold q', quantum.
    assert ((ilog2 (nearest x) < q + 53 + 1)%Z); [|lia].
    apply pow2_lt_inv. eapply Qle_lt_trans; [exact S1|].
    eapply Qle_lt_trans; [exact Top|]. apply pow2_lt. lia. }
  destruct (Z.eq_dec q' (q + 1)) as [E|N].
  - (* the next binade: the result is its first number *)
    assert (B : 2 ^ (q + 53) <= nearest x).
    { eapply Qle_trans; [|exact S1]. apply pow2_le.
      unfold q', quantum in E. lia. }
    exists (2 ^ 52)%Z. fold q'. rewrite E, quanta_pow2 by lia.
    replace (q + 1 + 52)%Z with (q + 53)%Z by ring.
    now apply Qle_antisym.
  - exists (m * 2 ^ (q - q'))%Z. fold q'.
    rewrite <- quanta_shift by lia.
    replace (q' + (q - q'))%Z with q by ring. exact Er.
Qed.

(** ** Rounding *)

Lemma inf_pos : 0 < inf.
Proof. apply pow2_pos. Qed.

Lemma cap_cases (r : Q) :
  (inf <= r /\ cap r = inf) \/ (r < inf /\ cap r == r).
Proof.
  unfold cap. destruct (Qle_bool inf r) eqn:E.
  - left. split; [now apply Qle_bool_iff | reflexivity].
  - right. split; [|apply Qred_correct].
    apply Qnot_le_lt. intros H. apply Qle_bool_iff in H. congruence.
Qed.

Lemma cap_le (r r' : Q) : r <= r' -> cap r <= cap r'.
Proof.
  intros H.
  destruct (cap_cases r) as [[H1 ->]|[H1 ->]],
           (cap_cases r') as [[H2 ->]|[H2 ->]]; lra.
Qed.

Lemma cap_le_inf (r : Q) : cap r <= inf.
Proof. destruct (cap_cases r) as [[H1 ->]|[H1 ->]]; lra. Qed.

Lemma cap_nonneg (r : Q) : 0 <= r -> 0 <= cap r.
Proof.
  intros H. pose proof inf_pos.
  destruct (cap_cases r) as [[H1 ->]|[H1 ->]]; lra.
Qed.

Lemma cap_comp (r r' : Q) : r == r' -> cap r == cap r'.
Proof.
  intros E.
  destruct (cap_cases r) as [[H1 ->]|[H1 ->]],
           (cap_cases r') as [[H2 ->]|[H2 ->]]; lra.
Qed.

Lemma rnd_cases (x : Q) :
  (x == 0 /\ rnd x = 0)
  \/ (0 < x /\ rnd x = cap (nearest x))
  \/ (x < 0 /\ rnd x = - cap (nearest (- x))).
Proof.
  unfold rnd. destruct (Qcompare_spec x 0) as [H|H|H]; auto.
Qed.

Lemma opp_pos (x : Q) : x < 0 -> 0 < - x.
Proof. intros H. lra. Qed.

Lemma rnd_comp (x y : Q) : x == y -> rnd x == rnd y.
Proof.
  intros E.
  destruct (rnd_cases x) as [[Hx ->]|[[Hx ->]|[Hx ->]]],
           (rnd_cases y) as [[Hy ->]|[[Hy ->]|[Hy ->]]]; try (exfalso; lra).
  - reflexivity.
  - apply cap_comp, nearest_comp; assumption.
  - apply Qopp_comp, cap_comp, nearest_comp; [now apply opp_pos | now rewrite E].
Qed.

Lemma rnd_opp (x : Q) : rnd (- x) == - rnd x.
Proof.
  destruct (rnd_cases x) as [[Hx ->]|[[Hx ->]|[Hx ->]]],
           (rnd_cases (- x)) as [[Hy ->]|[[Hy ->]|[Hy ->]]]; try (exfalso; lra).
  - reflexivity.
  - apply Qopp_comp, cap_comp, nearest_comp; [lra | ring].
  - rewrite Qopp_involutive. reflexivity.
Qed.

Lemma rnd_nonneg (x : Q) : 0 <= x -> 0 <= rnd x.
Proof.
  intros H. destruct (rnd_cases x) as [[Hx ->]|[[Hx ->]|[Hx ->]]].
  - apply Qle_refl.
  - now apply cap_nonneg, nearest_nonneg.
  - exfalso; lra.
Qed.

Lemma rnd_le_pos (x y : Q) : 0 < x -> x <= y -> rnd x <= rnd y.
Proof.
  intros Hx H.
  destruct (rnd_cases x) as [[Hx' ->]|[[Hx' ->]|[Hx' ->]]]; try (exfalso; lra).
  destruct (rnd_cases y) as [[Hy ->]|[[Hy ->]|[Hy ->]]]; try (exfalso; lra).
  now apply cap_le, nearest_le.
Qed.

Lemma rnd_le (x y : Q) : x <= y -> rnd x <= rnd y.
Proof.
  intros H.
  destruct (Qlt_le_dec 0 x) as [Hx|Hx]; [now apply rnd_le_pos|].
  destruct (Qlt_le_dec y 0) as [Hy|Hy].
  - assert (L : rnd (- y) <= rnd (- x)) by (apply rnd_le_pos; lra).
    rewrite !rnd_opp in L. lra.
  - pose proof (rnd_nonneg y Hy) as P.
    assert (N : 0 <= rnd (- x)) by (apply rnd_nonneg; lra).
    rewrite rnd_opp in N. lra.
Qed.

Lemma rnd_range (x : Q) : - inf <= rnd x <= inf.
Proof.
  pose proof inf_pos as I.
  destruct (rnd_cases x) as [[Hx ->]|[[Hx ->]|[Hx ->]]].
  - lra.
  - pose proof (cap_le_inf (nearest x)).
    pose proof (cap_nonneg _ (nearest_nonneg x Hx)). lra.
  - pose proof (cap_le_inf (nearest (- x))).
    pose proof (cap_nonneg _ (nearest_nonneg (- x) (opp_pos x Hx))). lra.
Qed.

Lemma grid_pow2 (e : Z) : (-1022 <= e)%Z -> grid (2 ^ e).
Proof.
  intros H.
  assert (L : ilog2 (2 ^ e) = e).
  { apply ilog2_unique; [apply Qle_refl | apply pow2_lt; lia]. }
  exists (2 ^ 52)%Z. unfold quantum. rewrite L.
  rewrite quanta_pow2 by lia.
  replace (Z.max (e - 52) (-1074) + 52)%Z with e by lia. reflexivity.
Qed.

Lemma rnd_fixed (r : Q) : 0 < r -> r < inf -> grid r -> rnd r == r.
Proof.
  intros Hr Hi G.
  destruct (rnd_cases r) as [[Hx ->]|[[Hx ->]|[Hx ->]]]; try (exfalso; lra).
  pose proof (nearest_grid_fixed r Hr G) as E.
  destruct (cap_cases (nearest r)) as [[H1 ->]|[H1 ->]]; [exfalso; lra | exact E].
Qed.

Lemma rnd_beyond (x : Q) : inf <= x -> rnd x == inf.
Proof.
  intros H. pose proof inf_pos as I.
  destruct (rnd_cases x) as [[Hx ->]|[[Hx ->]|[Hx ->]]]; try (exfalso; lra).
  assert (N : inf <= nearest x).
  { rewrite <- (nearest_grid_fixed inf I (grid_pow2 1024 ltac:(lia))).
    now apply nearest_le. }
  destruct (cap_cases (nearest x)) as [[H1 ->]|[H1 ->]]; [reflexivity | lra].
Qed.

Lemma rnd_idem (x : Q) : rnd (rnd x) == rnd x.
Proof.
  assert (P : forall y, 0 < y -> rnd (rnd y) == rnd y).
  { intros y Hy.
    destruct (rnd_cases y) as [[Hx ->]|[[Hx ->]|[Hx ->]]]; try (exfalso; lra).
    destruct (cap_cases (nearest y)) as [[H1 ->]|[H1 E]].
    - apply rnd_beyond, Qle_refl.
    - pose proof (nearest_nonneg y Hy) as N.
      destruct (Qlt_le_dec 0 (nearest y)) as [Hp|Hz].
      + rewrite (rnd_comp _ _ E), E.
        apply rnd_fixed; [exact Hp | exact H1 | now apply nearest_grid].
      + assert (Z : cap (nearest y) == 0) by lra.
        rewrite (rnd_comp _ _ Z), Z. reflexivity. }
  destruct (rnd_cases x) as [[Hx E]|[[Hx _]|[Hx _]]].
  - rewrite E. reflexivity.
  - now apply P.
  - assert (E : rnd (rnd (- x)) == rnd (- x)) by (apply P; lra).
    rewrite (rnd_comp _ _ (rnd_opp x)), !rnd_opp in E. lra.
Qed.

Lemma float_rnd (x : Q) : float (rnd x).
Proof. apply rnd_idem. Qed.

Lemma float_0 : float 0.
Proof. reflexivity. Qed.

Lemma float_inf : float inf.
Proof. apply rnd_beyond, Qle_refl. Qed.

Lemma float_opp (x : Q) : float x -> float (- x).
Proof. unfold float. intros H. rewrite rnd_opp, H. reflexivity. Qed.

Lemma float_range (x : Q) : float x -> - inf <= x <= inf.
Proof. unfold float. intros H. rewrite <- H. apply rnd_range. Qed.

(** ** Products and sums of floats *)

Lemma infinite_cases (x : Q) :
  (infinite x = true /\ (inf <= x \/ x <= - inf))
  \/ (infinite x = false /\ - inf < x < inf).
Proof.
  unfold infinite.
  destruct (Qle_bool inf x) eqn:E1; [left; split; [reflexivity|]; left;
    now apply Qle_bool_iff|].
  destruct (Qle_bool x (- inf)) eqn:E2; [left; split; [reflexivity|]; right;
    now apply Qle_bool_iff|].
  right. split; [reflexivity|]. split; apply Qnot_le_lt; intros H;
    apply Qle_bool_iff in H; congruence.
Qed.

Lemma infinite_comp (x y : Q) : x == y -> infinite x = infinite y.
Proof.
  intros E. unfold infinite.
  assert (A : Qle_bool inf x = Qle_bool inf y).
  { apply eq_true_iff_eq. rewrite !Qle_bool_iff, E. reflexivity. }
  assert (B : Qle_bool x (- inf) = Qle_bool y (- inf)).
  { apply eq_true_iff_eq. rewrite !Qle_bool_iff, E. reflexivity. }
  now rewrite A, B.
Qed.

Lemma infinite_0 : infinite 0 = false.
Proof.
  pose proof inf_pos as I.
  destruct (infinite_cases 0) as [[_ [H|H]]|[E _]]; try (exfalso; lra).
  exact E.
Qed.

Lemma float_mul_floats (x y : Q) : float (mul_floats x y).
Proof.
  unfold mul_floats. destruct (infinite x || infinite y); [|apply float_rnd].
  destruct (Qcompare (x * y) 0).
  - apply float_0.
  - apply float_opp, float_inf.
  - apply float_inf.
Qed.

Lemma float_add_floats (x y : Q) : float x -> float y -> float (add_floats x y).
Proof.
  intros Fx Fy. unfold add_floats. destruct (infinite x); [exact Fx|].
  destruct (infinite y); [exact Fy | apply float_rnd].
Qed.

Lemma mul_floats_nonneg (x y : Q) : 0 <= x -> 0 <= y -> 0 <= mul_floats x y.
Proof.
  intros Hx Hy. pose proof inf_pos as I.
  assert (P : 0 <= x * y) by nra.
  unfold mul_floats. destruct (infinite x || infinite y); [|now apply rnd_nonneg].
  destruct (Qcompare_spec (x * y) 0) as [H|H|H]; lra.
Qed.

Lemma mul_floats_above (x w : Q) : 0 < w -> inf <= x -> mul_floats x w = inf.
Proof.
  intros Hw H. pose proof inf_pos as I. unfold mul_floats.
  destruct (infinite_cases x) as [[-> _]|[_ Ix]]; [|exfalso; lra].
  cbn [orb]. destruct (Qcompare_spec (x * w) 0) as [C|C|C];
    [exfalso; nra | exfalso; nra | reflexivity].
Qed.

Lemma mul_floats_below (x w : Q) : 0 < w -> x <= - inf -> mul_floats x w = - inf.
Proof.
  intros Hw H. pose proof inf_pos as I. unfold mul_floats.
  destruct (infinite_cases x) as [[-> _]|[_ Ix]]; [|exfalso; lra].
  cbn [orb]. destruct (Qcompare_spec (x * w) 0) as [C|C|C];
    [exfalso; nra | reflexivity | exfalso; nra].
Qed.

Lemma mul_floats_le_r (x y w : Q) :
  0 < w -> infinite w = false -> x <= y -> mul_floats x w <= mul_floats y w.
Proof.
  intros Hw Fw H. pose proof inf_pos as I.
  pose proof (float_range _ (float_mul_floats x w)) as Rx.
  pose proof (float_range _ (float_mul_floats y w)) as Ry.
  destruct (Qlt_le_dec x inf) as [X1|X1].
  2:{ rewrite (mul_floats_above x w), (mul_floats_above y w)
        by (assumption || lra). lra. }
  destruct (Qlt_le_dec (- inf) x) as [X2|X2].
  2:{ rewrite (mul_floats_below x w) by assumption. lra. }
  destruct (Qlt_le_dec y inf) as [Y1|Y1].
  2:{ rewrite (mul_floats_above y w) by assumption. lra. }
  unfold mul_floats. rewrite Fw, !orb_false_r.
  destruct (infinite_cases x) as [[_ Ix]|[-> _]]; [exfalso; lra|].
  destruct (infinite_cases y) as [[_ Iy]|[-> _]]; [exfalso; lra|].
  apply rnd_le. nra.
Qed.

Lemma add_floats_le_l (a b : Q) : float a -> 0 <= b -> a <= add_floats a b.
Proof.
  intros Fa Hb. pose proof (float_range a Fa) as R. unfold float in Fa.
  pose proof inf_pos as I. unfold add_floats.
  destruct (infinite_cases a) as [[-> _]|[-> Ra]]; [apply Qle_refl|].
  destruct (infinite_cases b) as [[-> [Rb|Rb]]|[-> Rb]]; try lra.
  assert (L : rnd a <= rnd (a + b)) by (apply rnd_le; lra). lra.
Qed.

Lemma add_floats_le_r (a b : Q) : float b -> 0 <= a -> b <= add_floats a b.
Proof.
  intros Fb Ha. pose proof (float_range b Fb) as R. unfold float in Fb.
  pose proof inf_pos as I. unfold add_floats.
  destruct (infinite_cases a) as [[-> [Ra|Ra]]|[-> Ra]]; try lra.
  destruct (infinite_cases b) as [[-> _]|[-> Rb]]; [apply Qle_refl|].
  assert (L : rnd b <= rnd (a + b)) by (apply rnd_le; lra). lra.
Qed.

Lemma add_floats_0_r (a : Q) : float a -> add_floats a 0 == a.
Proof.
  unfold float. intros Fa. unfold add_floats. rewrite infinite_0.
  destruct (infinite a); [reflexivity|].
  assert (E : a + 0 == a) by ring. now rewrite (rnd_comp _ _ E).
Qed.

Lemma add_floats_0_l (a : Q) : float a -> add_floats 0 a == a.
Proof.
  unfold float. intros Fa. unfold add_floats. rewrite infinite_0.
  destruct (infinite a); [reflexivity|].
  assert (E : 0 + a == a) by ring. now rewrite (rnd_comp _ _ E).
Qed.

Lemma mul_floats_0_l (w : Q) : infinite w = false -> mul_floats 0 w == 0.
Proof.
  intros Fw. unfold mul_floats. rewrite Fw, infinite_0. cbn [orb].
  assert (E : 0 * w == 0) by ring. rewrite (rnd_comp _ _ E). reflexivity.
Qed.

Lemma mul_floats_comp (x x' y y' : Q) :
  x == x' -> y == y' -> mul_floats x y == mul_floats x' y'.
Proof.
  intros Ex Ey. unfold mul_floats.
  rewrite (infinite_comp x x' Ex), (infinite_comp y y' Ey).
  assert (E : x * y == x' * y') by (rewrite Ex, Ey; reflexivity).
  rewrite (Qcompare_comp _ _ E 0 0 (Qeq_refl 0)).
  destruct (infinite x' || infinite y'); [reflexivity | now apply rnd_comp].
Qed.

Lemma add_floats_comp (x x' y y' : Q) :
  x == x' -> y == y' -> add_floats x y == add_floats x' y'.
Proof.
  intros Ex Ey. unfold add_floats.
  rewrite (infinite_comp x x' Ex), (infinite_comp y y' Ey).
  destruct (infinite x'); [exact Ex|].
  destruct (infinite y'); [exact Ey|].
  apply rnd_comp. rewrite Ex, Ey. reflexivity.
Qed.

(** ** Products and sums *)

Lemma rnd_0 : rnd 0 = 0.
Proof. reflexivity. Qed.

Lemma float_mul (x y : Q) : float (mul x y).
Proof. apply float_mul_floats. Qed.

Lemma float_add (x y : Q) : float (add x y).
Proof. apply float_add_floats; apply float_rnd. Qed.

Lemma mul_comp (x x' y y' : Q) : x == x' -> y == y' -> mul x y == mul x' y'.
Proof. intros Ex Ey. apply mul_floats_comp; now apply rnd_comp. Qed.

Lemma add_comp (x x' y y' : Q) : x == x' -> y == y' -> add x y == add x' y'.
Proof. intros Ex Ey. apply add_floats_comp; now apply rnd_comp. Qed.

(** On floats the operations are those of floats. *)
Lemma mul_of_floats (x y : Q) : float x -> float y -> mul x y == mul_floats x y.
Proof. intros Fx Fy. now apply mul_floats_comp. Qed.

Lemma add_of_floats (x y : Q) : float x -> float y -> add x y == add_floats x y.
Proof. intros Fx Fy. now apply add_floats_comp. Qed.

Lemma mul_nonneg (x y : Q) : 0 <= x -> 0 <= y -> 0 <= mul x y.
Proof. intros Hx Hy. apply mul_floats_nonneg; now apply rnd_nonneg. Qed.

(** Multiplying by a positive float keeps the order. *)
Lemma mul_le_r (x y w : Q) :
  0 < w -> float w -> infinite w = false -> x <= y -> mul x w <= mul y w.
Proof.
  intros Hw Fw Iw H. unfold float in Fw. apply mul_floats_le_r.
  - now rewrite Fw.
  - now rewrite (infinite_comp _ _ Fw).
  - now apply rnd_le.
Qed.

(** Adding a number that is not negative does not lower a float. *)
Lemma add_le_l (a b : Q) : float a -> 0 <= b -> a <= add a b.
Proof.
  intros Fa Hb. unfold float in Fa. rewrite <- Fa at 1.
  apply add_floats_le_l; [apply float_rnd | now apply rnd_nonneg].
Qed.

Lemma add_le_r (a b : Q) : float b -> 0 <= a -> b <= add a b.
Proof.
  intros Fb Ha. unfold float in Fb. rewrite <- Fb at 1.
  apply add_floats_le_r; [apply float_rnd | now apply rnd_nonneg].
Qed.

Lemma add_0_r (a : Q) : float a -> add a 0 == a.
Proof.
  intros Fa. unfold add. rewrite rnd_0.
  rewrite (add_floats_0_r (rnd a) (float_rnd a)). exact Fa.
Qed.

Lemma add_0_l (a : Q) : float a -> add 0 a == a.
Proof.
  intros Fa. unfold add. rewrite rnd_0.
  rewrite (add_floats_0_l (rnd a) (float_rnd a)). exact Fa.
Qed.

Lemma mul_0_l (w : Q) : float w -> infinite w = false -> mul 0 w == 0.
Proof.
  intros Fw Iw. unfold mul. rewrite rnd_0. apply mul_floats_0_l.
  now rewrite (infinite_comp _ _ Fw).
Qed.

End F64Facts.

(** ** Fusion *)

Lemma key_eqb_eq (a b : option string) : key_eqb a b = true <-> a = b.
Proof.
  destruct a as [x|], b as [y|]; simpl; try (split; congruence).
  rewrite String.eqb_eq. split; congruence.
Qed.

Lemma key_eqb_refl (a : option string) : key_eqb a a = true.
Proof. now apply key_eqb_eq. Qed.

Lemma key_eqb_neq (a b : option string) : key_eqb a b = false <-> a <> b.
Proof.
  rewrite <- key_eqb_eq. destruct (key_eqb a b); split; congruence.
Qed.

Lemma entry_of_none (l : list scored) (k : option string) :
  ~ In k (ids_of l) -> entry_of l k = None.
Proof.
  unfold entry_of, ids_of. induction l as [|r l IH]; simpl; [reflexivity|].
  intros H. destruct (key_eqb k (Product.id (fst r))) eqn:E.
  - apply key_eqb_eq in E. exfalso. apply H. now left.
  - apply IH. tauto.
Qed.

Lemma entry_of_in (l : list scored) (r : scored) :
  NoDup (ids_of l) -> In r l -> entry_of l (Product.id (fst r)) = Some r.
Proof.
  unfold entry_of, ids_of. induction l as [|x l IH]; simpl; [contradiction|].
  intros Hn [->|Hin].
  - now rewrite key_eqb_refl.
  - inversion Hn as [|? ? Hx Hn']; subst.
    destruct (key_eqb (Product.id (fst r)) (Product.id (fst x))) eqn:E.
    + apply key_eqb_eq in E. exfalso. apply Hx. rewrite <- E.
      apply in_map_iff. now exists r.
    + now apply IH.
Qed.

Lemma entry_of_some (l : list scored) (k : option string) (r : scored) :
  entry_of l k = Some r -> In r l /\ Product.id (fst r) = k.
Proof.
  unfold entry_of. intros H. apply find_some in H. destruct H as [Hin E].
  apply key_eqb_eq in E. now split.
Qed.

Section DictFacts.

Lemma get_set_same (k : option string) (v : scored) (d : combined_dict) :
  get k (set k v d) = Some v.
Proof.
  induction d as [|[k' v'] d IH]; simpl.
  - now rewrite key_eqb_refl.
  - destruct (key_eqb k k') eqn:E; simpl.
    + now rewrite key_eqb_refl.
    + now rewrite E.
Qed.

Lemma get_set_other (k k' : option string) (v : scored) (d : combined_dict) :
  k <> k' -> get k (set k' v d) = get k d.
Proof.
  intros Hne. induction d as [|[k0 v0] d IH]; simpl.
  - apply key_eqb_neq in Hne. now rewrite Hne.
  - destruct (key_eqb k' k0) eqn:E; simpl.
    + apply key_eqb_eq in E. subst k0.
      apply key_eqb_neq in Hne. now rewrite Hne.
    + now rewrite IH.
Qed.

Lemma keys_set (k k' : option string) (v : scored) (d : combined_dict) :
  In k (keys (set k' v d)) <-> k = k' \/ In k (keys d).
Proof.
  unfold keys. induction d as [|[k0 v0] d IH]; simpl.
  - intuition congruence.
  - destruct (key_eqb k' k0) eqn:E; simpl.
    + apply key_eqb_eq in E. subst k0. intuition congruence.
    + rewrite IH. intuition congruence.
Qed.

Lemma set_NoDup (k : option string) (v : scored) (d : combined_dict) :
  NoDup (keys d) -> NoDup (keys (set k v d)).
Proof.
  unfold keys. induction d as [|[k0 v0] d IH]; simpl; intros Hn.
  - constructor; [tauto | constructor].
  - inversion Hn as [|? ? Hk Hn']; subst.
    destruct (key_eqb k k0) eqn:E; simpl.
    + apply key_eqb_eq in E. subst k0. now constructor.
    + constructor; [|now apply IH].
      intros Hin. apply (keys_set k0 k v d) in Hin.
      apply key_eqb_neq in E. destruct Hin as [->|Hin]; [congruence|].
      contradiction.
Qed.

Lemma set_in (k k' : option string) (v r : scored) (d : combined_dict) :
  In (k, r) (set k' v d) -> (k = k' /\ r = v) \/ In (k, r) d.
Proof.
  induction d as [|[k0 v0] d IH]; simpl.
  - intros [H|[]]. injection H as <- <-. now left.
  - destruct (key_eqb k' k0); simpl.
    + intros [H|H]; [injection H as <- <-; now left | right; now right].
    + intros [H|H]; [right; now left|].
      destruct (IH H) as [?|?]; [now left | right; now right].
Qed.

Lemma set_filed (k : option string) (v : scored) (d : combined_dict) :
  Product.id (fst v) = k -> filed d -> filed (set k v d).
Proof.
  intros Hv Hd k' r Hin. apply set_in in Hin.
  destruct Hin as [[-> ->]|Hin]; [exact Hv | now apply Hd].
Qed.

Lemma get_some_in (k : option string) (r : scored) (d : combined_dict) :
  get k d = Some r -> In (k, r) d.
Proof.
  induction d as [|[k0 v0] d IH]; simpl; [discriminate|].
  destruct (key_eqb k k0) eqn:E.
  - apply key_eqb_eq in E. subst k0. intros H. injection H as ->. now left.
  - intros H. right. now apply IH.
Qed.

Lemma in_get (k : option string) (r : scored) (d : combined_dict) :
  NoDup (keys d) -> In (k, r) d -> get k d = Some r.
Proof.
  unfold keys. induction d as [|[k0 v0] d IH]; simpl; [contradiction|].
  intros Hn Hin. inversion Hn as [|? ? Hk Hn']; subst.
  destruct Hin as [H|Hin].
  - injection H as -> ->. now rewrite key_eqb_refl.
  - destruct (key_eqb k k0) eqn:E.
    + apply key_eqb_eq in E. subst k0. exfalso. apply Hk.
      apply in_map_iff. now exists (k, r).
    + now apply IH.
Qed.

Lemma add_semantic_wf (d : combined_dict) (r : scored) :
  wf d -> wf (add_semantic d r).
Proof.
  intros [Hn Hf]. destruct r as [p s]. unfold add_semantic. split.
  - now apply set_NoDup.
  - now apply set_filed.
Qed.

Lemma add_bm25_wf (d : combined_dict) (r : scored) :
  wf d -> wf (add_bm25 d r).
Proof.
  intros [Hn Hf]. destruct r as [p s]. unfold add_bm25.
  destruct (get (Product.id p) d) as [[p' c]|] eqn:E; split;
    try (now apply set_NoDup); apply set_filed; try assumption; simpl;
    try reflexivity.
  apply get_some_in in E. now apply Hf in E.
Qed.

Lemma add_semantic_keys (d : combined_dict) (r : scored) (k : option string) :
  In k (keys (add_semantic d r)) <-> k = Product.id (fst r) \/ In k (keys d).
Proof. destruct r as [p s]. apply keys_set. Qed.

Lemma add_bm25_keys (d : combined_dict) (r : scored) (k : option string) :
  In k (keys (add_bm25 d r)) <-> k = Product.id (fst r) \/ In k (keys d).
Proof.
  destruct r as [p s]. unfold add_bm25.
  destruct (get (Product.id p) d) as [[p' c]|]; apply keys_set.
Qed.

Lemma fold_wf (f : combined_dict -> scored -> combined_dict)
  (l : list scored) :
  (forall d r, wf d -> wf (f d r)) ->
  forall d, wf d -> wf (List.fold_left f l d).
Proof.
  intros Hf. induction l as [|r l IH]; intros d Hd; simpl; auto.
Qed.

Lemma fold_keys (f : combined_dict -> scored -> combined_dict)
  (l : list scored) :
  (forall d r k, In k (keys (f d r)) <-> k = Product.id (fst r) \/ In k (keys d)) ->
  forall d k,
    In k (keys (List.fold_left f l d)) <-> In k (ids_of l) \/ In k (keys d).
Proof.
  intros Hf. induction l as [|r l IH]; intros d k; simpl; [tauto|].
  rewrite IH, Hf. intuition congruence.
Qed.

Lemma fold_semantic_get (l : list scored) :
  NoDup (ids_of l) ->
  forall d k,
    get k (List.fold_left add_semantic l d)
    = match entry_of l k with
      | Some (p, s) => Some (p, F64.mul s semantic_weight)
      | None => get k d
      end.
Proof.
  unfold entry_of, ids_of.
  induction l as [|[p s] l IH]; intros Hn d k; simpl; [reflexivity|].
  inversion Hn as [|? ? Hp Hn']; subst. rewrite (IH Hn').
  destruct (key_eqb k (Product.id p)) eqn:E.
  - apply key_eqb_eq in E. subst k.
    fold (entry_of l (Product.id p)). rewrite (entry_of_none l _ Hp).
    apply get_set_same.
  - apply key_eqb_neq in E. now rewrite (get_set_other _ _ _ _ E).
Qed.

Lemma add_bm25_get (d : combined_dict) (p : Product.t) (s : Q)
  (k : option string) :
  get k (add_bm25 d (p, s))
  = if key_eqb k (Product.id p)
    then match get k d with
         | Some (p', c) => Some (p', F64.add c (F64.mul s bm25_weight))
         | None => Some (p, F64.mul s bm25_weight)
         end
    else get k d.
Proof.
  unfold add_bm25. destruct (key_eqb k (Product.id p)) eqn:E.
  - apply key_eqb_eq in E. subst k.
    destruct (get (Product.id p) d) as [[p' c]|]; apply get_set_same.
  - apply key_eqb_neq in E.
    destruct (get (Product.id p) d) as [[p' c]|]; now apply get_set_other.
Qed.

Lemma fold_bm25_get (l : list scored) :
  NoDup (ids_of l) ->
  forall d k,
    get k (List.fold_left add_bm25 l d)
    = match entry_of l k with
      | Some (p, s) =>
          match get k d with
          | Some (p', c) => Some (p', F64.add c (F64.mul s bm25_weight))
          | None => Some (p, F64.mul s bm25_weight)
          end
      | None => get k d
      end.
Proof.
  induction l as [|[p s] l IH]; intros Hn d k; [reflexivity|].
  inversion Hn as [|? ? Hp Hn']; subst.
  cbn [List.fold_left]. rewrite (IH Hn'), add_bm25_get.
  unfold entry_of. cbn [List.find fst].
  destruct (key_eqb k (Product.id p)) eqn:E.
  - apply key_eqb_eq in E. subst k.
    fold (entry_of l (Product.id p)). now rewrite (entry_of_none l _ Hp).
  - reflexivity.
Qed.

End DictFacts.

Lemma wf_empty : wf [].
Proof. split; [constructor | intros k r []]. Qed.

Lemma combine_dict_wf (sem lex : list scored) : wf (combine_dict sem lex).
Proof.
  unfold combine_dict.
  apply fold_wf; [apply add_bm25_wf|].
  apply fold_wf; [apply add_semantic_wf | apply wf_empty].
Qed.

Lemma combine_dict_keys (sem lex : list scored) (k : option string) :
  In k (keys (combine_dict sem lex)) <-> In k (ids_of sem) \/ In k (ids_of lex).
Proof.
  unfold combine_dict.
  rewrite (fold_keys add_bm25 lex add_bm25_keys).
  rewrite (fold_keys add_semantic sem add_semantic_keys). simpl. tauto.
Qed.

Lemma combine_dict_get (sem lex : list scored) (k : option string) :
  NoDup (ids_of sem) -> NoDup (ids_of lex) ->
  get k (combine_dict sem lex)
  = match entry_of lex k, entry_of sem k with
    | Some (pl, l), Some (ps, s) =>
        Some (ps, F64.add (F64.mul s semantic_weight) (F64.mul l bm25_weight))
    | Some (pl, l), None => Some (pl, F64.mul l bm25_weight)
    | None, Some (ps, s) => Some (ps, F64.mul s semantic_weight)
    | None, None => None
    end.
Proof.
  intros Hs Hl. unfold combine_dict.
  rewrite (fold_bm25_get lex Hl), (fold_semantic_get sem Hs). simpl.
  destruct (entry_of lex k) as [[pl l]|], (entry_of sem k) as [[ps s]|];
    reflexivity.
Qed.

Lemma filed_ids (d : combined_dict) :
  filed d -> ids_of (List.map snd d) = keys d.
Proof.
  unfold ids_of, keys. intros Hf. rewrite map_map.
  apply map_ext_in. intros [k r] Hin. simpl. now apply Hf.
Qed.

Lemma fused_in_get (sem lex : list scored) (r : scored) :
  In r (_combine_search_results sem lex) <->
  get (Product.id (fst r)) (combine_dict sem lex) = Some r.
Proof.
  unfold _combine_search_results.
  destruct (combine_dict_wf sem lex) as [Hn Hf].
  rewrite sorted_desc_in, in_map_iff. split.
  - intros ([k r'] & E & Hin). simpl in E. subst r'.
    rewrite (Hf _ _ Hin). now apply in_get.
  - intros H. apply get_some_in in H. now exists (Product.id (fst r), r).
Qed.

Lemma fused_ids_perm (sem lex : list scored) :
  Permutation (ids_of (_combine_search_results sem lex))
              (keys (combine_dict sem lex)).
Proof.
  unfold _combine_search_results.
  rewrite <- (filed_ids _ (proj2 (combine_dict_wf sem lex))).
  unfold ids_of. apply Permutation_map, sorted_desc_perm.
Qed.

Lemma slice_to_firstn {A} (n : Z) (l : list A) :
  exists m, slice_to n l = List.firstn m l /\ ((0 <= n)%Z -> m = Z.to_nat n).
Proof.
  unfold slice_to. destruct (0 <=? n)%Z eqn:E.
  - now exists (Z.to_nat n).
  - exists (List.length l - Z.to_nat (- n))%nat. split; [reflexivity|].
    apply Z.leb_gt in E. lia.
Qed.

Section FusionFacts.
Context {B : Backend}.

Lemma bm25_row_some (self : HybridRetriever.t) (scores : list Q)
  (filters : option dict) (idx : nat) (r : scored) :
  bm25_row self scores filters idx = Ok (Some r) ->
  0 < snd r <= 1.
Proof.
  unfold bm25_row, nth_or_raise.
  destruct (List.nth_error scores idx) as [score|]; cbn [bind]; [|discriminate].
  destruct (Qltb 0 score) eqn:E; [|discriminate].
  destruct (List.nth_error (products_ self) idx) as [p|]; cbn [bind];
    [|discriminate].
  destruct (_apply_filters p filters) as [[|]|e]; cbn [bind]; try discriminate.
  intros H. injection H as <-. simpl.
  apply Qltb_true_lt in E.
  assert (Hd : score / 10 == score * (1 # 10)) by (unfold Qdiv; reflexivity).
  destruct (Qmin_cases (score / 10) 1) as [[H1 E1]|[H1 E1]]; rewrite E1;
    rewrite ?Hd in *; lra.
Qed.

Lemma bm25_search_positive (self : HybridRetriever.t) (query : string)
  (max_results : Z) (filters : option dict) (out : list scored) :
  _bm25_search self query max_results filters = Ok out ->
  Forall (fun r => 0 < snd r <= 1) out.
Proof.
  unfold _bm25_search.
  destruct (bm25_index self) as [index|];
    [|intros H; injection H as <-; constructor].
  destruct (documents_ self) as [|doc docs];
    [intros H; injection H as <-; constructor|].
  intros H. apply Forall_forall. intros r Hr.
  pose proof (collect_in _ _ _ H Hr) as Hin.
  apply in_map_iff in Hin. destruct Hin as (i & Hi & _).
  now apply bm25_row_some in Hi.
Qed.

Lemma semantic_search_threshold (self : HybridRetriever.t) (query : string)
  (max_results : Z) (threshold : Q) (filters : option dict)
  (out : list scored) :
  _semantic_search self query max_results threshold filters = Ok out ->
  Forall (fun r => threshold <= snd r) out.
Proof.
  unfold _semantic_search.
  destruct (collection_query _ _ _ _) as [answer|e]; cbn [bind];
    [|discriminate].
  apply process_chroma_results_threshold.
Qed.

(** The two weights are positive floats. *)
Lemma semantic_weight_float :
  0 < semantic_weight /\ F64.float semantic_weight
  /\ F64.infinite semantic_weight = false.
Proof.
  split; [vm_compute; reflexivity|].
  split; [apply F64Facts.float_rnd | vm_compute; reflexivity].
Qed.

Lemma bm25_weight_float :
  0 < bm25_weight /\ F64.float bm25_weight
  /\ F64.infinite bm25_weight = false.
Proof.
  split; [vm_compute; reflexivity|].
  split; [apply F64Facts.float_rnd | vm_compute; reflexivity].
Qed.

(** The score of a product of one list only: the missing score counts
    for 0. *)
Lemma fused_score_semantic_only (s : Q) :
  F64.mul s semantic_weight
  == F64.add (F64.mul s semantic_weight) (F64.mul 0 bm25_weight).
Proof.
  destruct bm25_weight_float as (_ & F & I).
  rewrite (F64Facts.add_comp _ (F64.mul s semantic_weight) _ 0
             (Qeq_refl _) (F64Facts.mul_0_l _ F I)).
  symmetry. apply F64Facts.add_0_r, F64Facts.float_mul.
Qed.

Lemma fused_score_lexical_only (l : Q) :
  F64.mul l bm25_weight
  == F64.add (F64.mul 0 semantic_weight) (F64.mul l bm25_weight).
Proof.
  destruct semantic_weight_float as (_ & F & I).
  rewrite (F64Facts.add_comp _ 0 _ (F64.mul l bm25_weight)
             (F64Facts.mul_0_l _ F I) (Qeq_refl _)).
  symmetry. apply F64Facts.add_0_l, F64Facts.float_mul.
Qed.

(** A sum of two weighted scores that are not negative is at least
    each of them. *)
Lemma fused_score_bound (s l : Q) :
  0 <= s -> 0 <= l ->
  Qmax (F64.mul s semantic_weight) (F64.mul l bm25_weight)
  <= F64.add (F64.mul s semantic_weight) (F64.mul l bm25_weight).
Proof.
  intros Hs Hl. destruct semantic_weight_float as (W1 & _ & _).
  destruct bm25_weight_float as (W2 & _ & _).
  apply Q.max_lub.
  - apply F64Facts.add_le_l; [apply F64Facts.float_mul|].
    apply F64Facts.mul_nonneg; [exact Hl | now apply Qlt_le_weak].
  - apply F64Facts.add_le_r; [apply F64Facts.float_mul|].
    apply F64Facts.mul_nonneg; [exact Hs | now apply Qlt_le_weak].
Qed.

(** C3. In a hybrid search the fused list holds exactly the ids of the
    semantic and of the lexical results, each once; it is sorted by
    score, descending, and the search returns its first [max_results]
    entries.  When the two lists hold each product id at most once, the
    score of a product is its semantic score x 0.7 plus its lexical score
    x 0.3 in binary64 arithmetic, a missing score counting for 0; a
    product of both lists has a semantic score at least the threshold
    and a positive lexical score, and when its semantic score is not
    negative its score is at least max(0.7 x semantic, 0.3 x lexical). *)
Theorem hybrid_fusion (self : HybridRetriever.t) (query : string)
  (max_results : Z) (similarity_threshold : Q) (filters : option dict)
  (sem lex : list scored) :
  _semantic_search self query max_results similarity_threshold filters = Ok sem ->
  match bm25_index self with
  | Some _ => _bm25_search self query max_results filters
  | None => Ok []
  end = Ok lex ->
  _hybrid_search self query max_results similarity_threshold filters
  = Ok (slice_to max_results (_combine_search_results sem lex))
  /\ ((0 <= max_results)%Z ->
      slice_to max_results (_combine_search_results sem lex)
      = List.firstn (Z.to_nat max_results) (_combine_search_results sem lex))
  /\ (forall k,
        In k (ids_of (_combine_search_results sem lex))
        <-> In k (ids_of sem) \/ In k (ids_of lex))
  /\ NoDup (ids_of (_combine_search_results sem lex))
  /\ StronglySorted (fun x y => snd y <= snd x)
                    (_combine_search_results sem lex)
  /\ StronglySorted (fun x y => snd y <= snd x)
                    (slice_to max_results (_combine_search_results sem lex))
  /\ (NoDup (ids_of sem) -> NoDup (ids_of lex) ->
      (forall p c,
         In (p, c) (_combine_search_results sem lex) ->
         c == F64.add
                (F64.mul (score_or_zero sem (Product.id p)) semantic_weight)
                (F64.mul (score_or_zero lex (Product.id p)) bm25_weight))
      /\ (forall p c ps s pl l,
            In (p, c) (_combine_search_results sem lex) ->
            In (ps, s) sem -> Product.id ps = Product.id p ->
            In (pl, l) lex -> Product.id pl = Product.id p ->
            similarity_threshold <= s /\ 0 < l
            /\ c == F64.add (F64.mul s semantic_weight) (F64.mul l bm25_weight)
            /\ (0 <= s ->
                Qmax (F64.mul s semantic_weight) (F64.mul l bm25_weight) <= c))).
Proof.
  intros Hsem Hlex.
  split.
  { unfold _hybrid_search. rewrite Hsem. cbn [bind].
    destruct (bm25_index self); rewrite Hlex; reflexivity. }
  split.
  { intros Hmax. unfold slice_to.
    now rewrite (proj2 (Z.leb_le 0 max_results) Hmax). }
  split.
  { intros k. rewrite <- combine_dict_keys. split;
      apply Permutation_in; [|symmetry]; apply fused_ids_perm. }
  split.
  { eapply Permutation_NoDup; [symmetry; apply fused_ids_perm|].
    apply combine_dict_wf. }
  split; [apply (sorted_desc_sorted snd)|].
  split.
  { destruct (slice_to_firstn max_results (_combine_search_results sem lex))
      as (m & -> & _).
    apply (firstn_sorted snd), (sorted_desc_sorted snd). }
  intros Ns Nl.
  assert (Hscore : forall p c,
             In (p, c) (_combine_search_results sem lex) ->
             c == F64.add
                    (F64.mul (score_or_zero sem (Product.id p)) semantic_weight)
                    (F64.mul (score_or_zero lex (Product.id p)) bm25_weight)).
  { intros p c Hin. apply fused_in_get in Hin. cbn [fst] in Hin.
    rewrite (combine_dict_get sem lex _ Ns Nl) in Hin.
    unfold score_or_zero.
    destruct (entry_of lex (Product.id p)) as [[pl l]|],
             (entry_of sem (Product.id p)) as [[ps s]|];
      try discriminate; injection Hin as _ <-; cbn [snd].
    - reflexivity.
    - apply fused_score_lexical_only.
    - apply fused_score_semantic_only. }
  split; [exact Hscore|].
  intros p c ps s pl l Hin Hs Eps Hl Epl.
  apply Hscore in Hin.
  assert (Es : score_or_zero sem (Product.id p) = s).
  { unfold score_or_zero. rewrite <- Eps.
    pose proof (entry_of_in sem (ps, s) Ns Hs) as E. cbn [fst] in E.
    now rewrite E. }
  assert (El : score_or_zero lex (Product.id p) = l).
  { unfold score_or_zero. rewrite <- Epl.
    pose proof (entry_of_in lex (pl, l) Nl Hl) as E. cbn [fst] in E.
    now rewrite E. }
  rewrite Es, El in Hin.
  assert (Hs0 : similarity_threshold <= s).
  { apply semantic_search_threshold in Hsem.
    rewrite Forall_forall in Hsem. exact (Hsem _ Hs). }
  assert (Hl0 : 0 < l).
  { destruct (bm25_index self).
    - apply bm25_search_positive in Hlex.
      rewrite Forall_forall in Hlex. specialize (Hlex _ Hl). cbn [snd] in Hlex.
      tauto.
    - injection Hlex as <-. contradiction. }
  split; [exact Hs0|]. split; [exact Hl0|]. split; [exact Hin|].
  intros Hs1. rewrite Hin.
  apply fused_score_bound; [exact Hs1 | now apply Qlt_le_weak].
Qed.

End FusionFacts.

(** C3, as stated, fails for [far_store], whose documents lie at the
    distance 3/2 of the query, searched with the threshold -1.  The
    first product is in both lists, with the semantic score -1/2 and the
    lexical score 1: its fused score is negative, below 0.3 times the
    lexical score, in binary64 as in exact arithmetic. *)
Lemma negative_score_below_maximum :
  _semantic_search Memory.far_store Memory.the_query 5 (-1) None
  = Ok Memory.far_sem
  /\ _bm25_search Memory.far_store Memory.the_query 5 None = Ok Memory.far_lex
  /\ _hybrid_search Memory.far_store Memory.the_query 5 (-1) None
     = Ok Memory.far_fused
  /\ NoDup (ids_of Memory.far_sem)
  /\ NoDup (ids_of Memory.far_lex)
  /\ In Memory.far_semantic Memory.far_sem
  /\ In Memory.far_lexical Memory.far_lex
  /\ In Memory.far_result Memory.far_fused
  /\ Product.id (fst Memory.far_semantic) = Product.id (fst Memory.far_result)
  /\ Product.id (fst Memory.far_lexical) = Product.id (fst Memory.far_result)
  /\ snd Memory.far_semantic == - (1 # 2)
  /\ snd Memory.far_lexical == 1
  /\ snd Memory.far_result < 0
  /\ snd Memory.far_result
     < Qmax (F64.mul (snd Memory.far_semantic) semantic_weight)
            (F64.mul (snd Memory.far_lexical) bm25_weight)
  /\ snd Memory.far_result
     < Qmax ((7 # 10) * snd Memory.far_semantic)
            ((3 # 10) * snd Memory.far_lexical).
Proof.
  split; [vm_compute; reflexivity|].
  split; [vm_compute; reflexivity|].
  split; [vm_compute; reflexivity|].
  split; [vm_compute; repeat constructor; simpl; intuition discriminate|].
  split; [vm_compute; repeat constructor; simpl; intuition discriminate|].
  split; [vm_compute; left; reflexivity|].
  split; [vm_compute; left; reflexivity|].
  split; [vm_compute; left; reflexivity|].
  split; [vm_compute; reflexivity|].
  split; [vm_compute; reflexivity|].
  split; [vm_compute; reflexivity|].
  split; [vm_compute; reflexivity|].
  split; [vm_compute; reflexivity|].
  split; vm_compute; reflexivity.
Qed.

(** The order of two results can hang on the last bit of a score.  In
    exact arithmetic [p1] and [p2] have the same fused score, 49/100, and
    [p1], filed first, would come first; in binary64 0.7 x 0.7 is the
    float below 0.4 x 0.7 + 0.7 x 0.3, and [p2] comes first. *)
Lemma fusion_order_hangs_on_rounding :
  (7 # 10) * (7 # 10) == (4 # 10) * (7 # 10) + (7 # 10) * (3 # 10)
  /\ _combine_search_results Memory.tie_sem Memory.tie_lex = Memory.tie_fused
  /\ ids_of Memory.tie_fused = [Some "p2"; Some "p1"]
  /\ List.map snd Memory.tie_fused
     = [2206763817411543 # 4503599627370496;
        8827055269646171 # 18014398509481984].
Proof.
  split; [reflexivity|].
  split; [vm_compute; reflexivity|].
  split; vm_compute; reflexivity.
Qed.

(** * Further properties *)

(** ** Generalities on [re.sub], [re.search] and strings *)

Lemma substring_skipn (s : string) :
  forall i k,
    substring i k s = Str.of_list (List.firstn k (List.skipn i (Str.to_list s))).
Proof.
  induction s as [|c s IH]; intros i k.
  - destruct i, k; reflexivity.
  - destruct i as [|i].
    + destruct k as [|k]; [reflexivity|].
      cbn [substring]. rewrite IH. reflexivity.
    + cbn [substring]. rewrite IH. reflexivity.
Qed.

Lemma to_list_length (s : string) : List.length (Str.to_list s) = String.length s.
Proof. induction s as [|c s IH]; simpl; [reflexivity | now rewrite IH]. Qed.

Lemma concat_cons2 (sep a x : string) (xs : list string) :
  String.concat sep (a :: x :: xs) = (a ++ sep ++ String.concat sep (x :: xs))%string.
Proof. reflexivity. Qed.

Lemma pieces_cons (ms : list Re.rmatch) (from : nat) (s : string) :
  exists x xs, Re.pieces ms from s = x :: xs.
Proof. destruct ms; simpl; eauto. Qed.

Section Scan.
Variable p : Re.pattern.
Variable mlen : list ascii -> option nat.
Hypothesis mlen_some :
  forall cu n, mlen (Re.rest cu) = Some n ->
    exists m, Re.match_at p cu = Some m
              /\ Re.m_start m = Re.pos cu
              /\ Re.m_end m = (Re.pos cu + n)%nat.
Hypothesis mlen_none :
  forall cu, mlen (Re.rest cu) = None -> Re.match_at p cu = None.
Hypothesis mlen_range :
  forall l n, mlen l = Some n -> (1 <= n <= List.length l)%nat.

Lemma search_from_scan :
  forall fuel cu,
    (List.length (Re.rest cu) <= fuel)%nat ->
    match Re.search_from fuel p cu with
    | None =>
        forall k, (k <= List.length (Re.rest cu))%nat ->
                  mlen (List.skipn k (Re.rest cu)) = None
    | Some m =>
        exists k n,
          Re.m_start m = (Re.pos cu + k)%nat
          /\ Re.m_end m = (Re.pos cu + k + n)%nat
          /\ (forall j, (j < k)%nat -> mlen (List.skipn j (Re.rest cu)) = None)
          /\ mlen (List.skipn k (Re.rest cu)) = Some n
    end.
Proof.
  induction fuel as [|fuel IH]; intros cu Hlen.
  - cbn [Re.search_from].
    destruct (mlen (Re.rest cu)) as [n|] eqn:E.
    + destruct (mlen_some cu n E) as (m & -> & Hs & He).
      exists 0%nat, n. rewrite !Nat.add_0_r. repeat split; auto. intros j Hj; lia.
    + rewrite (mlen_none cu E).
      intros k Hk. assert (k = 0)%nat by lia. subst k. exact E.
  - cbn [Re.search_from].
    destruct (mlen (Re.rest cu)) as [n|] eqn:E.
    + destruct (mlen_some cu n E) as (m & -> & Hs & He).
      exists 0%nat, n. rewrite !Nat.add_0_r. repeat split; auto. intros j Hj; lia.
    + rewrite (mlen_none cu E).
      destruct (Re.rest cu) as [|c tl] eqn:Er.
      * intros k _. destruct k; exact E.
      * specialize (IH (Re.advance cu)).
        assert (Ea : Re.advance cu = Re.mkCursor (Some c) tl (S (Re.pos cu))).
        { unfold Re.advance. rewrite Er. reflexivity. }
        rewrite Ea in IH. cbn [Re.rest Re.pos] in IH.
        rewrite Ea.
        simpl in Hlen.
        specialize (IH ltac:(lia)).
        destruct (Re.search_from fuel p (Re.mkCursor (Some c) tl (S (Re.pos cu))))
          as [m|].
        -- destruct IH as (k & n & Hs & He & Hb & Hm).
           exists (S k), n. repeat split; try lia.
           ++ intros [|j] Hj; [exact E|]. apply Hb. lia.
           ++ exact Hm.
        -- intros [|k] Hk; [exact E|]. apply IH. simpl in Hk. lia.
Qed.

Lemma advance_to_skip :
  forall j fuel cu,
    (j <= List.length (Re.rest cu))%nat -> (j <= fuel)%nat ->
    Re.rest (Re.advance_to fuel (Re.pos cu + j) cu) = List.skipn j (Re.rest cu)
    /\ Re.pos (Re.advance_to fuel (Re.pos cu + j) cu) = (Re.pos cu + j)%nat.
Proof.
  induction j as [|j IH]; intros fuel cu Hj Hf.
  - rewrite Nat.add_0_r. destruct fuel as [|fuel]; cbn [Re.advance_to].
    + split; reflexivity.
    + rewrite Nat.leb_refl. split; reflexivity.
  - destruct fuel as [|fuel]; [lia|].
    cbn [Re.advance_to].
    assert (E : (Re.pos cu + S j <=? Re.pos cu)%nat = false)
      by (apply Nat.leb_gt; lia).
    rewrite E.
    destruct (Re.rest cu) as [|c tl] eqn:Er; [simpl in Hj; lia|].
    assert (Ea : Re.advance cu = Re.mkCursor (Some c) tl (S (Re.pos cu))).
    { unfold Re.advance. rewrite Er. reflexivity. }
    rewrite Ea.
    specialize (IH fuel (Re.mkCursor (Some c) tl (S (Re.pos cu)))).
    cbn [Re.rest Re.pos] in IH. simpl in Hj.
    replace (Re.pos cu + S j)%nat with (S (Re.pos cu) + j)%nat by lia.
    destruct (IH ltac:(lia) ltac:(lia)) as [H1 H2].
    split; [rewrite H1; reflexivity | rewrite H2; lia].
Qed.

Variable repl : string.
Variable spec : list ascii -> string.
Hypothesis spec_none :
  forall l,
    (forall k, (k <= List.length l)%nat -> mlen (List.skipn k l) = None) ->
    spec l = Str.of_list l.
Hypothesis spec_some :
  forall l k n,
    (forall j, (j < k)%nat -> mlen (List.skipn j l) = None) ->
    mlen (List.skipn k l) = Some n ->
    spec l = (Str.of_list (List.firstn k l) ++ repl ++ spec (List.skipn (k + n) l))%string.

Lemma finditer_pieces (s : string) :
  forall fuel cu,
    Re.rest cu = List.skipn (Re.pos cu) (Str.to_list s) ->
    (List.length (Re.rest cu) < fuel)%nat ->
    String.concat repl (Re.pieces (Re.finditer_from fuel p cu) (Re.pos cu) s)
    = spec (Re.rest cu).
Proof.
  induction fuel as [|fuel IH]; intros cu Hrest Hfuel; [lia|].
  cbn [Re.finditer_from].
  pose proof (search_from_scan (List.length (Re.rest cu)) cu (Nat.le_refl _)) as Hs.
  destruct (Re.search_from (List.length (Re.rest cu)) p cu) as [m|].
  - destruct Hs as (k & n & Hst & Hen & Hb & Hm).
    pose proof (mlen_range _ _ Hm) as Hn.
    rewrite List.length_skipn in Hn.
    assert (Hneq : (Re.m_end m =? Re.m_start m)%nat = false)
      by (apply Nat.eqb_neq; lia).
    rewrite Hneq.
    destruct (advance_to_skip (k + n) (S (List.length (Re.rest cu))) cu
                ltac:(lia) ltac:(lia)) as [Hr Hp].
    replace (Re.pos cu + (k + n))%nat with (Re.m_end m) in Hr, Hp by lia.
    set (cu' := Re.advance_to (S (List.length (Re.rest cu))) (Re.m_end m) cu) in *.
    cbn [Re.pieces].
    assert (Hpos' : Re.m_end m = Re.pos cu') by (rewrite Hp; lia).
    rewrite Hpos'.
    destruct (pieces_cons (Re.finditer_from fuel p cu') (Re.pos cu') s)
      as (x & xs & Hx).
    assert (IH' : String.concat repl
                    (Re.pieces (Re.finditer_from fuel p cu') (Re.pos cu') s)
                  = spec (Re.rest cu')).
    { apply IH.
      - rewrite Hr, Hrest, List.skipn_skipn. f_equal. lia.
      - rewrite Hr, List.length_skipn. lia. }
    rewrite Hx in IH' |- *.
    rewrite concat_cons2, IH'.
    rewrite (spec_some (Re.rest cu) k n Hb Hm).
    rewrite Hr. f_equal.
    rewrite substring_skipn, <- Hrest. f_equal. f_equal. lia.
  - cbn [Re.pieces String.concat].
    rewrite (spec_none _ Hs).
    rewrite substring_skipn, <- Hrest.
    rewrite List.firstn_all2; [reflexivity|].
    rewrite Hrest, List.length_skipn, to_list_length. lia.
Qed.

Lemma sub_scan (s : string) : Re.sub p repl s = spec (Str.to_list s).
Proof.
  unfold Re.sub, Re.split, Re.finditer.
  apply (finditer_pieces s (S (String.length s)) (Re.start_of s)).
  - reflexivity.
  - cbn [Re.start_of Re.rest]. rewrite to_list_length. lia.
Qed.

End Scan.

(** ** Normalisation *)

Lemma filter_ext (f g : ascii -> bool) (s : string) :
  (forall c, f c = g c) -> Str.filter f s = Str.filter g s.
Proof.
  intros H. induction s as [|c s IH]; simpl; [reflexivity|].
  rewrite H, IH. reflexivity.
Qed.

Lemma filter_forallb (f : ascii -> bool) (s : string) :
  Str.forallb f (Str.filter f s) = true.
Proof.
  induction s as [|c s IH]; simpl; [reflexivity|].
  destruct (f c) eqn:E; simpl; [rewrite E|]; exact IH.
Qed.

Lemma filter_id (f : ascii -> bool) (s : string) :
  Str.forallb f s = true -> Str.filter f s = s.
Proof.
  induction s as [|c s IH]; simpl; [reflexivity|].
  intros H. apply andb_true_iff in H as [-> H]. now rewrite IH.
Qed.

Section ClassSub.
Variable ic neg : bool.
Variable items : list Re.citem.

Lemma class_match_some (cu : Re.cursor) (n : nat) :
  Re.class_len (Re.set_match ic neg items) (Re.rest cu) = Some n ->
  exists m, Re.match_at (Re.mkPattern ic (Re.RSet neg items)) cu = Some m
            /\ Re.m_start m = Re.pos cu
            /\ Re.m_end m = (Re.pos cu + n)%nat.
Proof.
  unfold Re.class_len, Re.match_at. cbn [Re.icase Re.body Re.run].
  destruct (Re.rest cu) as [|c tl]; [discriminate|].
  destruct (Re.set_match ic neg items c); [|discriminate].
  intros [= <-]. eexists. split; [reflexivity|].
  cbn [Re.m_start Re.m_end Re.pos]. split; [reflexivity | lia].
Qed.

Lemma class_match_none (cu : Re.cursor) :
  Re.class_len (Re.set_match ic neg items) (Re.rest cu) = None ->
  Re.match_at (Re.mkPattern ic (Re.RSet neg items)) cu = None.
Proof.
  unfold Re.class_len, Re.match_at. cbn [Re.icase Re.body Re.run].
  destruct (Re.rest cu) as [|c tl]; [reflexivity|].
  destruct (Re.set_match ic neg items c); [discriminate | reflexivity].
Qed.

Lemma class_len_range (f : ascii -> bool) (l : list ascii) (n : nat) :
  Re.class_len f l = Some n -> (1 <= n <= List.length l)%nat.
Proof.
  unfold Re.class_len. destruct l as [|c tl]; [discriminate|].
  destruct (f c); [|discriminate]. intros [= <-]. simpl. lia.
Qed.

Lemma filter_spec_none (f : ascii -> bool) (l : list ascii) :
  (forall k, (k <= List.length l)%nat -> Re.class_len f (List.skipn k l) = None) ->
  Str.filter (fun c => negb (f c)) (Str.of_list l) = Str.of_list l.
Proof.
  induction l as [|c tl IH]; intros H; [reflexivity|].
  cbn [Str.of_list Str.filter].
  pose proof (H 0%nat ltac:(simpl; lia)) as H0. cbn [List.skipn Re.class_len] in H0.
  destruct (f c); [discriminate|]. cbn [negb].
  rewrite IH; [reflexivity|].
  intros k Hk. apply (H (S k)). simpl. lia.
Qed.

Lemma filter_spec_some (f : ascii -> bool) :
  forall k l n,
    (forall j, (j < k)%nat -> Re.class_len f (List.skipn j l) = None) ->
    Re.class_len f (List.skipn k l) = Some n ->
    Str.filter (fun c => negb (f c)) (Str.of_list l)
    = (Str.of_list (List.firstn k l) ++ ""
       ++ Str.filter (fun c => negb (f c)) (Str.of_list (List.skipn (k + n) l)))%string.
Proof.
  induction k as [|k IH]; intros l n Hb Hm.
  - cbn [List.skipn] in Hm. unfold Re.class_len in Hm.
    destruct l as [|c tl]; [discriminate|].
    destruct (f c) eqn:E; [|discriminate]. injection Hm as <-.
    cbn [Str.of_list Str.filter List.firstn Nat.add List.skipn append].
    rewrite E. reflexivity.
  - pose proof (Hb 0%nat ltac:(lia)) as H0. cbn [List.skipn] in H0.
    destruct l as [|c tl]; [discriminate|].
    unfold Re.class_len in H0. destruct (f c) eqn:E; [discriminate|].
    cbn [Str.of_list Str.filter List.firstn Nat.add List.skipn append].
    rewrite E. cbn [negb]. f_equal.
    apply IH; [|exact Hm].
    intros j Hj. apply (Hb (S j)). lia.
Qed.

Lemma class_sub_filter (s : string) :
  Re.sub (Re.mkPattern ic (Re.RSet neg items)) "" s
  = Str.filter (fun c => negb (Re.set_match ic neg items c)) s.
Proof.
  rewrite (sub_scan (Re.mkPattern ic (Re.RSet neg items))
             (Re.class_len (Re.set_match ic neg items))
             class_match_some class_match_none (class_len_range _)
             ""
             (fun l => Str.filter (fun c => negb (Re.set_match ic neg items c))
                                  (Str.of_list l))
             (filter_spec_none _)
             (fun l k n => filter_spec_some _ k l n)).
  now rewrite of_to_list.
Qed.

End ClassSub.

Lemma not_AZ09_class (c : ascii) :
  negb (Re.set_match false true [AZ; d09] c) = is_AZ09 c.
Proof.
  unfold Re.set_match, Re.item_match_ic, is_AZ09.
  cbn [List.existsb Re.item_match AZ d09 andb xorb].
  change (Chr.code "A") with 65%nat. change (Chr.code "Z") with 90%nat.
  change (Chr.code "0") with 48%nat. change (Chr.code "9") with 57%nat.
  destruct (Chr.between 65 90 c), (Chr.between 48 57 c); reflexivity.
Qed.

Lemma normalize_reference_filter (reference : string) :
  _normalize_reference reference = Str.filter is_AZ09 (Str.upper reference).
Proof.
  unfold _normalize_reference, re_not_AZ09, Re.ncls.
  rewrite class_sub_filter. apply filter_ext, not_AZ09_class.
Qed.

Lemma AZ09_upper_fixed (c : ascii) :
  is_AZ09 c = true -> (Chr.code c =? 223)%nat = false /\ Chr.upper c = c.
Proof.
  destruct c as [[] [] [] [] [] [] [] []]; vm_compute; intros H;
    try discriminate; split; reflexivity.
Qed.

Lemma upper_AZ09 (s : string) :
  Str.forallb is_AZ09 s = true -> Str.upper s = s.
Proof.
  induction s as [|c s IH]; [reflexivity|].
  cbn [Str.forallb Str.upper]. intros H. apply andb_true_iff in H as [Hc H].
  destruct (AZ09_upper_fixed c Hc) as [-> ->]. now rewrite IH.
Qed.

(** X1. [_normalize_reference] keeps exactly the characters [A-Z] and
    [0-9] of the upper-cased reference, in their order: the result holds
    no other character, and normalising it again changes nothing. *)
Theorem normalize_reference_alphabet (reference : string) :
  _normalize_reference reference = Str.filter is_AZ09 (Str.upper reference)
  /\ Str.forallb is_AZ09 (_normalize_reference reference) = true
  /\ _normalize_reference (_normalize_reference reference)
     = _normalize_reference reference.
Proof.
  assert (H : Str.forallb is_AZ09 (_normalize_reference reference) = true).
  { rewrite normalize_reference_filter. apply filter_forallb. }
  repeat split.
  - apply normalize_reference_filter.
  - exact H.
  - rewrite (normalize_reference_filter (_normalize_reference reference)).
    rewrite (upper_AZ09 _ H). now apply filter_id.
Qed.

Lemma space_class (c : ascii) :
  Re.set_match false false [Re.CSpace] c = Chr.isspace c.
Proof.
  unfold Re.set_match, Re.item_match_ic. simpl.
  destruct (Chr.isspace c); reflexivity.
Qed.

Lemma span_le (f : ascii -> bool) (l : list ascii) :
  (Re.span f l <= List.length l)%nat.
Proof.
  induction l as [|c tl IH]; simpl; [lia|]. destruct (f c); lia.
Qed.

Lemma span_firstn (f : ascii -> bool) (l : list ascii) :
  List.forallb f (List.firstn (Re.span f l) l) = true.
Proof.
  induction l as [|c tl IH]; simpl; [reflexivity|].
  destruct (f c) eqn:E; simpl; [rewrite E; exact IH | reflexivity].
Qed.

Lemma span_skipn (f : ascii -> bool) (l : list ascii) :
  match List.skipn (Re.span f l) l with
  | [] => True
  | c :: _ => f c = false
  end.
Proof.
  induction l as [|c tl IH]; simpl; [exact I|].
  destruct (f c) eqn:E; simpl; [exact IH | exact E].
Qed.

Lemma span_zero (f : ascii -> bool) (l : list ascii) (j : nat) :
  Re.span f l = 0%nat -> List.forallb f (List.firstn j l) = true -> j = 0%nat \/ l = [].
Proof.
  destruct l as [|c tl]; [now right|].
  destruct j as [|j]; [now left|].
  simpl. destruct (f c); [discriminate|]. discriminate.
Qed.

Lemma run_len_range (f : ascii -> bool) (l : list ascii) (n : nat) :
  Re.run_len f l = Some n -> (1 <= n <= List.length l)%nat.
Proof.
  unfold Re.run_len. pose proof (span_le f l) as H.
  destruct (Re.span f l) as [|m]; [discriminate|]. intros [= <-]. lia.
Qed.

Lemma run_len_span (f : ascii -> bool) (l : list ascii) (n : nat) :
  Re.run_len f l = Some n -> Re.span f l = n /\ (1 <= n)%nat.
Proof.
  unfold Re.run_len. destruct (Re.span f l) as [|m]; [discriminate|].
  intros [= <-]. split; [reflexivity | lia].
Qed.

Lemma spaces_match_unfold (cu : Re.cursor) :
  Re.match_at re_spaces cu
  = Re.rep_loop Re.rmatch
      (Re.run false Re.rmatch (Re.RSet false [Re.CSpace])) 1 None
      (fun cu' cs =>
         Some (Re.mkMatch (Re.pos cu) (Re.pos cu')
                 (Str.take_list (Re.pos cu' - Re.pos cu) (Re.rest cu)) cs))
      (List.length (Re.rest cu)) 0 cu [].
Proof. reflexivity. Qed.

Lemma spaces_match_some (cu : Re.cursor) (n : nat) :
  Re.run_len Chr.isspace (Re.rest cu) = Some n ->
  exists m, Re.match_at re_spaces cu = Some m
            /\ Re.m_start m = Re.pos cu
            /\ Re.m_end m = (Re.pos cu + n)%nat.
Proof.
  intros H. apply run_len_span in H as [Hn Hpos].
  pose proof (span_le Chr.isspace (Re.rest cu)) as Hle.
  pose proof (span_firstn Chr.isspace (Re.rest cu)) as Hall.
  pose proof (span_skipn Chr.isspace (Re.rest cu)) as Hstop.
  rewrite Hn in Hle, Hall, Hstop.
  assert (Hlen : List.length (List.firstn n (Re.rest cu)) = n)
    by (rewrite List.length_firstn; lia).
  eexists. split.
  - rewrite spaces_match_unfold.
    apply class_loop_greedy
      with (run_ := List.firstn n (Re.rest cu)) (tl := List.skipn n (Re.rest cu)).
    + rewrite (forallb_ext_eq _ _ _ space_class). exact Hall.
    + destruct (List.skipn n (Re.rest cu)); [exact I|].
      rewrite space_class. exact Hstop.
    + symmetry. apply List.firstn_skipn.
    + rewrite Hlen. exact Hle.
    + rewrite Hlen. lia.
    + reflexivity.
  - cbn [Re.m_start Re.m_end]. split; [reflexivity|].
    rewrite Hlen. apply pos_iter_advance. exact Hle.
Qed.

Lemma spaces_match_none (cu : Re.cursor) :
  Re.run_len Chr.isspace (Re.rest cu) = None -> Re.match_at re_spaces cu = None.
Proof.
  intros H. unfold Re.run_len in H.
  destruct (Re.span Chr.isspace (Re.rest cu)) as [|m] eqn:Es; [|discriminate].
  rewrite spaces_match_unfold.
  match goal with |- ?t = None => destruct t as [x|] eqn:E end; [|reflexivity].
  apply class_loop_sound with (l := Re.rest cu) in E; [|reflexivity].
  destruct E as (j & Hj & Hall & Hlo & _).
  rewrite (forallb_ext_eq _ _ _ space_class) in Hall.
  destruct (span_zero _ _ _ Es Hall) as [-> | Hnil]; [lia|].
  rewrite Hnil in Hj. simpl in Hj. lia.
Qed.

Lemma squeeze_run (l : list ascii) :
  squeeze true (Str.of_list l)
  = squeeze false (Str.of_list (List.skipn (Re.span Chr.isspace l) l)).
Proof.
  induction l as [|c tl IH]; [reflexivity|].
  cbn [Str.of_list squeeze Re.span].
  destruct (Chr.isspace c) eqn:E.
  - cbn [List.skipn]. exact IH.
  - cbn [List.skipn Str.of_list squeeze]. rewrite E. reflexivity.
Qed.

Lemma squeeze_spec_none (l : list ascii) :
  (forall k, (k <= List.length l)%nat ->
             Re.run_len Chr.isspace (List.skipn k l) = None) ->
  squeeze false (Str.of_list l) = Str.of_list l.
Proof.
  induction l as [|c tl IH]; intros H; [reflexivity|].
  cbn [Str.of_list squeeze].
  pose proof (H 0%nat ltac:(simpl; lia)) as H0.
  cbn [List.skipn] in H0. unfold Re.run_len in H0. cbn [Re.span] in H0.
  destruct (Chr.isspace c); [discriminate|].
  rewrite IH; [reflexivity|].
  intros k Hk. apply (H (S k)). simpl. lia.
Qed.

Lemma squeeze_spec_some :
  forall k l n,
    (forall j, (j < k)%nat -> Re.run_len Chr.isspace (List.skipn j l) = None) ->
    Re.run_len Chr.isspace (List.skipn k l) = Some n ->
    squeeze false (Str.of_list l)
    = (Str.of_list (List.firstn k l) ++ " "
       ++ squeeze false (Str.of_list (List.skipn (k + n) l)))%string.
Proof.
  induction k as [|k IH]; intros l n Hb Hm.
  - cbn [List.skipn] in Hm. apply run_len_span in Hm as [Hs Hn].
    destruct l as [|c tl]; [simpl in Hs; lia|].
    cbn [Re.span] in Hs. destruct (Chr.isspace c) eqn:E; [|lia].
    cbn [Str.of_list squeeze List.firstn Nat.add append]. rewrite E.
    rewrite squeeze_run. subst n. reflexivity.
  - pose proof (Hb 0%nat ltac:(lia)) as H0. cbn [List.skipn] in H0.
    destruct l as [|c tl].
    + cbn [List.skipn] in Hm. discriminate.
    + unfold Re.run_len in H0. cbn [Re.span] in H0.
      destruct (Chr.isspace c) eqn:E; [discriminate|].
      cbn [Str.of_list squeeze List.firstn Nat.add List.skipn append].
      rewrite E. f_equal.
      apply IH; [|exact Hm].
      intros j Hj. apply (Hb (S j)). lia.
Qed.

Lemma sub_spaces_squeeze (s : string) :
  Re.sub re_spaces " " s = squeeze false s.
Proof.
  rewrite (sub_scan re_spaces (Re.run_len Chr.isspace)
             spaces_match_some spaces_match_none (run_len_range _)
             " " (fun l => squeeze false (Str.of_list l))
             squeeze_spec_none (fun l k n => squeeze_spec_some k l n)).
  now rewrite of_to_list.
Qed.

(** Strings: [strip] *)

Lemma rstrip_nil_iff (s : string) :
  Str.rstrip s = "" <-> Str.forallb Chr.isspace s = true.
Proof.
  induction s as [|c s IH]; [now split|].
  cbn [Str.rstrip Str.forallb].
  destruct (Str.rstrip s) as [|d t] eqn:E.
  - destruct (Chr.isspace c); cbn [andb].
    + split; [intros _; now apply IH | reflexivity].
    + split; discriminate.
  - split; [discriminate|].
    intros H. apply andb_true_iff in H as [_ H]. apply IH in H. discriminate.
Qed.

Lemma rstrip_unfold (c : ascii) (s : string) :
  Str.rstrip (String c s)
  = if Chr.isspace c && Str.forallb Chr.isspace s then ""
    else String c (Str.rstrip s).
Proof.
  cbn [Str.rstrip].
  destruct (Str.forallb Chr.isspace s) eqn:E.
  - apply rstrip_nil_iff in E. rewrite E.
    destruct (Chr.isspace c); reflexivity.
  - rewrite andb_false_r.
    destruct (Str.rstrip s) as [|d t] eqn:Er; [|reflexivity].
    apply rstrip_nil_iff in Er. congruence.
Qed.

Lemma lstrip_length (s : string) :
  (String.length (Str.lstrip s) <= String.length s)%nat.
Proof.
  induction s as [|c s IH]; simpl; [lia|].
  destruct (Chr.isspace c); simpl; lia.
Qed.

Lemma lstrip_fixed (s : string) :
  Str.lstrip s = s <->
  match s with EmptyString => True | String c _ => Chr.isspace c = false end.
Proof.
  destruct s as [|c s]; [now split|].
  cbn [Str.lstrip]. destruct (Chr.isspace c) eqn:E.
  - split; [|discriminate]. intros H.
    pose proof (lstrip_length s) as Hl. rewrite H in Hl. simpl in Hl. lia.
  - now split.
Qed.

Lemma lstrip_lstrip (s : string) : Str.lstrip (Str.lstrip s) = Str.lstrip s.
Proof.
  induction s as [|c s IH]; [reflexivity|].
  cbn [Str.lstrip]. destruct (Chr.isspace c) eqn:E; [exact IH|].
  cbn [Str.lstrip]. now rewrite E.
Qed.

Lemma rstrip_forallb_space (s : string) :
  Str.forallb Chr.isspace (Str.rstrip s) = true -> Str.rstrip s = "".
Proof.
  induction s as [|c s IH]; [reflexivity|].
  rewrite rstrip_unfold.
  destruct (Chr.isspace c && Str.forallb Chr.isspace s) eqn:E; [reflexivity|].
  cbn [Str.forallb]. intros H. apply andb_true_iff in H as [Hc H].
  apply IH in H. apply rstrip_nil_iff in H. rewrite Hc, H in E. discriminate.
Qed.

Lemma rstrip_rstrip (s : string) : Str.rstrip (Str.rstrip s) = Str.rstrip s.
Proof.
  induction s as [|c s IH]; [reflexivity|].
  rewrite rstrip_unfold.
  destruct (Chr.isspace c && Str.forallb Chr.isspace s) eqn:E; [reflexivity|].
  rewrite rstrip_unfold, IH.
  destruct (Chr.isspace c && Str.forallb Chr.isspace (Str.rstrip s)) eqn:E2;
    [|reflexivity].
  apply andb_true_iff in E2 as [Hc H2].
  apply rstrip_forallb_space, rstrip_nil_iff in H2.
  rewrite Hc, H2 in E. discriminate.
Qed.

Lemma lstrip_rstrip_fixed (s : string) :
  Str.lstrip s = s -> Str.lstrip (Str.rstrip s) = Str.rstrip s.
Proof.
  intros H. apply lstrip_fixed in H. apply lstrip_fixed.
  destruct s as [|c s]; [exact I|].
  rewrite rstrip_unfold, H. cbn [andb]. exact H.
Qed.

Lemma strip_clean (s : string) :
  Str.lstrip (Str.strip s) = Str.strip s /\ Str.rstrip (Str.strip s) = Str.strip s.
Proof.
  unfold Str.strip. split.
  - apply lstrip_rstrip_fixed, lstrip_lstrip.
  - apply rstrip_rstrip.
Qed.

Lemma strip_fixed (s : string) :
  Str.lstrip s = s -> Str.rstrip s = s -> Str.strip s = s.
Proof. intros Hl Hr. unfold Str.strip. now rewrite Hl. Qed.

(** [squeeze] *)

Lemma squeeze_squeeze (s : string) :
  forall b, squeeze b (squeeze b s) = squeeze b s.
Proof.
  induction s as [|c s IH]; intros b; [reflexivity|].
  cbn [squeeze]. destruct (Chr.isspace c) eqn:E.
  - destruct b; [apply IH|].
    cbn [squeeze]. change (Chr.isspace " ") with true. cbn iota.
    now rewrite IH.
  - destruct b; cbn [squeeze]; rewrite E, IH; reflexivity.
Qed.

Lemma squeeze_keeps_nonspace (s : string) :
  forall b, Str.forallb Chr.isspace s = false ->
            Str.forallb Chr.isspace (squeeze b s) = false.
Proof.
  induction s as [|c s IH]; intros b H; [discriminate|].
  cbn [squeeze Str.forallb] in *. destruct (Chr.isspace c) eqn:E.
  - cbn [andb] in H. destruct b; [now apply IH|].
    cbn [Str.forallb]. change (Chr.isspace " ") with true. cbn [andb].
    now apply IH.
  - cbn [Str.forallb]. rewrite E. reflexivity.
Qed.

Lemma lstrip_squeeze (s : string) :
  Str.lstrip s = s -> Str.lstrip (squeeze false s) = squeeze false s.
Proof.
  intros H. apply lstrip_fixed in H. apply lstrip_fixed.
  destruct s as [|c s]; [exact I|].
  cbn [squeeze]. rewrite H. exact H.
Qed.

Lemma rstrip_squeeze (s : string) :
  forall b, Str.rstrip s = s -> Str.rstrip (squeeze b s) = squeeze b s.
Proof.
  induction s as [|c s IH]; intros b H; [reflexivity|].
  rewrite rstrip_unfold in H.
  destruct (Chr.isspace c && Str.forallb Chr.isspace s) eqn:E; [discriminate|].
  injection H as H.
  cbn [squeeze]. destruct (Chr.isspace c) eqn:Ec.
  - cbn [andb] in E.
    destruct b; [now apply IH|].
    rewrite rstrip_unfold, (squeeze_keeps_nonspace s true E), andb_false_r.
    now rewrite IH.
  - rewrite rstrip_unfold, Ec. cbn [andb]. now rewrite IH.
Qed.

Lemma forallb_lstrip (g : ascii -> bool) (s : string) :
  Str.forallb g s = true -> Str.forallb g (Str.lstrip s) = true.
Proof.
  induction s as [|c s IH]; [reflexivity|].
  cbn [Str.lstrip]. destruct (Chr.isspace c); [|exact (fun H => H)].
  cbn [Str.forallb]. intros H. apply andb_true_iff in H as [_ H]. now apply IH.
Qed.

Lemma forallb_rstrip (g : ascii -> bool) (s : string) :
  Str.forallb g s = true -> Str.forallb g (Str.rstrip s) = true.
Proof.
  induction s as [|c s IH]; [reflexivity|].
  rewrite rstrip_unfold.
  destruct (Chr.isspace c && Str.forallb Chr.isspace s); [reflexivity|].
  cbn [Str.forallb]. intros H. apply andb_true_iff in H as [-> H]. now apply IH.
Qed.

Lemma forallb_squeeze (g : ascii -> bool) (s : string) :
  g " "%char = true ->
  forall b, Str.forallb g s = true -> Str.forallb g (squeeze b s) = true.
Proof.
  intros Hg. induction s as [|c s IH]; intros b H; [reflexivity|].
  cbn [Str.forallb] in H. apply andb_true_iff in H as [Hc H].
  cbn [squeeze]. destruct (Chr.isspace c).
  - destruct b; [now apply IH|]. cbn [Str.forallb]. rewrite Hg. now apply IH.
  - cbn [Str.forallb]. rewrite Hc. now apply IH.
Qed.

(** Case *)

Lemma upper_char_fixed (c : ascii) :
  (Chr.code c =? 223)%nat = false -> upper_fixed (Chr.upper c) = true.
Proof.
  destruct c as [[] [] [] [] [] [] [] []]; vm_compute; intros H;
    try discriminate; reflexivity.
Qed.

Lemma upper_forallb_fixed (s : string) :
  Str.forallb upper_fixed (Str.upper s) = true.
Proof.
  induction s as [|c s IH]; [reflexivity|].
  cbn [Str.upper]. destruct (Chr.code c =? 223)%nat eqn:E.
  - cbn [Str.forallb]. rewrite IH. reflexivity.
  - cbn [Str.forallb]. now rewrite (upper_char_fixed c E), IH.
Qed.

Lemma upper_fixed_id (s : string) :
  Str.forallb upper_fixed s = true -> Str.upper s = s.
Proof.
  induction s as [|c s IH]; [reflexivity|].
  cbn [Str.forallb Str.upper]. intros H. apply andb_true_iff in H as [Hc H].
  unfold upper_fixed in Hc. apply andb_true_iff in Hc as [H1 H2].
  apply negb_true_iff in H1. rewrite H1.
  apply Ascii.eqb_eq in H2. rewrite H2. now rewrite IH.
Qed.

Lemma lower_char_fixed (c : ascii) : lower_fixed (Chr.lower c) = true.
Proof. destruct c as [[] [] [] [] [] [] [] []]; vm_compute; reflexivity. Qed.

Lemma lower_forallb_fixed (s : string) :
  Str.forallb lower_fixed (Str.lower s) = true.
Proof.
  induction s as [|c s IH]; [reflexivity|].
  unfold Str.lower in *. cbn [Str.map Str.forallb].
  now rewrite lower_char_fixed, IH.
Qed.

Lemma lower_fixed_id (s : string) :
  Str.forallb lower_fixed s = true -> Str.lower s = s.
Proof.
  induction s as [|c s IH]; [reflexivity|].
  unfold Str.lower in *. cbn [Str.forallb Str.map].
  intros H. apply andb_true_iff in H as [Hc H].
  apply Ascii.eqb_eq in Hc. rewrite Hc. now rewrite IH.
Qed.

Lemma upper_lower_char (c : ascii) :
  (Chr.code (Chr.lower c) =? 223)%nat = (Chr.code c =? 223)%nat
  /\ Chr.upper (Chr.lower c) = Chr.upper c.
Proof. destruct c as [[] [] [] [] [] [] [] []]; vm_compute; split; reflexivity. Qed.

Lemma upper_lower (s : string) : Str.upper (Str.lower s) = Str.upper s.
Proof.
  induction s as [|c s IH]; [reflexivity|].
  unfold Str.lower in *. cbn [Str.map Str.upper].
  destruct (upper_lower_char c) as [-> ->]. now rewrite IH.
Qed.

Section Normal.
Variable case_ : string -> string.
Variable fixed : ascii -> bool.
Hypothesis case_fixed : forall s, Str.forallb fixed (case_ s) = true.
Hypothesis fixed_id : forall s, Str.forallb fixed s = true -> case_ s = s.
Hypothesis fixed_space : fixed " "%char = true.

Lemma normal_form_fixed (s : string) :
  let n := fun x => squeeze false (Str.strip (case_ x)) in
  n (n s) = n s /\ Str.strip (n s) = n s.
Proof.
  intros n. unfold n.
  destruct (strip_clean (case_ s)) as [Hl Hr].
  assert (Hs : Str.strip (squeeze false (Str.strip (case_ s)))
               = squeeze false (Str.strip (case_ s))).
  { apply strip_fixed; [now apply lstrip_squeeze | now apply rstrip_squeeze]. }
  split; [|exact Hs].
  rewrite fixed_id.
  - rewrite Hs. apply squeeze_squeeze.
  - apply forallb_squeeze; [exact fixed_space|].
    unfold Str.strip. apply forallb_rstrip, forallb_lstrip, case_fixed.
Qed.

End Normal.

(** X2. [_normalize_brand_name] is the upper-cased brand, stripped, with
    every run of white space replaced by one space.  Normalising twice is
    normalising once and the result has no white space at either end.
    For a brand of ASCII characters the case does not matter. *)
Theorem normalize_brand_name_normal_form (brand : string) :
  _normalize_brand_name brand = squeeze false (Str.strip (Str.upper brand))
  /\ _normalize_brand_name (_normalize_brand_name brand)
     = _normalize_brand_name brand
  /\ Str.strip (_normalize_brand_name brand) = _normalize_brand_name brand
  /\ (ascii_only brand = true ->
      _normalize_brand_name (Str.lower brand) = _normalize_brand_name brand).
Proof.
  assert (E : forall b, _normalize_brand_name b
                        = squeeze false (Str.strip (Str.upper b))).
  { intros b. unfold _normalize_brand_name. apply sub_spaces_squeeze. }
  destruct (normal_form_fixed Str.upper upper_fixed upper_forallb_fixed
              upper_fixed_id eq_refl brand) as [H1 H2].
  cbv zeta in H1, H2.
  repeat split.
  - apply E.
  - rewrite (E (_normalize_brand_name brand)), (E brand). exact H1.
  - rewrite (E brand). exact H2.
  - intros _. rewrite (E (Str.lower brand)), (E brand), upper_lower.
    reflexivity.
Qed.

(** X3. [_normalize_characteristic_name] is the lower-cased name,
    stripped, with every run of white space replaced by one space;
    normalising twice is normalising once and the result has no white
    space at either end. *)
Theorem normalize_characteristic_name_normal_form (name : string) :
  _normalize_characteristic_name name
  = squeeze false (Str.strip (Str.lower name))
  /\ _normalize_characteristic_name (_normalize_characteristic_name name)
     = _normalize_characteristic_name name
  /\ Str.strip (_normalize_characteristic_name name)
     = _normalize_characteristic_name name.
Proof.
  assert (E : forall b, _normalize_characteristic_name b
                        = squeeze false (Str.strip (Str.lower b))).
  { intros b. unfold _normalize_characteristic_name. apply sub_spaces_squeeze. }
  destruct (normal_form_fixed Str.lower lower_fixed lower_forallb_fixed
              lower_fixed_id eq_refl name) as [H1 H2].
  cbv zeta in H1, H2.
  repeat split.
  - apply E.
  - rewrite (E (_normalize_characteristic_name name)), (E name). exact H1.
  - rewrite (E name). exact H2.
Qed.

(** ** Validation *)

Lemma existsb_to_list (f : ascii -> bool) (s : string) :
  Str.existsb f s = List.existsb f (Str.to_list s).
Proof. induction s as [|c s IH]; simpl; [reflexivity | now rewrite IH]. Qed.

Lemma alnum_class (c : ascii) :
  Re.set_match false false [AZ; az; d09] c = ascii_alnum c.
Proof.
  unfold Re.set_match, Re.item_match_ic, ascii_alnum, ascii_letter.
  cbn [List.existsb Re.item_match AZ az d09 andb xorb].
  change (Chr.code "A") with 65%nat. change (Chr.code "Z") with 90%nat.
  change (Chr.code "a") with 97%nat. change (Chr.code "z") with 122%nat.
  change (Chr.code "0") with 48%nat. change (Chr.code "9") with 57%nat.
  destruct (Chr.between 65 90 c), (Chr.between 97 122 c), (Chr.between 48 57 c);
    reflexivity.
Qed.

Lemma non_letter_class (c : ascii) :
  Re.set_match false true [AZ; az] c = negb (ascii_letter c).
Proof.
  unfold Re.set_match, Re.item_match_ic, ascii_letter.
  cbn [List.existsb Re.item_match AZ az andb xorb].
  change (Chr.code "A") with 65%nat. change (Chr.code "Z") with 90%nat.
  change (Chr.code "a") with 97%nat. change (Chr.code "z") with 122%nat.
  destruct (Chr.between 65 90 c), (Chr.between 97 122 c); reflexivity.
Qed.

Lemma class_len_none_all (f : ascii -> bool) (l : list ascii) :
  (forall k, (k <= List.length l)%nat -> Re.class_len f (List.skipn k l) = None) ->
  List.existsb f l = false.
Proof.
  induction l as [|c tl IH]; intros H; [reflexivity|].
  pose proof (H 0%nat ltac:(simpl; lia)) as H0. cbn [List.skipn Re.class_len] in H0.
  cbn [List.existsb]. destruct (f c); [discriminate|].
  apply IH. intros k Hk. apply (H (S k)). simpl. lia.
Qed.

Lemma class_len_some_exists (f : ascii -> bool) :
  forall k l n, Re.class_len f (List.skipn k l) = Some n -> List.existsb f l = true.
Proof.
  induction k as [|k IH]; intros l n H.
  - cbn [List.skipn] in H. destruct l as [|c tl]; [discriminate|].
    cbn [Re.class_len] in H. cbn [List.existsb]. destruct (f c); [reflexivity|discriminate].
  - destruct l as [|c tl]; [discriminate|].
    cbn [List.skipn] in H. cbn [List.existsb]. rewrite (IH _ _ H). apply orb_true_r.
Qed.

(** [re.search] for a one-character class finds a match exactly when some
    character is in the class. *)
Lemma class_search (ic neg : bool) (items : list Re.citem) (s : string) :
  (match Re.search (Re.mkPattern ic (Re.RSet neg items)) s with
   | Some _ => true
   | None => false
   end)
  = Str.existsb (Re.set_match ic neg items) s.
Proof.
  unfold Re.search. rewrite existsb_to_list.
  pose proof (search_from_scan (Re.mkPattern ic (Re.RSet neg items))
                (Re.class_len (Re.set_match ic neg items))
                (class_match_some ic neg items) (class_match_none ic neg items)
                (String.length s) (Re.start_of s)) as H.
  cbn [Re.start_of Re.rest Re.pos] in H.
  rewrite to_list_length in H. specialize (H (Nat.le_refl _)).
  destruct (Re.search_from _ _ _) as [m|].
  - destruct H as (k & n & _ & _ & _ & Hm).
    symmetry. exact (class_len_some_exists _ _ _ _ Hm).
  - symmetry. apply class_len_none_all.
    intros k Hk. apply H. now rewrite <- to_list_length.
Qed.

Lemma existsb_ext (f g : ascii -> bool) (s : string) :
  (forall c, f c = g c) -> Str.existsb f s = Str.existsb g s.
Proof.
  intros H. induction s as [|c s IH]; simpl; [reflexivity | now rewrite H, IH].
Qed.

Lemma match_no_letter_unfold (brand : string) :
  Re.match_ re_no_letter brand
  = Re.rep_loop Re.rmatch
      (Re.run false Re.rmatch (Re.RSet true [AZ; az])) 0 None
      (fun cu' cs' =>
         if Re.at_eol cu'
         then Some (Re.mkMatch 0 (Re.pos cu')
                      (Str.take_list (Re.pos cu' - 0) (Str.to_list brand)) cs')
         else None)
      (List.length (Str.to_list brand)) 0
      (Re.mkCursor None (Str.to_list brand) 0) [].
Proof. reflexivity. Qed.

Lemma existsb_negb_forallb (f : ascii -> bool) (l : list ascii) :
  List.existsb f l = negb (List.forallb (fun c => negb (f c)) l).
Proof.
  induction l as [|c l IH]; [reflexivity|].
  cbn [List.existsb List.forallb]. rewrite IH. now destruct (f c).
Qed.

(** [^[^A-Za-z]*$] holds of the strings without an ASCII letter. *)
Lemma no_letter_spec (brand : string) :
  (match Re.match_ re_no_letter brand with Some _ => true | None => false end)
  = negb (Str.existsb ascii_letter brand).
Proof.
  rewrite existsb_to_list, existsb_negb_forallb, negb_involutive.
  apply Bool.eq_iff_eq_true.
  rewrite match_no_letter_unfold.
  set (l := Str.to_list brand).
  set (cu0 := Re.mkCursor None l 0).
  split.
  - destruct (Re.rep_loop _ _ _ _ _ _ _ _ _) as [m|] eqn:E; [intros _|discriminate].
    apply class_loop_sound with (l := l) in E; [|reflexivity].
    destruct E as (j & Hj & Hall & Hlo & Hk).
    destruct (Re.at_eol (Nat.iter j Re.advance cu0)) eqn:Eol; [|discriminate].
    unfold Re.at_eol in Eol. rewrite rest_iter_advance in Eol.
    cbn [Re.rest cu0] in Eol.
    rewrite (forallb_ext_eq _ _ _ non_letter_class) in Hall.
    rewrite <- (firstn_skipn j l), forallb_app, Hall.
    destruct (List.skipn j l) as [|c [|c' tl]]; try discriminate;
      [reflexivity|].
    apply Ascii.eqb_eq in Eol. subst c. reflexivity.
  - intros Hall.
    rewrite class_loop_greedy
      with (run_ := l) (tl := [])
           (x := Re.mkMatch 0 (List.length l)
                   (Str.take_list (List.length l - 0) l) []);
      [reflexivity| | | | | |].
    + now rewrite (forallb_ext_eq _ _ _ non_letter_class).
    + exact I.
    + cbn [Re.rest cu0]. now rewrite app_nil_r.
    + lia.
    + lia.
    + unfold Re.at_eol. rewrite rest_iter_advance. cbn [Re.rest cu0].
      rewrite skipn_all. rewrite pos_iter_advance by (simpl; lia).
      reflexivity.
Qed.

Lemma letter_not_digit (c : ascii) : ascii_letter c = true -> Chr.isdigit c = false.
Proof.
  destruct c as [[] [] [] [] [] [] [] []]; vm_compute; intros H;
    try discriminate; reflexivity.
Qed.

Lemma letter_not_isdigit (s : string) :
  Str.existsb ascii_letter s = true -> Str.isdigit s = false.
Proof.
  unfold Str.isdigit. intros H.
  assert (F : Str.forallb Chr.isdigit s = false).
  { induction s as [|c s IH]; [discriminate|].
    cbn [Str.existsb Str.forallb] in *.
    destruct (ascii_letter c) eqn:E.
    - now rewrite (letter_not_digit c E).
    - cbn [orb] in H. rewrite (IH H). apply andb_false_r. }
  rewrite F. apply andb_false_r.
Qed.

Lemma is_valid_brand_spec (brand : string) :
  _is_valid_brand brand
  = (2 <=? String.length brand)%nat && (String.length brand <=? 50)%nat
    && Str.existsb ascii_letter brand.
Proof.
  unfold _is_valid_brand. rewrite no_letter_spec, negb_involutive.
  destruct (Str.existsb ascii_letter brand) eqn:E.
  - rewrite (letter_not_isdigit brand E). cbn [negb]. now rewrite !andb_true_r.
  - now rewrite !andb_false_r.
Qed.

Lemma is_valid_reference_spec (reference : string) :
  _is_valid_reference reference
  = (3 <=? String.length reference)%nat && (String.length reference <=? 20)%nat
    && Str.existsb ascii_alnum reference.
Proof.
  unfold _is_valid_reference, re_alnum, Re.cls.
  rewrite class_search. f_equal. apply existsb_ext, alnum_class.
Qed.

(** X4. A brand is accepted by [_is_valid_brand] exactly when it has 2
    to 50 characters and at least one of them is an ASCII letter; the
    [isdigit] test of the source rejects nothing more. *)
Theorem valid_brand_has_ascii_letter (brand : string) :
  _is_valid_brand brand = true <->
  (2 <= String.length brand <= 50)%nat
  /\ Str.existsb ascii_letter brand = true.
Proof.
  rewrite is_valid_brand_spec, !andb_true_iff, !Nat.leb_le. tauto.
Qed.

(** X5. A reference is accepted by [_is_valid_reference] exactly when
    it has 3 to 20 characters and at least one of them is an ASCII letter
    or digit. *)
Theorem valid_reference_has_ascii_alnum (reference : string) :
  _is_valid_reference reference = true <->
  (3 <= String.length reference <= 20)%nat
  /\ Str.existsb ascii_alnum reference = true.
Proof.
  rewrite is_valid_reference_spec, !andb_true_iff, !Nat.leb_le. tauto.
Qed.

(** ** The extracted products *)

Section ExtractionFacts.
Variable gid : string -> nat -> string.

(** X6. No step of the extraction of a section raises, whatever the
    text: every group the patterns read took part in its match and every
    confidence passes the validation of the data model.  The [except]
    branch of the section loop is never taken by
    [_extract_single_product]. *)
Theorem extraction_never_raises (text source_path : string) (idx : nat) :
  (exists brands, _extract_brands text = Ok brands)
  /\ (exists references, _extract_references text = Ok references)
  /\ (exists characteristics, _extract_characteristics text = Ok characteristics)
  /\ (exists o, _extract_single_product gid text source_path idx = Ok o).
Proof.
  repeat split.
  - apply extract_brands_total.
  - apply extract_references_total.
  - apply extract_characteristics_total.
  - apply single_product_never_raises.
Qed.

Lemma contributions_length
  (single : string -> string -> nat -> result (option Product.t))
  (source_path : string) (sections : list string) :
  forall idx,
    (List.length (contributions single source_path idx sections)
     <= List.length sections)%nat.
Proof.
  induction sections as [|s sections IH]; intros idx; [simpl; lia|].
  cbn [contributions]. rewrite List.length_app. specialize (IH (S idx)).
  unfold contribution. destruct (single s source_path idx) as [[p|]|e];
    simpl; lia.
Qed.

(** X7. [extract_from_text] returns no more products than there are
    sections.  Each product has the id generated for the index of its
    section, the name extracted from that section, the source path, the
    currency EUR, and neither description, category nor price. *)
Theorem extracted_product_fields (text source_path : string) :
  (List.length (extract_from_text gid text source_path)
   <= List.length (_split_into_product_sections text))%nat
  /\ forall p,
       In p (extract_from_text gid text source_path) ->
       exists idx section,
         List.nth_error (_split_into_product_sections text) idx = Some section
         /\ Product.id p = Some (gid source_path idx)
         /\ Product.name p = _extract_product_name section
         /\ Product.source_document p = Some source_path
         /\ Product.currency p = Some "EUR"
         /\ Product.description p = None
         /\ Product.category p = None
         /\ Product.price p = None.
Proof.
  split.
  - unfold extract_from_text, _extract_products_from_text, extract_products_with.
    rewrite sections_loop_contributions. apply contributions_length.
  - intros p Hin.
    unfold extract_from_text, _extract_products_from_text in Hin.
    apply extract_products_with_in in Hin.
    destruct Hin as (idx & section & Hn & Hs).
    apply single_product_inv in Hs.
    destruct Hs as (b & bs & r & rs & cs & _ & _ & _ & ->).
    exists idx, section. cbn. repeat split; assumption.
Qed.

End ExtractionFacts.

Lemma strip_strip (s : string) : Str.strip (Str.strip s) = Str.strip s.
Proof. destruct (strip_clean s) as [Hl Hr]. now apply strip_fixed. Qed.

Lemma brand_candidate_shape (text : string) (p : ExtractionPattern)
  (m : Re.rmatch) (b : ProductBrand.t) :
  brand_candidate text p m = Ok (Some b) ->
  exists g,
    Re.group 1 m = Some g
    /\ b = ProductBrand.mk (Str.strip g) (_normalize_brand_name (Str.strip g)) []
             (confidence_modifier p * _calculate_brand_confidence (Str.strip g) text)
    /\ _is_valid_brand (Str.strip g) = true.
Proof.
  unfold brand_candidate, group_strip.
  destruct (Re.group 1 m) as [g|]; [|discriminate]. cbn [bind].
  destruct (_is_valid_brand (Str.strip g)) eqn:V; [|discriminate].
  unfold ProductBrand.make. destruct (unit_interval _); [|discriminate].
  cbn [bind]. intros [= <-]. exists g. repeat split. exact V.
Qed.

Lemma reference_candidate_shape (text : string) (p : ExtractionPattern)
  (m : Re.rmatch) (r : ProductReference.t) :
  reference_candidate text p m = Ok (Some r) ->
  exists g,
    Re.group 1 m = Some g
    /\ r = ProductReference.mk (Str.strip g) (_normalize_reference (Str.strip g))
             (Some (name p))
             (confidence_modifier p
              * _calculate_reference_confidence (Str.strip g) text)
    /\ _is_valid_reference (Str.strip g) = true.
Proof.
  unfold reference_candidate, group_strip.
  destruct (Re.group 1 m) as [g|]; [|discriminate]. cbn [bind].
  destruct (_is_valid_reference (Str.strip g)) eqn:V; [|discriminate].
  unfold ProductReference.make. destruct (unit_interval _); [|discriminate].
  cbn [bind]. intros [= <-]. exists g. repeat split. exact V.
Qed.

(** X8. Every brand [_extract_brands] returns has a name of 2 to 50
    characters with an ASCII letter and no white space at either end, the
    normalised form of that name, no alias, and as confidence the
    modifier of one of the brand patterns times the boost of the name in
    the text. *)
Theorem extracted_brand_facts (text : string) (brands : list ProductBrand.t)
  (b : ProductBrand.t) :
  _extract_brands text = Ok brands -> In b brands ->
  (2 <= String.length (ProductBrand.name b) <= 50)%nat
  /\ Str.existsb ascii_letter (ProductBrand.name b) = true
  /\ Str.strip (ProductBrand.name b) = ProductBrand.name b
  /\ ProductBrand.normalized_name b = _normalize_brand_name (ProductBrand.name b)
  /\ ProductBrand.aliases b = []
  /\ exists p,
       In p brand_patterns
       /\ ProductBrand.confidence b
          = confidence_modifier p
            * _calculate_brand_confidence (ProductBrand.name b) text.
Proof.
  intros H Hb.
  destruct (extract_brands_from_candidate _ _ _ H Hb) as (p & m & Hp & _ & Hc).
  apply brand_candidate_shape in Hc. destruct Hc as (g & _ & -> & V).
  cbn [ProductBrand.name ProductBrand.normalized_name ProductBrand.aliases
       ProductBrand.confidence].
  rewrite is_valid_brand_spec in V.
  apply andb_true_iff in V as [V L]. apply andb_true_iff in V as [V1 V2].
  apply Nat.leb_le in V1, V2.
  repeat split; try assumption.
  - apply strip_strip.
  - exists p. split; [exact Hp | reflexivity].
Qed.

(** X9. Every reference [_extract_references] returns has 3 to 20
    characters, one of them an ASCII letter or digit, no white space at
    either end; its normalised form is its upper-cased characters among
    [A-Z0-9]; its format is the name of one of the reference patterns and
    its confidence that pattern's modifier times the boost of the
    reference in the text. *)
Theorem extracted_reference_facts (text : string)
  (references : list ProductReference.t) (r : ProductReference.t) :
  _extract_references text = Ok references -> In r references ->
  (3 <= String.length (ProductReference.reference r) <= 20)%nat
  /\ Str.existsb ascii_alnum (ProductReference.reference r) = true
  /\ Str.strip (ProductReference.reference r) = ProductReference.reference r
  /\ ProductReference.normalized_reference r
     = Str.filter is_AZ09 (Str.upper (ProductReference.reference r))
  /\ exists p,
       In p reference_patterns
       /\ ProductReference.format_pattern r = Some (name p)
       /\ ProductReference.confidence r
          = confidence_modifier p
            * _calculate_reference_confidence (ProductReference.reference r) text.
Proof.
  intros H Hr.
  destruct (extract_references_from_candidate _ _ _ H Hr)
    as (p & m & Hp & _ & Hc).
  apply reference_candidate_shape in Hc. destruct Hc as (g & _ & -> & V).
  cbn [ProductReference.reference ProductReference.normalized_reference
       ProductReference.format_pattern ProductReference.confidence].
  rewrite is_valid_reference_spec in V.
  apply andb_true_iff in V as [V L]. apply andb_true_iff in V as [V1 V2].
  apply Nat.leb_le in V1, V2.
  repeat split; try assumption.
  - apply strip_strip.
  - apply normalize_reference_filter.
  - exists p. repeat split. exact Hp.
Qed.

Lemma reference_boost_upper_modifier (p : ExtractionPattern) (reference text : string) :
  In p reference_patterns ->
  3 # 10 <= confidence_modifier p * _calculate_reference_confidence reference text
  <= 95 # 100.
Proof.
  intros Hp.
  pose proof (reference_modifier_range p Hp) as M.
  pose proof (reference_boost_bounds reference text) as B. nra.
Qed.

Lemma brand_confidence_range (p : ExtractionPattern) (brand text : string) :
  In p brand_patterns ->
  25 # 100 <= confidence_modifier p * _calculate_brand_confidence brand text
  <= 81 # 100.
Proof.
  intros Hp.
  pose proof (brand_modifier_range p Hp) as M.
  pose proof (brand_boost_bounds brand text) as B.
  pose proof (brand_boost_upper brand text) as U. nra.
Qed.

Section ConfidenceFacts.
Variable gid : string -> nat -> string.

(** X10. For every extracted product the confidence of the brand lies
    in [0.24, 0.82], that of the reference in [0.29, 0.96] and the global
    confidence in [0.21, 0.91].  In exact arithmetic the extreme values
    are 0.25 and 0.81, 0.3 and 0.95, 0.22 and 0.904; the bounds leave
    them a margin of a hundredth, which the rounding of floats does not
    cross. *)
Theorem extracted_confidence_ranges (text source_path : string) (p : Product.t) :
  In p (extract_from_text gid text source_path) ->
  24 # 100 <= ProductBrand.confidence (Product.brand p) <= 82 # 100
  /\ 29 # 100 <= ProductReference.confidence (Product.reference p) <= 96 # 100
  /\ 21 # 100 <= Product.extraction_confidence p <= 91 # 100.
Proof.
  intros Hin. pose proof (extraction_confidence_margin gid _ _ _ Hin) as M.
  unfold extract_from_text, _extract_products_from_text in Hin.
  apply extract_products_with_in in Hin.
  destruct Hin as (idx & section & _ & Hs).
  apply single_product_inv in Hs.
  destruct Hs as (b & bs & r & rs & cs & Hb & Hr & _ & E).
  rewrite E in M |- *. cbn [Product.brand Product.reference] in *.
  destruct (extract_brands_from_candidate _ _ b Hb (or_introl eq_refl))
    as (pb & mb & Hpb & _ & Hcb).
  destruct (extract_references_from_candidate _ _ r Hr (or_introl eq_refl))
    as (pr & mr & Hpr & _ & Hcr).
  apply brand_candidate_some in Hcb.
  destruct Hcb as (gb & _ & _ & _ & _ & Eb & _).
  apply reference_candidate_some in Hcr.
  destruct Hcr as (gr & _ & _ & _ & _ & Er & _).
  rewrite Eb, Er.
  split; [|split].
  - match goal with
    | |- _ <= confidence_modifier _ * _calculate_brand_confidence ?b ?t <= _ =>
        pose proof (brand_confidence_range pb b t Hpb)
    end. lra.
  - match goal with
    | |- _ <= confidence_modifier _ * _calculate_reference_confidence ?b ?t
         <= _ =>
        pose proof (reference_boost_upper_modifier pr b t Hpr)
    end. lra.
  - lra.
Qed.

End ConfidenceFacts.

(** Deduplication of references and characteristics *)

Lemma pair_eqb_eq (a b : string * string) : pair_eqb a b = true <-> a = b.
Proof.
  destruct a as [a1 a2], b as [b1 b2]. unfold pair_eqb. cbn [fst snd].
  rewrite andb_true_iff, !String.eqb_eq. split; [intros [-> ->]; reflexivity|].
  intros [= -> ->]. now split.
Qed.

Lemma sorted_head_max {A} (key : A -> Q) (l : list A) (x : A) (n : nat) :
  List.nth_error (List.firstn (S n) (sorted_desc key l)) 0 = Some x ->
  forall y, In y l -> key y <= key x.
Proof.
  intros H y Hy. apply (sorted_desc_in key) in Hy.
  pose proof (sorted_desc_sorted key l) as S.
  destruct (sorted_desc key l) as [|z zs]; [discriminate|].
  cbn in H. injection H as ->.
  apply StronglySorted_inv in S as [_ S].
  destruct Hy as [->|Hy]; [apply Qle_refl|].
  rewrite Forall_forall in S. exact (S y Hy).
Qed.

Lemma firstn_nil_iff {A} (n : nat) (l : list A) :
  List.firstn (S n) l = [] <-> l = [].
Proof. destruct l; simpl; split; intros H; try reflexivity; discriminate. Qed.

Lemma dedup_nil_iff {A K} (key : A -> K) (eqb : K -> K -> bool) (l : list A) :
  dedup_loop key eqb [] l = [] <-> l = [].
Proof. destruct l; simpl; split; intros H; try reflexivity; discriminate. Qed.

Lemma sorted_desc_nil_iff {A} (key : A -> Q) (l : list A) :
  sorted_desc key l = [] <-> l = [].
Proof.
  split; [|intros ->; reflexivity].
  intros H. pose proof (sorted_desc_length key l) as L. rewrite H in L.
  destruct l; [reflexivity | discriminate].
Qed.

(** X11. [_extract_references] always answers: at most three
    references, with distinct normalised forms, by falling confidence;
    each one is the first candidate with its normalised form; the list is
    empty exactly when there is no valid candidate; the first one has the
    greatest confidence among the deduplicated candidates. *)
Theorem reference_dedup_top3 (text : string) :
  exists cands references,
    candidates reference_candidate reference_patterns text = Ok cands
    /\ _extract_references text = Ok references
    /\ NoDup (reference_keys references)
    /\ (List.length references <= 3)%nat
    /\ StronglySorted
         (fun x y => ProductReference.confidence y <= ProductReference.confidence x)
         references
    /\ (forall r, In r references ->
          exists pre post,
            cands = pre ++ r :: post
            /\ ~ In (ProductReference.normalized_reference r) (reference_keys pre))
    /\ (references = [] <-> cands = [])
    /\ (forall best, List.nth_error references 0 = Some best ->
          forall r, In r (_deduplicate_references cands) ->
            ProductReference.confidence r <= ProductReference.confidence best).
Proof.
  destruct (extract_references_total text) as (references & H).
  destruct (extract_references_inv _ _ H) as (cands & Hc & E).
  exists cands, references. split; [exact Hc|]. split; [exact H|].
  assert (ND : NoDup (reference_keys (_deduplicate_references cands))).
  { apply dedup_loop_NoDup, string_eqb_eq. }
  subst references. repeat split.
  - unfold reference_keys. rewrite <- List.firstn_map.
    apply NoDup_firstn.
    eapply Permutation_NoDup; [|exact ND].
    apply Permutation_map. symmetry. apply sorted_desc_perm.
  - rewrite List.length_firstn. lia.
  - apply (firstn_sorted ProductReference.confidence), sorted_desc_sorted.
  - intros r Hr. apply firstn_incl in Hr. apply sorted_desc_in in Hr.
    apply (dedup_loop_first _ _ string_eqb_eq) in Hr.
    destruct Hr as (pre & post & E & Hn & _). now exists pre, post.
  - intros E. apply firstn_nil_iff, sorted_desc_nil_iff in E.
    now apply dedup_nil_iff in E.
  - intros ->. reflexivity.
  - intros best Hb r Hr.
    exact (sorted_head_max ProductReference.confidence _ _ _ Hb r Hr).
Qed.

Lemma characteristic_candidate_shape (text : string) (p : ExtractionPattern)
  (m : Re.rmatch) (c : ProductCharacteristic.t) :
  characteristic_candidate text p m = Ok (Some c) ->
  exists g1 g2 u,
    Re.group 1 m = Some g1 /\ Re.group 2 m = Some g2
    /\ c = ProductCharacteristic.mk
             (Str.strip g1) (Str.strip g2) u
             (Some (_categorize_characteristic (Str.strip g1)))
             (_normalize_characteristic_name (Str.strip g1))
             (_normalize_characteristic_value (Str.strip g2) u)
    /\ _is_valid_characteristic (Str.strip g1) (Str.strip g2) = true
    /\ match u with
       | Some s => exists g3, Re.group 3 m = Some g3 /\ s = Str.strip g3
       | None => True
       end.
Proof.
  unfold characteristic_candidate, group_strip.
  destruct (2 <=? _)%nat; [|discriminate].
  destruct (Re.group 1 m) as [g1|]; [|discriminate]. cbn [bind].
  destruct (Re.group 2 m) as [g2|]; [|discriminate]. cbn [bind].
  destruct (3 <=? _)%nat.
  - destruct (Re.group 3 m) as [g3|]; [|discriminate]. cbn [bind].
    destruct (_is_valid_characteristic _ _) eqn:V; [|discriminate].
    intros [= <-]. exists g1, g2, (Some (Str.strip g3)).
    repeat split; try assumption. now exists g3.
  - cbn [bind].
    destruct (_is_valid_characteristic _ _) eqn:V; [|discriminate].
    intros [= <-]. exists g1, g2, None. repeat split; assumption.
Qed.

(** X12. The characteristics [_extract_characteristics] returns are
    distinct by (normalised name, normalised value); each has a name of 2
    to 50 characters and a value of 1 to 100 characters, both without
    white space at either end, the category of its name and the
    normalised forms of its name and of its value with its unit. *)
Theorem extracted_characteristics_facts (text : string)
  (characteristics : list ProductCharacteristic.t) :
  _extract_characteristics text = Ok characteristics ->
  NoDup (List.map characteristic_key characteristics)
  /\ forall c, In c characteristics ->
       (2 <= String.length (ProductCharacteristic.name c) <= 50)%nat
       /\ (1 <= String.length (ProductCharacteristic.value c) <= 100)%nat
       /\ Str.strip (ProductCharacteristic.name c) = ProductCharacteristic.name c
       /\ Str.strip (ProductCharacteristic.value c) = ProductCharacteristic.value c
       /\ ProductCharacteristic.category c
          = Some (_categorize_characteristic (ProductCharacteristic.name c))
       /\ ProductCharacteristic.normalized_name c
          = _normalize_characteristic_name (ProductCharacteristic.name c)
       /\ ProductCharacteristic.normalized_value c
          = _normalize_characteristic_value (ProductCharacteristic.value c)
                                            (ProductCharacteristic.unit c).
Proof.
  unfold _extract_characteristics.
  destruct (candidates characteristic_candidate characteristic_patterns text)
    as [cands|e] eqn:Hc; [|discriminate].
  cbn [bind]. intros [= <-]. split.
  - apply (dedup_loop_NoDup characteristic_key pair_eqb pair_eqb_eq).
  - intros c Hin. apply dedup_loop_incl in Hin.
    destruct (candidates_in _ _ _ _ _ Hc Hin) as (p & m & _ & _ & Hb).
    apply characteristic_candidate_shape in Hb.
    destruct Hb as (g1 & g2 & u & _ & _ & -> & V & _).
    cbn [ProductCharacteristic.name ProductCharacteristic.value
         ProductCharacteristic.unit ProductCharacteristic.category
         ProductCharacteristic.normalized_name
         ProductCharacteristic.normalized_value].
    unfold _is_valid_characteristic in V.
    rewrite !andb_true_iff, !Nat.leb_le in V.
    repeat split; try tauto; apply strip_strip.
Qed.

(** The product name *)

Lemma take_length (n : nat) (s : string) :
  String.length (Str.take n s) = Nat.min n (String.length s).
Proof.
  unfold Str.take. revert n.
  induction s as [|c s IH]; intros [|n]; simpl; try reflexivity.
  now rewrite IH.
Qed.

Lemma take_lstrip (n : nat) (s : string) :
  Str.lstrip s = s -> Str.lstrip (Str.take n s) = Str.take n s.
Proof.
  intros H. apply lstrip_fixed in H. apply lstrip_fixed.
  unfold Str.take. destruct s as [|c s]; destruct n; simpl; auto.
Qed.

Lemma first_name_line_inv (lines : list string) (line : string) :
  first_name_line lines = Some line ->
  name_line line = true /\ exists l, In l lines /\ line = Str.strip l.
Proof.
  induction lines as [|l lines IH]; [discriminate|].
  cbn [first_name_line]. destruct (name_line (Str.strip l)) eqn:E.
  - intros [= <-]. split; [exact E|]. exists l. split; [now left | reflexivity].
  - intros H. destruct (IH H) as (Hn & l' & Hl & ->).
    split; [exact Hn|]. exists l'. split; [now right | reflexivity].
Qed.

Lemma first_nonempty_line_inv (lines : list string) (line : string) :
  first_nonempty_line lines = Some line ->
  exists l, In l lines /\ Str.strip l <> "" /\ line = Str.take 80 (Str.strip l).
Proof.
  induction lines as [|l lines IH]; [discriminate|].
  cbn [first_nonempty_line]. unfold truthy.
  destruct (String.eqb (Str.strip l) "") eqn:E; cbn [negb].
  - intros H. destruct (IH H) as (l' & Hl & Hne & ->).
    exists l'. split; [now right|]. now split.
  - intros [= <-]. exists l. split; [now left|].
    split; [now apply String.eqb_neq | reflexivity].
Qed.

(** X14. The name [_extract_product_name] returns is never empty, has
    at most 99 characters and does not start with white space. *)
Theorem product_name_bounds (text : string) :
  (1 <= String.length (_extract_product_name text) <= 99)%nat
  /\ Str.lstrip (_extract_product_name text) = _extract_product_name text.
Proof.
  unfold _extract_product_name.
  destruct (first_name_line _) as [line|] eqn:E1.
  - apply first_name_line_inv in E1. destruct E1 as (Hn & l & _ & ->).
    unfold name_line in Hn. rewrite !andb_true_iff, !Nat.ltb_lt in Hn.
    split; [lia|]. apply strip_clean.
  - destruct (first_nonempty_line _) as [line|] eqn:E2.
    + apply first_nonempty_line_inv in E2. destruct E2 as (l & _ & Hne & ->).
      rewrite take_length. split.
      * destruct (Str.strip l); [congruence|]. cbn [String.length]. lia.
      * apply take_lstrip, strip_clean.
    + split; [simpl; lia | reflexivity].
Qed.

(** ** The sections *)

(** A string read inside another one. *)

Lemma string_app_assoc (a b c : string) :
  ((a ++ b) ++ c)%string = (a ++ b ++ c)%string.
Proof. induction a as [|x a IH]; simpl; [reflexivity | now rewrite IH]. Qed.

Lemma substring_prefix (s : string) :
  forall k, exists post, s = (substring 0 k s ++ post)%string.
Proof.
  induction s as [|c s IH]; intros k.
  - exists "". now destruct k.
  - destruct k as [|k].
    + now exists (String c s).
    + destruct (IH k) as (post & E). exists post.
      cbn [substring append]. now rewrite <- E.
Qed.

Lemma substring_inside (s : string) :
  forall i k, exists pre post, s = (pre ++ substring i k s ++ post)%string.
Proof.
  induction s as [|c s IH]; intros i k.
  - exists "", "". now destruct i, k.
  - destruct i as [|i].
    + exists "". apply substring_prefix.
    + destruct (IH i k) as (pre & post & E).
      exists (String c pre), post. cbn [substring append]. now rewrite <- E.
Qed.

Lemma lstrip_inside (s : string) : exists pre, s = (pre ++ Str.lstrip s)%string.
Proof.
  induction s as [|c s IH]; [now exists ""|].
  cbn [Str.lstrip]. destruct (Chr.isspace c).
  - destruct IH as (pre & E). exists (String c pre). cbn [append]. now rewrite <- E.
  - now exists "".
Qed.

Lemma rstrip_inside (s : string) : exists post, s = (Str.rstrip s ++ post)%string.
Proof.
  induction s as [|c s IH]; [now exists ""|].
  rewrite rstrip_unfold.
  destruct (Chr.isspace c && Str.forallb Chr.isspace s).
  - now exists (String c s).
  - destruct IH as (post & E). exists post. cbn [append]. now rewrite <- E.
Qed.

Lemma strip_inside (s : string) :
  exists pre post, s = (pre ++ Str.strip s ++ post)%string.
Proof.
  unfold Str.strip.
  destruct (lstrip_inside s) as (pre & E1).
  destruct (rstrip_inside (Str.lstrip s)) as (post & E2).
  exists pre, post. now rewrite <- E2.
Qed.

Lemma inside_trans (a b c pre post pre' post' : string) :
  b = (pre ++ a ++ post)%string -> c = (pre' ++ b ++ post')%string ->
  c = ((pre' ++ pre) ++ a ++ (post ++ post'))%string.
Proof. intros -> ->. now rewrite !string_app_assoc. Qed.

Lemma prefix_app (w post : string) : prefix w (w ++ post) = true.
Proof.
  induction w as [|c w IH]; [now destruct post|].
  cbn [append prefix]. destruct (ascii_dec c c); [exact IH | congruence].
Qed.

Lemma contains_inside (w pre post : string) :
  Str.contains w (pre ++ w ++ post) = true.
Proof.
  induction pre as [|c pre IH].
  - cbn [append]. destruct (w ++ post)%string eqn:E.
    + cbn [Str.contains]. rewrite <- E, prefix_app. reflexivity.
    + cbn [Str.contains]. rewrite <- E, prefix_app. reflexivity.
  - cbn [append Str.contains]. rewrite IH. apply orb_true_r.
Qed.

Lemma pieces_inside (s : string) (ms : list Re.rmatch) :
  forall from part,
    In part (Re.pieces ms from s) ->
    exists pre post, s = (pre ++ part ++ post)%string.
Proof.
  induction ms as [|m ms IH]; intros from part; cbn [Re.pieces].
  - intros [<-|[]]. apply substring_inside.
  - intros [<-|H]; [apply substring_inside | eapply IH; eassumption].
Qed.

Lemma split_round_inv (p : Re.pattern) (sections : list string) (s : string) :
  In s (split_round p sections) ->
  Str.strip s = s /\ s <> ""
  /\ exists section pre post,
       In section sections /\ section = (pre ++ s ++ post)%string.
Proof.
  unfold split_round. intros H. apply in_flat_map in H.
  destruct H as (section & Hsec & H). apply filter_In in H.
  destruct H as [H T]. apply in_map_iff in H. destruct H as (part & <- & Hp).
  split; [apply strip_strip|]. split.
  - unfold truthy in T. apply negb_true_iff, String.eqb_neq in T. exact T.
  - unfold Re.split in Hp. apply pieces_inside in Hp.
    destruct Hp as (pre & post & E).
    destruct (strip_inside part) as (pre' & post' & E').
    exists section, (pre ++ pre')%string, (post' ++ post)%string.
    split; [exact Hsec|]. exact (inside_trans _ _ _ _ _ _ _ E' E).
Qed.

Lemma cascade_inv (text s : string) :
  In s (cascade text) ->
  Str.strip s = s /\ s <> ""
  /\ exists pre post, text = (pre ++ s ++ post)%string.
Proof.
  unfold cascade, split_patterns. cbn [List.fold_left].
  intros H.
  apply split_round_inv in H.
  destruct H as (H1 & H2 & s3 & pre3 & post3 & H & E3).
  split; [exact H1|]. split; [exact H2|].
  apply split_round_inv in H. destruct H as (_ & _ & s2 & pre2 & post2 & H & E2).
  apply split_round_inv in H. destruct H as (_ & _ & s1 & pre1 & post1 & H & E1).
  apply split_round_inv in H. destruct H as (_ & _ & s0 & pre0 & post0 & H & E0).
  destruct H as [<-|[]].
  pose proof (inside_trans _ _ _ _ _ _ _ E3 E2) as E32.
  pose proof (inside_trans _ _ _ _ _ _ _ E32 E1) as E321.
  pose proof (inside_trans _ _ _ _ _ _ _ E321 E0) as E.
  eexists. eexists. exact E.
Qed.

Lemma string_app_length (a b : string) :
  String.length (a ++ b) = (String.length a + String.length b)%nat.
Proof. induction a as [|x a IH]; simpl; [reflexivity | now rewrite IH]. Qed.

Lemma inside_length (s pre post text : string) :
  text = (pre ++ s ++ post)%string ->
  (String.length s <= String.length text)%nat.
Proof.
  intros ->. rewrite !string_app_length. lia.
Qed.

(** X15. A section [_split_into_product_sections] returns is the whole
    text, or a part of it ([section in text]) of 50 to 2000 characters
    without white space at either end.  A text shorter than 50 characters
    is returned whole, as the only section. *)
Theorem split_sections_content (text : string) :
  (forall s, In s (_split_into_product_sections text) ->
     s = text
     \/ (Str.contains s text = true
         /\ Str.strip s = s
         /\ (50 <= String.length s <= 2000)%nat
         /\ (String.length s <= String.length text)%nat))
  /\ ((String.length text < 50)%nat ->
      _split_into_product_sections text = [text]).
Proof.
  unfold _split_into_product_sections. split.
  - intros s H.
    destruct (List.filter size_ok (cascade text)) as [|x xs] eqn:E.
    + destruct H as [<-|[]]. now left.
    + right. rewrite <- E in H. apply filter_In in H. destruct H as [H S].
      apply cascade_inv in H. destruct H as (H1 & _ & pre & post & Ei).
      apply size_ok_spec in S.
      split; [rewrite Ei; apply contains_inside|].
      split; [exact H1|]. split; [exact S|].
      eapply inside_length; eassumption.
  - intros Hlen.
    destruct (List.filter size_ok (cascade text)) as [|x xs] eqn:E;
      [reflexivity|].
    assert (H : In x (List.filter size_ok (cascade text)))
      by (rewrite E; now left).
    apply filter_In in H. destruct H as [H S].
    apply cascade_inv in H. destruct H as (_ & _ & pre & post & Ei).
    apply size_ok_spec in S. apply inside_length in Ei. lia.
Qed.

(** ** JSON and XML documents *)

Lemma json_induction (P : json -> Prop) :
  P JNull ->
  (forall b, P (JBool b)) ->
  (forall q, P (JNumber q)) ->
  (forall s, P (JString s)) ->
  (forall items, Forall P items -> P (JArray items)) ->
  (forall members, Forall (fun kv => P (snd kv)) members -> P (JObject members)) ->
  forall data, P data.
Proof.
  intros Hn Hb Hq Hs Ha Ho.
  fix IH 1. intros [ | b | q | s | items | members ].
  - exact Hn.
  - apply Hb.
  - apply Hq.
  - apply Hs.
  - apply Ha. induction items as [|item items IHitems]; constructor.
    + apply IH.
    + exact IHitems.
  - apply Ho. induction members as [|[key value] members IHmembers]; constructor.
    + apply IH.
    + exact IHmembers.
Qed.

Lemma element_induction (P : ET.Element -> Prop) :
  (forall tg tx at_ cs tl, Forall P cs -> P (ET.mkElement tg tx at_ cs tl)) ->
  forall element, P element.
Proof.
  intros H. fix IH 1. intros [tg tx at_ cs tl].
  apply H. induction cs as [|c cs IHcs]; constructor.
  - apply IH.
  - exact IHcs.
Qed.

Lemma json_parts_leaves (data : json) :
  Forall2 (fun part s => part = s \/ exists key, part = (key ++ ": " ++ s)%string)
          (extract_strings data) (string_leaves data).
Proof.
  induction data as [ | b | q | s | items IH | members IH ] using json_induction;
    cbn [extract_strings string_leaves]; try constructor.
  - now left.
  - constructor.
  - induction IH as [|item items Hitem _ IHitems]; [constructor|].
    now apply Forall2_app.
  - induction IH as [|[key value] members Hv _ IHmembers]; [constructor|].
    cbn [snd] in Hv.
    destruct value; try (now apply Forall2_app).
    cbn [string_leaves List.app]. constructor; [|exact IHmembers].
    right. now exists key.
Qed.

Section FormatFacts.
Variable gid : string -> nat -> string.

Lemma no_text_no_product (source_path : string) :
  _extract_products_from_text gid "" source_path = [].
Proof. reflexivity. Qed.

(** X16. The parts [_json_to_searchable_text] joins are, one for one and
    in document order, the string values of the document, each alone or
    after its key and a colon.  Numbers, booleans, nulls and the keys of
    nested values leave no trace: a document without a string value gives
    the empty text, and [extract_from_json] finds no product in it. *)
Theorem json_text_is_its_string_values (data : json) (source_path : string) :
  Forall2 (fun part s => part = s \/ exists key, part = (key ++ ": " ++ s)%string)
          (extract_strings data) (string_leaves data)
  /\ List.length (extract_strings data) = List.length (string_leaves data)
  /\ (string_leaves data = [] ->
      _json_to_searchable_text data = ""
      /\ extract_from_json gid data source_path = []).
Proof.
  pose proof (json_parts_leaves data) as H.
  split; [exact H|]. split; [exact (Forall2_length H)|].
  intros E. rewrite E in H. inversion H as [E'|].
  unfold extract_from_json, _json_to_searchable_text. rewrite <- E'.
  split; [reflexivity | apply no_text_no_product].
Qed.

Lemma relabel_text (f : string -> string) (g : option string -> option string)
  (element : ET.Element) :
  _xml_to_searchable_text (relabel f g element) = _xml_to_searchable_text element.
Proof.
  induction element as [tg tx at_ cs tl IH] using element_induction.
  cbn [relabel _xml_to_searchable_text ET.text ET.attrib ET.children ET.tag ET.tail].
  f_equal. f_equal.
  induction IH as [|c cs Hc _ IHcs]; [reflexivity|].
  now rewrite Hc, IHcs.
Qed.

End FormatFacts.

Lemma concat_cons (sep a : string) (l : list string) :
  String.concat sep (a :: l)
  = match l with
    | [] => a
    | _ :: _ => (a ++ sep ++ String.concat sep l)%string
    end.
Proof. destruct l; reflexivity. Qed.

Lemma concat_app (sep : string) (l1 l2 : list string) :
  l1 <> [] -> l2 <> [] ->
  String.concat sep (l1 ++ l2)
  = (String.concat sep l1 ++ sep ++ String.concat sep l2)%string.
Proof.
  intros H1 H2. induction l1 as [|a l1 IH]; [congruence|].
  cbn [List.app]. rewrite !concat_cons.
  destruct l1 as [|b l1].
  - cbn [List.app]. destruct l2; [congruence | reflexivity].
  - cbn [List.app]. cbn [List.app] in IH. rewrite IH by discriminate.
    now rewrite !string_app_assoc.
Qed.

Lemma or_blank_concat (sep : string) (parts : list string) :
  String.concat sep (or_blank parts) = String.concat sep parts
  /\ or_blank parts <> [].
Proof. destruct parts; split; try reflexivity; discriminate. Qed.

Lemma concat_nonempty {A} (ls : list (list A)) (l : list A) :
  l <> [] -> List.concat (l :: ls) <> [].
Proof. destruct l; [congruence | discriminate]. Qed.

Lemma concat_flat0 (sep : string) (ls : list (list string)) :
  Forall (fun l => l <> []) ls ->
  String.concat sep (List.map (String.concat sep) ls)
  = String.concat sep (List.concat ls).
Proof.
  intros H. induction H as [|l ls Hl Hls IH]; [reflexivity|].
  cbn [List.map]. rewrite concat_cons.
  destruct Hls as [|l' ls Hl' Hls].
  - cbn [List.map List.concat]. now rewrite List.app_nil_r.
  - cbn [List.map] in *. rewrite IH.
    change (List.concat (l :: l' :: ls)) with (l ++ List.concat (l' :: ls)).
    rewrite concat_app; [reflexivity | exact Hl | now apply concat_nonempty].
Qed.

Lemma concat_flat (sep : string) (ls : list (list string)) :
  Forall (fun l => l <> []) ls ->
  forall a,
    String.concat sep (a ++ List.map (String.concat sep) ls)
    = String.concat sep (a ++ List.concat ls).
Proof.
  intros H a. destruct a as [|x a]; [now apply concat_flat0|].
  destruct H as [|l ls Hl Hls]; [reflexivity|].
  rewrite !concat_app; try discriminate.
  - now rewrite concat_flat0 by (constructor; assumption).
  - now apply concat_nonempty.
Qed.

Lemma strip_truthy (t : string) :
  truthy t && truthy (Str.strip t) = truthy (Str.strip t).
Proof.
  destruct t as [|c t]; [reflexivity|]. reflexivity.
Qed.

Lemma xml_text_lines (element : ET.Element) :
  _xml_to_searchable_text element
  = String.concat (String Str.newline "") (xml_lines element).
Proof.
  induction element as [tg tx at_ cs tl IH] using element_induction.
  cbn [_xml_to_searchable_text xml_lines ET.text ET.attrib ET.children].
  unfold own_parts. cbn [ET.text ET.attrib].
  replace (match tx with
           | Some t => if truthy t && truthy (Str.strip t) then [Str.strip t] else []
           | None => []
           end)
    with (match tx with
          | Some t => if truthy (Str.strip t) then [Str.strip t] else []
          | None => []
          end)
    by (destruct tx as [t|]; [now rewrite strip_truthy | reflexivity]).
  set (own := (match tx with Some _ => _ | None => _ end ++ List.map _ at_)).
  set (nl := String Str.newline "").
  assert (E1 : (fix each (l : list ET.Element) : list string :=
                  match l with
                  | [] => []
                  | child :: l' => _xml_to_searchable_text child :: each l'
                  end) cs
               = List.map (String.concat nl)
                   (List.map (fun c => or_blank (xml_lines c)) cs)).
  { induction IH as [|c cs Hc _ IHcs]; [reflexivity|].
    cbn [List.map]. rewrite IHcs, Hc.
    now rewrite (proj1 (or_blank_concat nl (xml_lines c))). }
  assert (E2 : (fix each (l : list ET.Element) : list string :=
                  match l with
                  | [] => []
                  | child :: l' => or_blank (xml_lines child) ++ each l'
                  end) cs
               = List.concat (List.map (fun c => or_blank (xml_lines c)) cs)).
  { clear. induction cs as [|c cs IHcs]; [reflexivity|].
    cbn [List.map List.concat]. now rewrite IHcs. }
  rewrite E1, E2.
  apply concat_flat.
  apply Forall_forall. intros l Hl. apply in_map_iff in Hl.
  destruct Hl as (c & <- & _). apply or_blank_concat. exact nl.
Qed.

Section XmlFacts.
Variable gid : string -> nat -> string.

(** X17. The text [_xml_to_searchable_text] gives is, one per line and
    in document order, the non-blank texts (stripped) and the attributes
    of the elements, with an empty line for a child that has none.  Tags
    and tails are not read: changing them changes neither the text nor
    what [extract_from_xml] extracts. *)
Theorem xml_text_is_flat (f : string -> string)
  (g : option string -> option string) (root : ET.Element)
  (source_path : string) :
  _xml_to_searchable_text root
  = String.concat (String Str.newline "") (xml_lines root)
  /\ _xml_to_searchable_text (relabel f g root) = _xml_to_searchable_text root
  /\ extract_from_xml gid (relabel f g root) source_path
     = extract_from_xml gid root source_path.
Proof.
  split; [apply xml_text_lines|]. split; [apply relabel_text|].
  unfold extract_from_xml. now rewrite relabel_text.
Qed.

End XmlFacts.

(** ** Search results *)

Lemma reconstruct_inv (metadata : Metadata) (document : string) (p : Product.t) :
  _reconstruct_product_from_metadata metadata document = Ok p ->
  p = Product.mk (product_id metadata) (or_else (product_name metadata) "")
        (ProductBrand.mk (or_else (brand_name metadata) "")
                         (or_else (brand_normalized metadata) "") [] 1)
        (ProductReference.mk (or_else (md_reference metadata) "")
                             (or_else (reference_normalized metadata) "") None 1)
        [] None (md_category metadata) (md_price metadata)
        (Some (or_else (md_currency metadata) "EUR"))
        (md_source_document metadata)
        (or_else (md_extraction_confidence metadata) 1).
Proof.
  unfold _reconstruct_product_from_metadata, ProductBrand.make,
    ProductReference.make, Product.make.
  change (unit_interval 1) with true. cbn [bind].
  destruct (_ && _); [|discriminate]. now intros [= <-].
Qed.

Lemma reconstruct_metadata_of (product : Product.t) (document : string) :
  unit_interval (Product.extraction_confidence product) = true ->
  match Product.price product with
  | Some x => Qle_bool 0 x = true
  | None => True
  end ->
  _reconstruct_product_from_metadata (metadata_of product) document
  = Ok (Product.mk (Product.id product) (Product.name product)
          (ProductBrand.mk (ProductBrand.name (Product.brand product))
             (ProductBrand.normalized_name (Product.brand product)) [] 1)
          (ProductReference.mk
             (ProductReference.reference (Product.reference product))
             (ProductReference.normalized_reference (Product.reference product))
             None 1)
          [] None
          (Some (str_or (Product.category product) "unknown"))
          (Some (num_or (Product.price product) 0))
          (Some (str_or (Product.currency product) "EUR"))
          (Some (str_or (Product.source_document product) ""))
          (Product.extraction_confidence product)).
Proof.
  intros Hc Hp.
  unfold _reconstruct_product_from_metadata, metadata_of, ProductBrand.make,
    ProductReference.make, Product.make.
  cbn [brand_name brand_normalized md_reference reference_normalized product_id
       product_name md_category md_price md_currency md_source_document
       md_extraction_confidence or_else].
  change (unit_interval 1) with true. cbn [bind]. rewrite Hc. cbn [andb].
  assert (P : Qle_bool 0 (num_or (Product.price product) 0) = true).
  { unfold num_or. destruct (Product.price product) as [x|]; [|reflexivity].
    destruct (Qeq_bool x 0); [reflexivity | exact Hp]. }
  now rewrite P.
Qed.

(** X18. The metadata [add_products] stores for a valid product are
    enough for [_reconstruct_product_from_metadata] to succeed: the
    rebuilt product has the same id, name, brand name, reference, their
    normalised forms and the same global confidence; a missing source,
    category, price or currency comes back as the empty string,
    "unknown", 0 and "EUR"; the characteristics and the description are
    lost and both confidences are 1. *)
Theorem metadata_round_trip (product : Product.t) (document : string) :
  unit_interval (Product.extraction_confidence product) = true ->
  match Product.price product with
  | Some x => Qle_bool 0 x = true
  | None => True
  end ->
  exists p,
    _reconstruct_product_from_metadata (metadata_of product) document = Ok p
    /\ Product.id p = Product.id product
    /\ Product.name p = Product.name product
    /\ ProductBrand.name (Product.brand p)
       = ProductBrand.name (Product.brand product)
    /\ ProductBrand.normalized_name (Product.brand p)
       = ProductBrand.normalized_name (Product.brand product)
    /\ ProductReference.reference (Product.reference p)
       = ProductReference.reference (Product.reference product)
    /\ ProductReference.normalized_reference (Product.reference p)
       = ProductReference.normalized_reference (Product.reference product)
    /\ Product.extraction_confidence p = Product.extraction_confidence product
    /\ Product.source_document p
       = Some (str_or (Product.source_document product) "")
    /\ Product.category p = Some (str_or (Product.category product) "unknown")
    /\ Product.price p = Some (num_or (Product.price product) 0)
    /\ Product.currency p = Some (str_or (Product.currency product) "EUR")
    /\ Product.characteristics p = []
    /\ Product.description p = None
    /\ ProductBrand.confidence (Product.brand p) = 1
    /\ ProductReference.confidence (Product.reference p) = 1.
Proof.
  intros Hc Hp. eexists.
  split; [exact (reconstruct_metadata_of product document Hc Hp)|].
  cbn. repeat split.
Qed.

Lemma str_or_same (s : string) : str_or (Some s) "" = s.
Proof.
  unfold str_or. destruct (String.eqb s "") eqn:E; [|reflexivity].
  apply String.eqb_eq in E. now subst.
Qed.

Section StoredProducts.
Variable gid : string -> nat -> string.

(** X19. Every product [extract_from_text] returns can be stored and
    rebuilt: [_reconstruct_product_from_metadata] succeeds on the
    metadata [add_products] stores for it, and gives back its id, name,
    brand name, reference, normalised forms, global confidence and
    source path, with the category "unknown", the price 0 and the
    currency EUR. *)
Theorem extracted_products_round_trip (text source_path : string)
  (product : Product.t) (document : string) :
  In product (extract_from_text gid text source_path) ->
  exists p,
    _reconstruct_product_from_metadata (metadata_of product) document = Ok p
    /\ Product.id p = Product.id product
    /\ Product.name p = Product.name product
    /\ ProductBrand.name (Product.brand p)
       = ProductBrand.name (Product.brand product)
    /\ ProductBrand.normalized_name (Product.brand p)
       = ProductBrand.normalized_name (Product.brand product)
    /\ ProductReference.reference (Product.reference p)
       = ProductReference.reference (Product.reference product)
    /\ ProductReference.normalized_reference (Product.reference p)
       = ProductReference.normalized_reference (Product.reference product)
    /\ Product.extraction_confidence p = Product.extraction_confidence product
    /\ Product.source_document p = Some source_path
    /\ Product.category p = Some "unknown"
    /\ Product.price p = Some 0
    /\ Product.currency p = Some "EUR".
Proof.
  intros Hin.
  pose proof (extraction_confidence_margin gid _ _ _ Hin) as M.
  assert (U : unit_interval (Product.extraction_confidence product) = true).
  { apply unit_interval_spec. lra. }
  unfold extract_from_text, _extract_products_from_text in Hin.
  apply extract_products_with_in in Hin.
  destruct Hin as (idx & section & _ & Hs).
  apply single_product_inv in Hs.
  destruct Hs as (b & bs & r & rs & cs & _ & _ & _ & E).
  assert (P : match Product.price product with
              | Some x => Qle_bool 0 x = true
              | None => True
              end) by (rewrite E; exact I).
  eexists. split; [exact (reconstruct_metadata_of product document U P)|].
  rewrite E.
  cbn [Product.id Product.name Product.brand Product.reference
       Product.extraction_confidence Product.source_document Product.category
       Product.price Product.currency ProductBrand.name
       ProductBrand.normalized_name ProductReference.reference
       ProductReference.normalized_reference].
  rewrite str_or_same. repeat split.
Qed.

End StoredProducts.

Section SearchFacts.
Context {B : Backend}.

Lemma process_row_reconstructs (distances : list Q) (metadatas : list Metadata)
  (documents : list string) (threshold : Q) (i : nat) (r : scored) :
  process_row distances metadatas documents threshold i = Ok (Some r) ->
  exists metadata document,
    List.nth_error metadatas i = Some metadata
    /\ List.nth_error documents i = Some document
    /\ _reconstruct_product_from_metadata metadata document = Ok (fst r).
Proof.
  unfold process_row, nth_or_raise. intros H.
  destruct (match distances with [] => _ | _ => _ end) as [s|e]; [|discriminate].
  cbn [bind] in H. destruct (Qle_bool threshold s); [|discriminate].
  destruct (List.nth_error metadatas i) as [md|]; [|discriminate].
  destruct (List.nth_error documents i) as [doc|]; [|discriminate].
  cbn [bind] in H.
  destruct (_reconstruct_product_from_metadata md doc) as [p|e] eqn:E;
    [|discriminate].
  cbn [bind] in H. injection H as <-. now exists md, doc.
Qed.

Lemma process_chroma_results_reconstructs (results : QueryResult)
  (threshold : Q) (out : list scored) (r : scored) :
  _process_chroma_results results threshold = Ok out -> In r out ->
  exists metadata document,
    _reconstruct_product_from_metadata metadata document = Ok (fst r).
Proof.
  unfold _process_chroma_results. intros H Hin.
  destruct (ids results) as [|[|i row] rows].
  - injection H as <-. destruct Hin.
  - injection H as <-. destruct Hin.
  - apply collect_in with (a := r) in H; [|exact Hin].
    apply in_map_iff in H. destruct H as (j & Hj & _).
    apply process_row_reconstructs in Hj.
    destruct Hj as (md & doc & _ & _ & E). now exists md, doc.
Qed.

Lemma search_products_answer (self : HybridRetriever.t) (query : string)
  (stage : MatchingStage) (max_results : Z) (similarity_threshold : Q)
  (filters : option dict) (out : list scored) :
  search_products self query stage max_results similarity_threshold filters
  = Ok out ->
  exists w answer,
    collection_query (collection self) query max_results w = Ok answer
    /\ _process_chroma_results answer
         (match stage with
          | CHARACTERISTIC_MATCHING => 8 # 10
          | _ => similarity_threshold
          end) = Ok out.
Proof.
  unfold search_products. intros H.
  destruct stage;
    unfold _search_by_brand, _search_by_reference, _search_by_characteristics,
      _semantic_search in H;
    match type of H with
    | context [collection_query ?c ?q ?n ?w] =>
        destruct (collection_query c q n w) as [answer|e] eqn:E;
          [exists w, answer; split; [exact E|] | discriminate]
    end;
    cbn [bind] in H;
    match type of H with
    | context [_process_chroma_results ?a ?t] =>
        destruct (_process_chroma_results a t) as [o|e']; [|discriminate]
    end;
    now injection H as <-.
Qed.

(** X20. Every product [search_products] returns, at any stage, is
    rebuilt from metadata: it has no characteristics, no description, no
    alias and no reference format, and brand and reference confidence
    1. *)
Theorem search_results_are_skeletons (self : HybridRetriever.t) (query : string)
  (stage : MatchingStage) (max_results : Z) (similarity_threshold : Q)
  (filters : option dict) (out : list scored) (p : Product.t) (score : Q) :
  search_products self query stage max_results similarity_threshold filters
  = Ok out ->
  In (p, score) out ->
  Product.characteristics p = []
  /\ Product.description p = None
  /\ ProductBrand.aliases (Product.brand p) = []
  /\ ProductBrand.confidence (Product.brand p) = 1
  /\ ProductReference.format_pattern (Product.reference p) = None
  /\ ProductReference.confidence (Product.reference p) = 1.
Proof.
  intros H Hin.
  destruct (search_products_answer _ _ _ _ _ _ _ H) as (w & answer & _ & Hp).
  destruct (process_chroma_results_reconstructs _ _ _ _ Hp Hin)
    as (md & doc & E).
  apply reconstruct_inv in E. cbn [fst] in E. subst p. cbn. repeat split.
Qed.

(** X21. At the brand and reference stages every score
    [search_products] returns is at least the caller's threshold. *)
Theorem stage_threshold_is_applied (self : HybridRetriever.t) (query : string)
  (stage : MatchingStage) (max_results : Z) (similarity_threshold : Q)
  (filters : option dict) (out : list scored) :
  stage <> CHARACTERISTIC_MATCHING ->
  search_products self query stage max_results similarity_threshold filters
  = Ok out ->
  Forall (fun r => similarity_threshold <= snd r) out.
Proof.
  intros Hs H.
  destruct (search_products_answer _ _ _ _ _ _ _ H) as (w & answer & _ & Hp).
  destruct stage; try congruence;
    exact (process_chroma_results_threshold _ _ _ Hp).
Qed.

End SearchFacts.

Lemma plain_char_upper (c : ascii) :
  plain_reference_char c = true ->
  (Chr.code c =? 223)%nat = false
  /\ negb (Ascii.eqb (Chr.upper c) "-" || Ascii.eqb (Chr.upper c) " ")
     = is_AZ09 (Chr.upper c).
Proof.
  destruct c as [[] [] [] [] [] [] [] []]; vm_compute; intros H;
    try discriminate; split; reflexivity.
Qed.

Lemma plain_query_filter (query : string) :
  Str.forallb plain_reference_char query = true ->
  Str.filter (fun c => negb (Ascii.eqb c "-" || Ascii.eqb c " ")) (Str.upper query)
  = Str.filter is_AZ09 (Str.upper query).
Proof.
  induction query as [|c s IH]; [reflexivity|].
  cbn [Str.forallb Str.upper]. intros H. apply andb_true_iff in H as [Hc H].
  destruct (plain_char_upper c Hc) as [-> E].
  cbn [Str.filter]. rewrite E, (IH H). reflexivity.
Qed.

Section ReferenceQuery.
Context {B : Backend}.

(** X22. For a query made of ASCII letters, digits, hyphens and spaces,
    the needle [_search_by_reference] looks for in the stored normalised
    references is the normalised form [_normalize_reference] gives the
    query. *)
Theorem reference_query_uses_stored_key (self : HybridRetriever.t)
  (query : string) (max_results : Z) (similarity_threshold : Q)
  (filters : option dict) :
  Str.forallb plain_reference_char query = true ->
  _search_by_reference self query max_results similarity_threshold filters
  = (results <-
       collection_query (collection self) query max_results
         (update [("$or",
                   AnyOf [("reference", Contains query);
                          ("reference_normalized",
                           Contains (_normalize_reference query))])]
                 (or_else filters [])) ;;
     _process_chroma_results results similarity_threshold).
Proof.
  intros H. unfold _search_by_reference.
  rewrite (plain_query_filter query H), <- normalize_reference_filter.
  reflexivity.
Qed.

End ReferenceQuery.

Lemma Qle_bool_trans_true (a b s : Q) :
  a <= b -> Qle_bool b s = true -> Qle_bool a s = true.
Proof.
  intros H1 H2. apply Qle_bool_iff in H2. apply Qle_bool_iff.
  eapply Qle_trans; eassumption.
Qed.

Lemma Qle_bool_below_false (a b s : Q) :
  a <= b -> Qle_bool a s = false -> Qle_bool b s = false.
Proof.
  intros H1 H2. destruct (Qle_bool b s) eqn:E; [|reflexivity].
  rewrite (Qle_bool_trans_true a b s H1 E) in H2. discriminate.
Qed.

Lemma process_row_raise_threshold (distances : list Q)
  (metadatas : list Metadata) (documents : list string) (t1 t2 : Q) (i : nat)
  (o : option scored) :
  t1 <= t2 ->
  process_row distances metadatas documents t1 i = Ok o ->
  process_row distances metadatas documents t2 i
  = Ok (match o with
        | Some r => if Qle_bool t2 (snd r) then Some r else None
        | None => None
        end).
Proof.
  intros Ht. unfold process_row.
  destruct (match distances with [] => _ | _ => _ end) as [s|e]; [|discriminate].
  cbn [bind].
  destruct (Qle_bool t1 s) eqn:E1.
  - destruct (nth_or_raise metadatas i) as [md|e]; [|discriminate].
    destruct (nth_or_raise documents i) as [doc|e]; [|discriminate].
    cbn [bind].
    destruct (_reconstruct_product_from_metadata md doc) as [p|e];
      [|discriminate].
    cbn [bind]. intros [= <-]. cbn [snd].
    destruct (Qle_bool t2 s); reflexivity.
  - intros [= <-]. now rewrite (Qle_bool_below_false t1 t2 s Ht E1).
Qed.

Lemma collect_raise_threshold (f1 f2 : nat -> result (option scored)) (t2 : Q)
  (l : list nat) :
  (forall i o, f1 i = Ok o ->
     f2 i = Ok (match o with
                | Some r => if Qle_bool t2 (snd r) then Some r else None
                | None => None
                end)) ->
  forall out,
    collect (List.map f1 l) = Ok out ->
    collect (List.map f2 l)
    = Ok (List.filter (fun r => Qle_bool t2 (snd r)) out).
Proof.
  intros H. induction l as [|i l IH]; intros out.
  - intros [= <-]. reflexivity.
  - cbn [List.map collect].
    destruct (f1 i) as [o|e] eqn:E1; [|discriminate]. cbn [bind].
    destruct (collect (List.map f1 l)) as [rest|e]; [|discriminate].
    cbn [bind]. intros [= <-].
    rewrite (H i o E1). cbn [bind]. rewrite (IH rest eq_refl). cbn [bind].
    destruct o as [r|]; [|reflexivity].
    cbn [List.filter]. destruct (Qle_bool t2 (snd r)); reflexivity.
Qed.

(** X23. Raising the threshold of [_process_chroma_results] only
    filters: when the results are obtained at a threshold, they are
    obtained at any higher one, and are those of the first list whose
    score reaches it, in the same order. *)
Theorem raising_threshold_filters (results : QueryResult) (t1 t2 : Q)
  (out : list scored) :
  t1 <= t2 ->
  _process_chroma_results results t1 = Ok out ->
  _process_chroma_results results t2
  = Ok (List.filter (fun r => Qle_bool t2 (snd r)) out).
Proof.
  intros Ht. unfold _process_chroma_results.
  destruct (ids results) as [|[|i row] rows].
  - intros [= <-]. reflexivity.
  - intros [= <-]. reflexivity.
  - apply collect_raise_threshold.
    intros j o. now apply process_row_raise_threshold.
Qed.

(** Filters *)

Lemma filters_loop_true (product : Product.t) (items : dict) :
  filters_loop product items = Ok true <->
  forall key v, In (key, v) items -> filter_rejects product key v = Ok false.
Proof.
  induction items as [|[k v] items IH].
  - split; [intros _ key v [] | reflexivity].
  - cbn [filters_loop]. split.
    + intros H key v' [E|Hin].
      * injection E as <- <-.
        destruct (filter_rejects product k v) as [[|]|e];
          [discriminate | reflexivity | discriminate].
      * destruct (filter_rejects product k v) as [[|]|e]; try discriminate.
        cbn [bind] in H. now apply IH.
    + intros H. rewrite (H k v (or_introl eq_refl)). cbn [bind].
      apply IH. intros key v' Hin. apply H. now right.
Qed.

Lemma Qltb_false_iff (x y : Q) : Qltb x y = false <-> y <= x.
Proof.
  unfold Qltb. rewrite negb_false_iff. apply Qle_bool_iff.
Qed.

Lemma filter_rejects_false (product : Product.t) (key : string) (v : value) :
  filter_rejects product key v = Ok false <->
  (key = "brand_name" -> v = VStr (ProductBrand.name (Product.brand product)))
  /\ (key = "category" ->
      exists c, Product.category product = Some c /\ v = VStr c)
  /\ (key = "min_price" ->
      exists q, v = VNum q /\ q <= num_or (Product.price product) 0)
  /\ (key = "max_price" ->
      exists q, v = VNum q /\ num_or (Product.price product) 0 <= q).
Proof.
  unfold filter_rejects.
  destruct (String.eqb key "brand_name") eqn:E1.
  { apply String.eqb_eq in E1. subst key. split.
    - intros H. repeat split; try discriminate. intros _.
      destruct v as [s|q]; [|discriminate].
      injection H as H. apply negb_false_iff, String.eqb_eq in H. now subst.
    - intros (H & _). rewrite (H eq_refl). now rewrite String.eqb_refl. }
  destruct (String.eqb key "category") eqn:E2.
  { apply String.eqb_eq in E2. subst key. split.
    - intros H. repeat split; try discriminate. intros _.
      destruct v as [s|q]; [|discriminate].
      destruct (Product.category product) as [c|]; [|discriminate].
      injection H as H. apply negb_false_iff, String.eqb_eq in H. subst.
      now exists s.
    - intros (_ & H & _). destruct (H eq_refl) as (c & -> & ->).
      now rewrite String.eqb_refl. }
  destruct (String.eqb key "min_price") eqn:E3.
  { apply String.eqb_eq in E3. subst key. split.
    - intros H. repeat split; try discriminate. intros _.
      destruct v as [s|q]; [discriminate|].
      injection H as H. apply Qltb_false_iff in H. now exists q.
    - intros (_ & _ & H & _). destruct (H eq_refl) as (q & -> & Hq).
      f_equal. now apply Qltb_false_iff. }
  destruct (String.eqb key "max_price") eqn:E4.
  { apply String.eqb_eq in E4. subst key. split.
    - intros H. repeat split; try discriminate. intros _.
      destruct v as [s|q]; [discriminate|].
      injection H as H. apply Qltb_false_iff in H. now exists q.
    - intros (_ & _ & _ & H). destruct (H eq_refl) as (q & -> & Hq).
      f_equal. now apply Qltb_false_iff. }
  apply String.eqb_neq in E1, E2, E3, E4.
  split; [|reflexivity]. intros _. repeat split; intros; contradiction.
Qed.

(** X24. [_apply_filters] accepts a product exactly when every filter
    holds: [brand_name] is the brand name, [category] is the category of
    a product that has one, [min_price] and [max_price] are numbers that
    bound the price, a missing price counting as 0; other keys are
    ignored. *)
Theorem apply_filters_accepts (product : Product.t) (filters : option dict) :
  _apply_filters product filters = Ok true <->
  forall key v,
    In (key, v) (or_else filters []) ->
    (key = "brand_name" -> v = VStr (ProductBrand.name (Product.brand product)))
    /\ (key = "category" ->
        exists c, Product.category product = Some c /\ v = VStr c)
    /\ (key = "min_price" ->
        exists q, v = VNum q /\ q <= num_or (Product.price product) 0)
    /\ (key = "max_price" ->
        exists q, v = VNum q /\ num_or (Product.price product) 0 <= q).
Proof.
  assert (L : _apply_filters product filters
              = filters_loop product (or_else filters [])).
  { destruct filters as [[|kv items]|]; reflexivity. }
  rewrite L, filters_loop_true.
  split; intros H key v Hin; apply filter_rejects_false; now apply H.
Qed.

(** ** Lexical search and fusion *)

Lemma collect_length {A} (steps : list (result (option A))) (l : list A) :
  collect steps = Ok l -> (List.length l <= List.length steps)%nat.
Proof.
  revert l. induction steps as [|st steps IH]; intros l.
  - intros [= <-]. simpl. lia.
  - cbn [collect]. destruct st as [o|e]; [|discriminate]. cbn [bind].
    destruct (collect steps) as [l'|e]; [|discriminate]. cbn [bind].
    intros [= <-]. specialize (IH l' eq_refl).
    destruct o; simpl; lia.
Qed.

Section LexicalFacts.
Context {B : Backend}.

Lemma bm25_row_inv (self : HybridRetriever.t) (scores : list Q)
  (filters : option dict) (idx : nat) (r : scored) :
  bm25_row self scores filters idx = Ok (Some r) ->
  exists score,
    List.nth_error scores idx = Some score
    /\ 0 < score
    /\ List.nth_error (products_ self) idx = Some (fst r)
    /\ _apply_filters (fst r) filters = Ok true
    /\ snd r = Qmin (score / 10) 1.
Proof.
  unfold bm25_row, nth_or_raise.
  destruct (List.nth_error scores idx) as [score|]; [|discriminate].
  cbn [bind]. destruct (Qltb 0 score) eqn:E; [|discriminate].
  destruct (List.nth_error (products_ self) idx) as [p|]; [|discriminate].
  cbn [bind]. destruct (_apply_filters p filters) as [[|]|e] eqn:F;
    try discriminate.
  cbn [bind]. intros [= <-]. exists score.
  repeat split; try assumption. now apply Qltb_true_lt.
Qed.

(** X25. [_bm25_search] returns nothing without an index or without
    documents.  Otherwise it returns at most [max_results] results; each
    is a product of the retriever that passes the filters, at an index
    whose BM25 score is positive, with the score min(BM25 / 10, 1), in
    (0, 1]. *)
Theorem bm25_search_results (self : HybridRetriever.t) (query : string)
  (max_results : Z) (filters : option dict) :
  (bm25_index self = None \/ documents_ self = [] ->
   _bm25_search self query max_results filters = Ok [])
  /\ forall out,
       _bm25_search self query max_results filters = Ok out ->
       ((0 <= max_results)%Z -> (List.length out <= Z.to_nat max_results)%nat)
       /\ forall p s,
            In (p, s) out ->
            In p (products_ self)
            /\ _apply_filters p filters = Ok true
            /\ 0 < s <= 1
            /\ exists index idx score,
                 bm25_index self = Some index
                 /\ List.nth_error (get_scores index (tokens query)) idx
                    = Some score
                 /\ List.nth_error (products_ self) idx = Some p
                 /\ s = Qmin (score / 10) 1.
Proof.
  split.
  - unfold _bm25_search. intros [-> | ->]; [reflexivity|].
    destruct (bm25_index self); reflexivity.
  - intros out H. unfold _bm25_search in H.
    destruct (bm25_index self) as [index|] eqn:Ei.
    2:{ injection H as <-. split; [simpl; lia | intros p s []]. }
    destruct (documents_ self) as [|d ds].
    { injection H as <-. split; [simpl; lia | intros p s []]. }
    split.
    + intros Hn. apply collect_length in H. rewrite List.length_map in H.
      unfold slice_to in H. apply Z.leb_le in Hn. rewrite Hn in H.
      rewrite List.length_firstn in H. lia.
    + intros p s Hin.
      apply collect_in with (a := (p, s)) in H; [|exact Hin].
      apply in_map_iff in H. destruct H as (idx & Hrow & _).
      pose proof (bm25_row_some _ _ _ _ _ Hrow) as Hs.
      apply bm25_row_inv in Hrow.
      destruct Hrow as (score & Hsc & _ & Hp & Hf & Es). cbn [fst snd] in *.
      repeat split; try tauto.
      * eapply List.nth_error_In; eassumption.
      * exists index, idx, score. repeat split; assumption.
Qed.

End LexicalFacts.

(** Tokens of the searchable text *)

Lemma lower_app (a b : string) :
  Str.lower (a ++ b) = (Str.lower a ++ Str.lower b)%string.
Proof.
  unfold Str.lower. induction a as [|c a IH]; simpl; [reflexivity | now rewrite IH].
Qed.

Lemma words_from_app_space (a b : string) (sp : ascii) :
  Chr.isspace sp = true ->
  forall cur,
    words_from cur (a ++ String sp b)
    = words_from cur a ++ words_from "" b.
Proof.
  intros Hsp. induction a as [|c a IH]; intros cur.
  - cbn [append words_from]. rewrite Hsp.
    destruct (String.eqb cur ""); reflexivity.
  - cbn [append words_from]. destruct (Chr.isspace c).
    + destruct (String.eqb cur ""); rewrite IH; reflexivity.
    + apply IH.
Qed.

Lemma tokens_join (a b : string) :
  tokens (a ++ " | " ++ b) = tokens a ++ "|" :: tokens b.
Proof.
  unfold tokens. rewrite lower_app.
  change (Str.lower (" | " ++ b)) with (String " " (String "|" (String " " (Str.lower b)))).
  rewrite words_from_app_space by reflexivity. reflexivity.
Qed.

Lemma tokens_concat (parts : list string) (part w : string) :
  In part parts -> In w (tokens part) ->
  In w (tokens (String.concat " | "
                  (List.filter (fun s => negb (String.eqb s "")) parts))).
Proof.
  induction parts as [|x parts IH]; intros Hin Hw; [destruct Hin|].
  cbn [List.filter].
  destruct (String.eqb x "") eqn:Ex; cbn [negb].
  - destruct Hin as [->|Hin]; [|now apply IH].
    apply String.eqb_eq in Ex. subst part. destruct Hw.
  - destruct (List.filter (fun s => negb (String.eqb s "")) parts) as [|y ys] eqn:Ef.
    + destruct Hin as [->|Hin]; [exact Hw|].
      exfalso. specialize (IH Hin Hw). exact IH.
    + rewrite concat_cons2, tokens_join. apply in_or_app.
      destruct Hin as [->|Hin]; [now left|].
      right. right. now apply IH.
Qed.

(** X26. Every token of the name, of the brand name and of the
    reference of a product is a token of its searchable text, with the
    tokenisation of the BM25 index and of the query. *)
Theorem searchable_text_has_identity_tokens (product : Product.t) (w : string) :
  In w (tokens (Product.name product))
  \/ In w (tokens (ProductBrand.name (Product.brand product)))
  \/ In w (tokens (ProductReference.reference (Product.reference product))) ->
  In w (tokens (_create_searchable_text product)).
Proof.
  intros H. unfold _create_searchable_text.
  set (base := [Product.name product;
                ProductBrand.name (Product.brand product);
                ProductReference.reference (Product.reference product)]).
  match goal with
  | |- In w (tokens (String.concat " | " (List.filter _ ?parts))) =>
      assert (Hb : forall x, In x base -> In x parts)
  end.
  { intros x Hx. apply in_or_app. left.
    destruct (truthy_opt (Product.category product));
      destruct (truthy_opt (Product.description product));
      repeat (apply in_or_app; left); exact Hx. }
  destruct H as [H|[H|H]].
  - eapply tokens_concat; [apply Hb; now left | exact H].
  - eapply tokens_concat; [apply Hb; right; now left | exact H].
  - eapply tokens_concat; [apply Hb; right; right; now left | exact H].
Qed.

Lemma find_app {A} (f : A -> bool) (l1 l2 : list A) :
  List.find f (l1 ++ l2)
  = match List.find f l1 with Some x => Some x | None => List.find f l2 end.
Proof.
  induction l1 as [|x l1 IH]; [reflexivity|].
  cbn [List.app List.find]. destruct (f x); [reflexivity | exact IH].
Qed.

Lemma add_semantic_get (d : combined_dict) (p : Product.t) (s : Q)
  (k : option string) :
  get k (add_semantic d (p, s))
  = if key_eqb k (Product.id p)
    then Some (p, F64.mul s semantic_weight)
    else get k d.
Proof.
  unfold add_semantic. destruct (key_eqb k (Product.id p)) eqn:E.
  - apply key_eqb_eq in E. subst k. apply get_set_same.
  - apply key_eqb_neq in E. now apply get_set_other.
Qed.

Lemma fold_semantic_get_last (l : list scored) :
  forall d k,
    get k (List.fold_left add_semantic l d)
    = match entry_of (List.rev l) k with
      | Some (p, s) => Some (p, F64.mul s semantic_weight)
      | None => get k d
      end.
Proof.
  induction l as [|[p s] l IH]; intros d k; [reflexivity|].
  cbn [List.fold_left List.rev]. rewrite IH. unfold entry_of.
  rewrite find_app.
  destruct (List.find (fun r => key_eqb k (Product.id (fst r))) (List.rev l))
    as [[p' s']|]; [reflexivity|].
  cbn [List.find fst]. rewrite add_semantic_get.
  destruct (key_eqb k (Product.id p)); reflexivity.
Qed.

Lemma lexical_sum_comp (l : list scored) (k : option string) :
  forall a b, a == b -> lexical_sum l k a == lexical_sum l k b.
Proof.
  induction l as [|r l IH]; intros a b E; [exact E|].
  cbn [lexical_sum]. destruct (key_eqb k (Product.id (fst r))).
  - apply IH, F64Facts.add_comp; [exact E | reflexivity].
  - apply IH, E.
Qed.

Lemma fold_bm25_get_sum (l : list scored) :
  forall d k,
    match get k (List.fold_left add_bm25 l d), get k d with
    | Some (p', c'), Some (p, c) => p' = p /\ c' = lexical_sum l k c
    | Some (p', c'), None =>
        (exists s, entry_of l k = Some (p', s)) /\ c' == lexical_sum l k 0
    | None, Some _ => False
    | None, None => entry_of l k = None
    end.
Proof.
  induction l as [|[p s] l IH]; intros d k.
  - cbn [List.fold_left lexical_sum]. destruct (get k d) as [[p' c']|].
    + now split.
    + reflexivity.
  - cbn [List.fold_left lexical_sum fst snd].
    specialize (IH (add_bm25 d (p, s)) k).
    rewrite add_bm25_get in IH. unfold entry_of. cbn [List.find fst].
    destruct (key_eqb k (Product.id p)) eqn:E.
    + destruct (get k (List.fold_left add_bm25 l (add_bm25 d (p, s))))
        as [[p' c']|];
        destruct (get k d) as [[p0 c0]|]; try contradiction.
      * exact IH.
      * destruct IH as [-> ->]. split; [now exists s|].
        apply lexical_sum_comp. symmetry.
        apply F64Facts.add_0_l, F64Facts.float_mul.
    + exact IH.
Qed.

(** X27. Whatever the two lists, [_combine_search_results] returns each
    product id once and no more results than it received.  The score of a
    result is 0.7 times the score of the last semantic result with its id
    (0 without one), to which 0.3 times the score of each lexical result
    with its id is added in turn, in binary64 arithmetic; its product is
    that of this semantic result, or of the first such lexical result. *)
Theorem fusion_with_repeated_ids (sem lex : list scored) :
  NoDup (ids_of (_combine_search_results sem lex))
  /\ (List.length (_combine_search_results sem lex)
      <= List.length sem + List.length lex)%nat
  /\ forall p c,
       In (p, c) (_combine_search_results sem lex) ->
       c == lexical_sum lex (Product.id p)
              (F64.mul (score_or_zero (List.rev sem) (Product.id p))
                       semantic_weight)
       /\ match entry_of (List.rev sem) (Product.id p) with
          | Some r => p = fst r
          | None => exists s, entry_of lex (Product.id p) = Some (p, s)
          end.
Proof.
  assert (ND : NoDup (ids_of (_combine_search_results sem lex))).
  { eapply Permutation_NoDup; [symmetry; apply fused_ids_perm|].
    apply combine_dict_wf. }
  split; [exact ND|]. split.
  - replace (List.length (_combine_search_results sem lex))
      with (List.length (ids_of (_combine_search_results sem lex)))
      by (unfold ids_of; apply List.length_map).
    replace (List.length sem + List.length lex)%nat
      with (List.length (ids_of sem ++ ids_of lex))
      by (unfold ids_of; rewrite List.length_app, !List.length_map; reflexivity).
    apply NoDup_incl_length; [exact ND|].
    intros k Hk. apply in_or_app.
    apply (Permutation_in _ (fused_ids_perm sem lex)) in Hk.
    now apply combine_dict_keys.
  - intros p c Hin. apply fused_in_get in Hin. cbn [fst] in Hin.
    unfold combine_dict in Hin.
    pose proof (fold_bm25_get_sum lex
                  (List.fold_left add_semantic sem []) (Product.id p)) as H.
    rewrite Hin in H. rewrite fold_semantic_get_last in H.
    unfold score_or_zero.
    destruct (entry_of (List.rev sem) (Product.id p)) as [[ps s]|].
    + destruct H as [-> ->]. split; reflexivity.
    + cbn [get] in H. destruct H as [Hs H]. split; [|exact Hs].
      rewrite H. apply lexical_sum_comp. symmetry.
      destruct semantic_weight_float as (_ & F & I).
      now apply F64Facts.mul_0_l.
Qed.

Section HybridFacts.
Context {B : Backend}.

Lemma fold_semantic_entries (l : list scored) :
  forall d k p c,
    In (k, (p, c)) (List.fold_left add_semantic l d) ->
    In (k, (p, c)) d \/ exists s, In (p, s) l /\ c = F64.mul s semantic_weight.
Proof.
  induction l as [|[q s] l IH]; intros d k p c H; [now left|].
  cbn [List.fold_left] in H. apply IH in H. destruct H as [H|(s' & Hs & E)].
  - unfold add_semantic in H. apply set_in in H.
    destruct H as [[_ E]|H]; [|now left].
    injection E as -> ->. right. exists s. split; [now left | reflexivity].
  - right. exists s'. split; [now right | exact E].
Qed.

(** X28. Without a BM25 index, every result of [_hybrid_search] is a
    semantic result with its score multiplied by 0.7, in binary64
    arithmetic: the score is at least 0.7 times the threshold. *)
Theorem hybrid_without_index (self : HybridRetriever.t) (query : string)
  (max_results : Z) (similarity_threshold : Q) (filters : option dict)
  (out : list scored) :
  bm25_index self = None ->
  _hybrid_search self query max_results similarity_threshold filters = Ok out ->
  exists sem,
    _semantic_search self query max_results similarity_threshold filters = Ok sem
    /\ forall p c,
         In (p, c) out ->
         exists s,
           In (p, s) sem /\ c = F64.mul s semantic_weight
           /\ F64.mul similarity_threshold semantic_weight <= c.
Proof.
  intros Hi H. unfold _hybrid_search in H. rewrite Hi in H.
  destruct (_semantic_search self query max_results similarity_threshold filters)
    as [sem|e] eqn:Es; [|discriminate].
  cbn [bind] in H. injection H as <-.
  exists sem. split; [reflexivity|].
  intros p c Hin.
  destruct (slice_to_firstn max_results (_combine_search_results sem []))
    as (m & Em & _).
  rewrite Em in Hin. apply firstn_incl in Hin. unfold _combine_search_results in Hin.
  apply sorted_desc_in in Hin. apply in_map_iff in Hin.
  destruct Hin as ([k [p' c']] & E & Hin). cbn [snd] in E. injection E as -> ->.
  unfold combine_dict in Hin. cbn [List.fold_left] in Hin.
  apply fold_semantic_entries in Hin. destruct Hin as [[]|(s & Hs & ->)].
  exists s. split; [exact Hs|]. split; [reflexivity|].
  pose proof (semantic_search_threshold _ _ _ _ _ _ Es) as T.
  rewrite Forall_forall in T. specialize (T _ Hs). cbn [snd] in T.
  destruct semantic_weight_float as (W & F & I).
  now apply F64Facts.mul_le_r.
Qed.

Lemma update_bm25_index_collection (self : HybridRetriever.t) :
  collection (_update_bm25_index self) = collection self
  /\ (bm25_index (_update_bm25_index self) = None -> bm25_index self = None).
Proof.
  unfold _update_bm25_index.
  destruct (collection_get (collection self)) as [r|e]; [|now split].
  destruct (get_documents r) as [|d ds]; [now split|].
  destruct (BM25Okapi _) as [index|e]; [|now split].
  destruct (reconstruct_all _) as [ps|e]; cbn; split; try reflexivity;
    discriminate.
Qed.

(** X29. [add_products] with products: when the collection refuses
    them the retriever is unchanged and [VectorStoreError] is raised;
    when it accepts them the call succeeds and the retriever holds the
    new collection, whatever happens to the BM25 index, which is never
    dropped and is left as it was when the collection cannot be read
    back. *)
Theorem add_products_outcome (self : HybridRetriever.t)
  (products : list Product.t) :
  products <> [] ->
  match collection_add (collection self)
          (List.map _create_searchable_text products)
          (List.map metadata_of products) (doc_ids_from 0 products) with
  | Raise _ => add_products self products = (self, Raise "VectorStoreError")
  | Ok stored =>
      snd (add_products self products) = Ok tt
      /\ collection (fst (add_products self products)) = stored
      /\ (bm25_index self <> None ->
          bm25_index (fst (add_products self products)) <> None)
      /\ (forall e, collection_get stored = Raise e ->
            fst (add_products self products)
            = HybridRetriever.mk stored (bm25_index self) (documents_ self)
                                 (products_ self))
  end.
Proof.
  intros Hne. destruct products as [|p ps]; [congruence|].
  unfold add_products.
  destruct (collection_add _ _ _ _) as [stored|e]; [|reflexivity].
  cbn [fst snd].
  set (s1 := HybridRetriever.mk stored (bm25_index self) (documents_ self)
                                (products_ self)).
  destruct (update_bm25_index_collection s1) as [Hc Hi].
  repeat split.
  - exact Hc.
  - intros Hs Hn. apply Hi in Hn. exact (Hs Hn).
  - intros e He. unfold _update_bm25_index. cbn [collection s1].
    now rewrite He.
Qed.

End HybridFacts.

(** * The theorems at concrete inputs *)

Lemma extracted_product_invariant_witness :
  In Memory.bosch_product
     (extract_from_text Memory.gid scenario_A "bosch.txt")
  /\ 0 <= Product.extraction_confidence Memory.bosch_product <= 1.
Proof.
  assert (H : In Memory.bosch_product
                 (extract_from_text Memory.gid scenario_A "bosch.txt"))
    by (vm_compute; left; reflexivity).
  split; [exact H|].
  destruct (extracted_product_invariant Memory.gid scenario_A "bosch.txt"
              Memory.bosch_product H)
    as [(idx & section & b & bs & r & rs & cs & _ & _ & _ & _ & _ & _ & _ & _ & Hc) _].
  exact Hc.
Defined.

Lemma section_failure_is_skipped_witness :
  Memory.flaky "???" "doc" 1 = Raise "RuntimeError"
  /\ extract_products_with Memory.flaky
       [scenario_A; "???"; Memory.second_text] "doc"
     = contributions Memory.flaky "doc" 0 [scenario_A]
       ++ contributions Memory.flaky "doc" 2 [Memory.second_text].
Proof.
  assert (H : Memory.flaky "???" "doc" (List.length [scenario_A])
              = Raise "RuntimeError") by reflexivity.
  split; [reflexivity|].
  exact (proj1 (section_failure_is_skipped Memory.flaky "doc"
                  [scenario_A] [Memory.second_text] "???" "RuntimeError" H)).
Defined.


Lemma hybrid_fusion_witness :
  _semantic_search Memory.near_store Memory.the_query 5 (1 # 2) None
  = Ok Memory.near_sem
  /\ _bm25_search Memory.near_store Memory.the_query 5 None = Ok Memory.near_lex
  /\ _hybrid_search Memory.near_store Memory.the_query 5 (1 # 2) None
     = Ok (slice_to 5 (_combine_search_results Memory.near_sem
                                               Memory.near_lex)).
Proof.
  assert (H1 : _semantic_search Memory.near_store Memory.the_query 5 (1 # 2) None
               = Ok Memory.near_sem) by (vm_compute; reflexivity).
  assert (H2 : match bm25_index Memory.near_store with
               | Some _ => _bm25_search Memory.near_store Memory.the_query 5 None
               | None => Ok []
               end = Ok Memory.near_lex) by (vm_compute; reflexivity).
  assert (H2' : _bm25_search Memory.near_store Memory.the_query 5 None
                = Ok Memory.near_lex) by (vm_compute; reflexivity).
  split; [exact H1|]. split; [exact H2'|].
  pose proof (hybrid_fusion Memory.near_store Memory.the_query 5 (1 # 2) None
                Memory.near_sem Memory.near_lex H1 H2) as T.
  destruct T as [T _]. exact T.
Defined.

(** * The further properties at concrete inputs *)

Lemma extracted_product_fields_witness :
  In Memory.bosch_product
     (extract_from_text Memory.gid scenario_A "bosch.txt")
  /\ Product.currency Memory.bosch_product = Some "EUR".
Proof.
  assert (H : In Memory.bosch_product
                 (extract_from_text Memory.gid scenario_A "bosch.txt"))
    by (vm_compute; left; reflexivity).
  split; [exact H|].
  destruct (proj2 (extracted_product_fields Memory.gid scenario_A "bosch.txt")
                  Memory.bosch_product H)
    as (idx & section & _ & _ & _ & _ & Hc & _).
  exact Hc.
Defined.

Lemma extracted_brand_facts_witness :
  _extract_brands scenario_A = Ok Memory.scenario_brands
  /\ In Memory.some_brand Memory.scenario_brands
  /\ (2 <= String.length (ProductBrand.name Memory.some_brand) <= 50)%nat.
Proof.
  assert (H1 : _extract_brands scenario_A = Ok Memory.scenario_brands)
    by (vm_compute; reflexivity).
  assert (H2 : In Memory.some_brand Memory.scenario_brands)
    by (vm_compute; left; reflexivity).
  split; [exact H1|]. split; [exact H2|].
  exact (proj1 (extracted_brand_facts scenario_A Memory.scenario_brands
                  Memory.some_brand H1 H2)).
Defined.

Lemma extracted_reference_facts_witness :
  _extract_references scenario_A = Ok Memory.scenario_references
  /\ In Memory.some_reference Memory.scenario_references
  /\ (3 <= String.length (ProductReference.reference Memory.some_reference)
      <= 20)%nat.
Proof.
  assert (H1 : _extract_references scenario_A = Ok Memory.scenario_references)
    by (vm_compute; reflexivity).
  assert (H2 : In Memory.some_reference Memory.scenario_references)
    by (vm_compute; left; reflexivity).
  split; [exact H1|]. split; [exact H2|].
  exact (proj1 (extracted_reference_facts scenario_A Memory.scenario_references
                  Memory.some_reference H1 H2)).
Defined.

Lemma extracted_confidence_ranges_witness :
  In Memory.bosch_product
     (extract_from_text Memory.gid scenario_A "bosch.txt")
  /\ 24 # 100 <= ProductBrand.confidence (Product.brand Memory.bosch_product)
     <= 82 # 100.
Proof.
  assert (H : In Memory.bosch_product
                 (extract_from_text Memory.gid scenario_A "bosch.txt"))
    by (vm_compute; left; reflexivity).
  split; [exact H|].
  pose proof (extracted_confidence_ranges Memory.gid scenario_A "bosch.txt"
                Memory.bosch_product H) as T.
  destruct T as [T _]. exact T.
Defined.

Lemma extracted_characteristics_facts_witness :
  _extract_characteristics scenario_A = Ok Memory.scenario_characteristics
  /\ In Memory.some_characteristic Memory.scenario_characteristics
  /\ NoDup (List.map characteristic_key Memory.scenario_characteristics)
  /\ (2 <= String.length (ProductCharacteristic.name Memory.some_characteristic)
      <= 50)%nat.
Proof.
  assert (H1 : _extract_characteristics scenario_A
               = Ok Memory.scenario_characteristics)
    by (vm_compute; reflexivity).
  assert (H2 : In Memory.some_characteristic Memory.scenario_characteristics)
    by (vm_compute; left; reflexivity).
  split; [exact H1|]. split; [exact H2|].
  destruct (extracted_characteristics_facts scenario_A
              Memory.scenario_characteristics H1) as [Hn Hc].
  split; [exact Hn|].
  exact (proj1 (Hc Memory.some_characteristic H2)).
Defined.

Lemma split_sections_content_witness :
  (String.length "Marque: Bosch" < 50)%nat
  /\ _split_into_product_sections "Marque: Bosch" = ["Marque: Bosch"].
Proof.
  assert (H : (String.length "Marque: Bosch" < 50)%nat) by (simpl; lia).
  split; [exact H|].
  exact (proj2 (split_sections_content "Marque: Bosch") H).
Defined.

Lemma json_text_is_its_string_values_witness :
  string_leaves Memory.numbers_only = []
  /\ extract_from_json Memory.gid Memory.numbers_only "stock.json" = [].
Proof.
  assert (H : string_leaves Memory.numbers_only = []) by reflexivity.
  split; [exact H|].
  exact (proj2 (proj2 (proj2 (json_text_is_its_string_values Memory.gid
                                Memory.numbers_only "stock.json")) H)).
Defined.

Lemma metadata_round_trip_witness :
  unit_interval (Product.extraction_confidence Memory.bosch_product) = true
  /\ exists p,
       _reconstruct_product_from_metadata (metadata_of Memory.bosch_product)
                                          "document"
       = Ok p
       /\ Product.id p = Product.id Memory.bosch_product
       /\ Product.characteristics p = [].
Proof.
  assert (H1 : unit_interval (Product.extraction_confidence Memory.bosch_product)
               = true) by (vm_compute; reflexivity).
  split; [exact H1|].
  destruct (metadata_round_trip Memory.bosch_product "document" H1 I)
    as (p & Hp & Hid & _ & _ & _ & _ & _ & _ & _ & _ & _ & _ & Hcs & _).
  exists p. split; [exact Hp|]. split; [exact Hid | exact Hcs].
Defined.

Lemma extracted_products_round_trip_witness :
  In Memory.bosch_product
     (extract_from_text Memory.gid scenario_A "bosch.txt")
  /\ exists p,
       _reconstruct_product_from_metadata (metadata_of Memory.bosch_product)
                                          "document"
       = Ok p
       /\ Product.source_document p = Some "bosch.txt".
Proof.
  assert (H : In Memory.bosch_product
                 (extract_from_text Memory.gid scenario_A "bosch.txt"))
    by (vm_compute; left; reflexivity).
  split; [exact H|].
  destruct (extracted_products_round_trip Memory.gid scenario_A "bosch.txt"
              Memory.bosch_product "document" H)
    as (p & Hp & _ & _ & _ & _ & _ & _ & _ & Hs & _).
  exists p. split; [exact Hp | exact Hs].
Defined.

Lemma search_results_are_skeletons_witness :
  search_products Memory.store "bosch" BRAND_MATCHING 5 (1 # 2) None
  = Ok Memory.brand_results
  /\ In (fst Memory.some_result, snd Memory.some_result) Memory.brand_results
  /\ Product.characteristics (fst Memory.some_result) = [].
Proof.
  assert (H1 : search_products Memory.store "bosch" BRAND_MATCHING 5 (1 # 2) None
               = Ok Memory.brand_results) by (vm_compute; reflexivity).
  assert (H2 : In (fst Memory.some_result, snd Memory.some_result)
                  Memory.brand_results)
    by (vm_compute; left; reflexivity).
  split; [exact H1|]. split; [exact H2|].
  exact (proj1 (search_results_are_skeletons Memory.store "bosch" BRAND_MATCHING
                  5 (1 # 2) None Memory.brand_results
                  (fst Memory.some_result) (snd Memory.some_result) H1 H2)).
Defined.

Lemma stage_threshold_is_applied_witness :
  BRAND_MATCHING <> CHARACTERISTIC_MATCHING
  /\ search_products Memory.store "bosch" BRAND_MATCHING 5 (1 # 2) None
     = Ok Memory.brand_results
  /\ Forall (fun r => 1 # 2 <= snd r) Memory.brand_results.
Proof.
  assert (H0 : BRAND_MATCHING <> CHARACTERISTIC_MATCHING)
    by (intros H; discriminate H).
  assert (H1 : search_products Memory.store "bosch" BRAND_MATCHING 5 (1 # 2) None
               = Ok Memory.brand_results) by (vm_compute; reflexivity).
  split; [exact H0|]. split; [exact H1|].
  exact (stage_threshold_is_applied Memory.store "bosch" BRAND_MATCHING 5
           (1 # 2) None Memory.brand_results H0 H1).
Defined.

Lemma reference_query_uses_stored_key_witness :
  Str.forallb plain_reference_char "gsb120-li" = true
  /\ _search_by_reference Memory.store "gsb120-li" 5 (1 # 2) None
     = (results <-
          collection_query (collection Memory.store) "gsb120-li" 5
            (update [("$or",
                      AnyOf [("reference", Contains "gsb120-li");
                             ("reference_normalized",
                              Contains (_normalize_reference "gsb120-li"))])]
                    (or_else None [])) ;;
        _process_chroma_results results (1 # 2)).
Proof.
  assert (H : Str.forallb plain_reference_char "gsb120-li" = true)
    by reflexivity.
  split; [exact H|].
  exact (reference_query_uses_stored_key Memory.store "gsb120-li" 5 (1 # 2)
           None H).
Defined.

Lemma raising_threshold_filters_witness :
  1 # 10 <= 8 # 10
  /\ _process_chroma_results Memory.answer (1 # 10) = Ok Memory.loose_results
  /\ _process_chroma_results Memory.answer (8 # 10)
     = Ok (List.filter (fun r => Qle_bool (8 # 10) (snd r)) Memory.loose_results).
Proof.
  assert (H0 : 1 # 10 <= 8 # 10) by (vm_compute; discriminate).
  assert (H1 : _process_chroma_results Memory.answer (1 # 10)
               = Ok Memory.loose_results) by (vm_compute; reflexivity).
  split; [exact H0|]. split; [exact H1|].
  exact (raising_threshold_filters Memory.answer (1 # 10) (8 # 10)
           Memory.loose_results H0 H1).
Defined.

Lemma bm25_search_results_witness :
  _bm25_search Memory.store Memory.the_query 5 None = Ok Memory.lex_results
  /\ (0 <= 5)%Z
  /\ (List.length Memory.lex_results <= Z.to_nat 5)%nat.
Proof.
  assert (H1 : _bm25_search Memory.store Memory.the_query 5 None
               = Ok Memory.lex_results) by (vm_compute; reflexivity).
  assert (H2 : (0 <= 5)%Z) by lia.
  split; [exact H1|]. split; [exact H2|].
  pose proof (proj2 (bm25_search_results Memory.store Memory.the_query 5 None)
                    Memory.lex_results H1) as T.
  destruct T as [T _]. exact (T H2).
Defined.

Lemma searchable_text_has_identity_tokens_witness :
  In "bosch"
     (tokens (ProductBrand.name (Product.brand Memory.bosch_product)))
  /\ In "bosch" (tokens (_create_searchable_text Memory.bosch_product)).
Proof.
  assert (H : In "bosch"
                 (tokens (ProductBrand.name (Product.brand Memory.bosch_product))))
    by (vm_compute; left; reflexivity).
  split; [exact H|].
  exact (searchable_text_has_identity_tokens Memory.bosch_product "bosch"
           (or_intror (or_introl H))).
Defined.

Lemma fusion_with_repeated_ids_witness :
  In (fst Memory.some_fused, snd Memory.some_fused)
     (_combine_search_results Memory.sem_results Memory.repeated_lex)
  /\ snd Memory.some_fused
     == lexical_sum Memory.repeated_lex (Product.id (fst Memory.some_fused))
          (F64.mul (score_or_zero (List.rev Memory.sem_results)
                                  (Product.id (fst Memory.some_fused)))
                   semantic_weight).
Proof.
  assert (H : In (fst Memory.some_fused, snd Memory.some_fused)
                 (_combine_search_results Memory.sem_results
                                          Memory.repeated_lex))
    by (vm_compute; left; reflexivity).
  split; [exact H|].
  pose proof (proj2 (proj2 (fusion_with_repeated_ids Memory.sem_results
                              Memory.repeated_lex))
                    (fst Memory.some_fused) (snd Memory.some_fused) H) as T.
  destruct T as [T _]. exact T.
Defined.

Lemma hybrid_without_index_witness :
  bm25_index Memory.unindexed = None
  /\ _hybrid_search Memory.unindexed Memory.the_query 5 (1 # 2) None
     = Ok Memory.unindexed_results
  /\ exists sem,
       _semantic_search Memory.unindexed Memory.the_query 5 (1 # 2) None = Ok sem.
Proof.
  assert (H0 : bm25_index Memory.unindexed = None) by reflexivity.
  assert (H1 : _hybrid_search Memory.unindexed Memory.the_query 5 (1 # 2) None
               = Ok Memory.unindexed_results) by (vm_compute; reflexivity).
  split; [exact H0|]. split; [exact H1|].
  destruct (hybrid_without_index Memory.unindexed Memory.the_query 5 (1 # 2)
              None Memory.unindexed_results H0 H1) as (sem & Hs & _).
  exists sem. exact Hs.
Defined.

Lemma add_products_outcome_witness :
  Memory.catalogue <> []
  /\ snd (add_products Memory.empty_store Memory.catalogue) = Ok tt.
Proof.
  assert (H : Memory.catalogue <> []) by (vm_compute; discriminate).
  split; [exact H|].
  pose proof (add_products_outcome Memory.empty_store Memory.catalogue H) as T.
  destruct T as [T _]. exact T.
Defined.
